(** * VoxCoinBot: the UNO game module ([src/modules/games/uno.py])

    A shallow embedding of the UNO engine of the bot and the properties of
    its specification.

    Modelling conventions.
    - A card is the Python tuple [(color, rank)] of two strings.
    - Python lists are Rocq lists in the same order: [l.pop()] takes the
      LAST element, [l[-1]] is the last element, [l.append(x)] is
      [l ++ [x]].
    - Python dicts keyed by integers (GAMES, a game's "hands", the stats
      file) are [gmap Z _].  The stats file is keyed by [str(cid)] and
      [str(uid)]; [str] is injective on integers, so the keys are kept as
      integers.
    - The JSON files are modelled by the value they encode: the
      conversions of [save_games]/[load_games] (tuple <-> list, int <-> str,
      datetime <-> ISO string) round-trip on the values a game holds.
    - [random] is an explicit oracle [rnd : nat -> nat]; [datetime.now] is
      an explicit argument [now] (seconds).
    - A handler runs under [log_handler], which logs and swallows every
      exception: the state reached when the exception was raised stays.
      A handler therefore returns the new world, the replies it sent and
      the exception it raised, if any.
    - Calls to the Telegram API (reply_text, get_chat_member,
      delete_message) are assumed to succeed; file writes are assumed to
      succeed. *)

From Stdlib Require Import Ascii Sorted.
From stdpp Require Import gmap strings list fin_maps.

Open Scope Z_scope.

(** ** Python primitives *)

Module Py.

Inductive exn : Type :=
| IndexError
| KeyError
| ValueError
| ZeroDivisionError
| UnboundLocalError.

#[global] Instance exn_eq_dec : EqDecision exn.
Proof. solve_decision. Defined.

Section Lists.
Context {A : Type}.

(** [l.pop()]: the last element and the rest; [None] is IndexError. *)
Fixpoint pop (l : list A) : option (list A * A) :=
  match l with
  | [] => None
  | [x] => Some ([], x)
  | x :: l' =>
      match pop l' with
      | Some (r, y) => Some (x :: r, y)
      | None => None
      end
  end.

(** [l[i]] with Python's negative indices; [None] is IndexError. *)
Definition index (l : list A) (i : Z) : option A :=
  let n := Z.of_nat (length l) in
  if decide (0 <= i < n) then l !! Z.to_nat i
  else if decide (- n <= i < 0) then l !! Z.to_nat (n + i)
  else None.

(** [l[-1]] *)
Definition top (l : list A) : option A := index l (-1).

Context `{EqDecision A}.

(** [x in l] *)
Definition contains (x : A) (l : list A) : bool := bool_decide (x ∈ l).

(** [l.remove(x)]: drops the first occurrence; [None] is ValueError. *)
Fixpoint remove (x : A) (l : list A) : option (list A) :=
  match l with
  | [] => None
  | y :: l' =>
      if decide (y = x) then Some l'
      else match remove x l' with
           | Some r => Some (y :: r)
           | None => None
           end
  end.
End Lists.

(** [random.shuffle(x)]:
    [for i in reversed(range(1, len(x))): j = randbelow(i + 1);
     x[i], x[j] = x[j], x[i]].
    The oracle gives the number drawn at loop index [i]. *)
Definition swap {A} (l : list A) (i j : nat) : list A :=
  match l !! i, l !! j with
  | Some x, Some y => <[j:=x]> (<[i:=y]> l)
  | _, _ => l
  end.

Fixpoint shuffle_from {A} (rnd : nat → nat) (i : nat) (l : list A) : list A :=
  match i with
  | O => l
  | S i' => shuffle_from rnd i' (swap l i (rnd i `mod` S i)%nat)
  end.

Definition shuffle {A} (rnd : nat → nat) (l : list A) : list A :=
  shuffle_from rnd (length l - 1)%nat l.

(** [random.choice(seq)]: [seq[randbelow(len(seq))]]. *)
Definition choice {A} (rnd : nat → nat) (l : list A) : option A :=
  l !! (rnd 0%nat `mod` length l)%nat.

(** ASCII part of [str.lower]. *)
Definition lower_ascii (c : ascii) : ascii :=
  let n := nat_of_ascii c in
  if ((65 <=? n)%nat && (n <=? 90)%nat)%bool then ascii_of_nat (n + 32) else c.

Fixpoint lower (s : string) : string :=
  match s with
  | EmptyString => EmptyString
  | String c s' => String (lower_ascii c) (lower s')
  end.

(** ASCII part of [str.isdigit]: non-empty and only digits. *)
Definition is_digit_ascii (c : ascii) : bool :=
  let n := nat_of_ascii c in ((48 <=? n)%nat && (n <=? 57)%nat)%bool.

Fixpoint all_digits (s : string) : bool :=
  match s with
  | EmptyString => true
  | String c s' => (is_digit_ascii c && all_digits s')%bool
  end.

Definition isdigit (s : string) : bool :=
  match s with
  | EmptyString => false
  | _ => all_digits s
  end.

End Py.

(** ** Cards and the deck *)

Definition card : Type := string * string.

Definition COLORS : list string := ["red"; "green"; "blue"; "yellow"].

(** The dict SPECIAL: [None] is KeyError. *)
Definition SPECIAL (k : string) : option string :=
  if decide (k = "skip") then Some "skip"
  else if decide (k = "reverse") then Some "reverse"
  else if decide (k = "draw2") then Some "+2"
  else if decide (k = "wild") then Some "wild"
  else if decide (k = "wild4") then Some "wild4"
  else None.

(** [v if v.isdigit() else SPECIAL[v]] *)
Definition display_rank (v : string) : option string :=
  if Py.isdigit v then Some v else SPECIAL v.

(** [str(n)] for the numerals [1..9] of [range(1, 10)]. *)
Definition str_digit (n : nat) : string :=
  String (ascii_of_nat (48 + n)) EmptyString.

Definition color_cards (c : string) : list card :=
  [(c, "0")]
    ++ flat_map (λ n, [(c, str_digit n); (c, str_digit n)]) (seq 1 9)
    ++ flat_map (λ sp, [(c, sp); (c, sp)]) ["skip"; "reverse"; "draw2"].

Definition unshuffled_deck : list card :=
  flat_map color_cards COLORS
    ++ replicate 4 ("wild", "wild")
    ++ replicate 4 ("wild", "wild4").

Definition create_deck (rnd : nat → nat) : list card :=
  Py.shuffle rnd unshuffled_deck.


(** ** Sessions and the world *)

(** One entry of GAMES.  [current_color = None] is Python's [None]. *)
Record game : Type := Game {
  players : list Z;
  hands : gmap Z (list card);
  deck : list card;
  pile : list card;
  current : Z;
  direction : Z;
  current_color : option string;
  started : bool;
  last_active : Z;
}.

Definition set_players (v : list Z) (g : game) : game :=
  Game v (hands g) (deck g) (pile g) (current g) (direction g)
       (current_color g) (started g) (last_active g).
Definition set_hands (v : gmap Z (list card)) (g : game) : game :=
  Game (players g) v (deck g) (pile g) (current g) (direction g)
       (current_color g) (started g) (last_active g).
Definition set_deck (v : list card) (g : game) : game :=
  Game (players g) (hands g) v (pile g) (current g) (direction g)
       (current_color g) (started g) (last_active g).
Definition set_pile (v : list card) (g : game) : game :=
  Game (players g) (hands g) (deck g) v (current g) (direction g)
       (current_color g) (started g) (last_active g).
Definition set_current (v : Z) (g : game) : game :=
  Game (players g) (hands g) (deck g) (pile g) v (direction g)
       (current_color g) (started g) (last_active g).
Definition set_direction (v : Z) (g : game) : game :=
  Game (players g) (hands g) (deck g) (pile g) (current g) v
       (current_color g) (started g) (last_active g).
Definition set_current_color (v : option string) (g : game) : game :=
  Game (players g) (hands g) (deck g) (pile g) (current g) (direction g)
       v (started g) (last_active g).
Definition set_started (v : bool) (g : game) : game :=
  Game (players g) (hands g) (deck g) (pile g) (current g) (direction g)
       (current_color g) v (last_active g).
Definition set_last_active (v : Z) (g : game) : game :=
  Game (players g) (hands g) (deck g) (pile g) (current g) (direction g)
       (current_color g) (started g) v.

(** The process state: the global dict GAMES and the two JSON files.
    [GAMES_FILE = None]: uno_games.json does not exist.  uno_stats.json
    always exists (the module creates it when it is loaded). *)
Record world : Type := World {
  GAMES : gmap Z game;
  GAMES_FILE : option (gmap Z game);
  STATS_FILE : gmap Z (gmap Z Z);
}.

Definition set_GAMES (v : gmap Z game) (w : world) : world :=
  World v (GAMES_FILE w) (STATS_FILE w).
Definition set_GAMES_FILE (v : option (gmap Z game)) (w : world) : world :=
  World (GAMES w) v (STATS_FILE w).
Definition set_STATS_FILE (v : gmap Z (gmap Z Z)) (w : world) : world :=
  World (GAMES w) (GAMES_FILE w) v.

(** The messages a handler sends with [reply_text], by kind. *)
Inductive reply : Type :=
| R_NotRunning                       (* "The game is not running." *)
| R_NotYourTurn                      (* "It's not your turn." *)
| R_PlayUsage                        (* "Usage: ..." *)
| R_ChooseColor                      (* "Choose a color: ..." *)
| R_CardNotHeld                      (* "You don't have that card." *)
| R_InvalidCard                      (* "Invalid card: does not match ..." *)
| R_Played (uid : Z) (c : card) (shown : string) (color : option string)
| R_DrawsAndSkips (n : nat) (victim : Z)
| R_Won (uid : Z)
| R_NextTurn (uid : Z)
| R_Drew (c : card) (shown : string)
| R_NewGame                          (* "New UNO game started!" *)
| R_StartFirst                       (* "Start the game first ..." *)
| R_AlreadyStarted                   (* "Game already started!" *)
| R_AlreadyJoined                    (* "You are already in the game." *)
| R_Joined (uid : Z) (total : nat)
| R_AlreadyInProgress                (* "Game already in progress." *)
| R_NeedTwoPlayers                   (* "Need at least 2 players." *)
| R_Begun (top : card) (shown : string) (color : option string) (first : Z)
| R_ResetDone                        (* "UNO game reset. ..." *)
| R_NothingToReset                   (* "No active game to reset." *)
| R_NoActiveGame                     (* "No active game in this chat." *)
| R_Status (nplayers : nat) (is_started : bool)
           (turn : option (Z * option string * option (card * string))).

(** What a handler did besides changing the world. *)
Record outcome : Type := Outcome {
  replies : list reply;
  raised : option Py.exn;
}.

Definition said (rs : list reply) : outcome := Outcome rs None.
Definition threw (e : Py.exn) (rs : list reply) : outcome := Outcome rs (Some e).

(** ** Code that mutates one game object

    A computation on the [game] dict of the running handler: it reads and
    mutates the game, sends replies, and returns a value or raises.  When
    it raises, the mutations made so far stay. *)

Inductive res (A : Type) : Type :=
| Ok (a : A)
| Raise (e : Py.exn).
Arguments Ok {A} a.
Arguments Raise {A} e.

Definition M (A : Type) : Type := game → list reply → game * list reply * res A.

Definition ret {A} (a : A) : M A := λ g out, (g, out, Ok a).

Definition bind {A B} (m : M A) (k : A → M B) : M B :=
  λ g out,
    match m g out with
    | (g', out', Ok a) => k a g' out'
    | (g', out', Raise e) => (g', out', Raise e)
    end.

Definition raise {A} (e : Py.exn) : M A := λ g out, (g, out, Raise e).
Definition get : M game := λ g out, (g, out, Ok g).
Definition modify (f : game → game) : M unit := λ g out, (f g, out, Ok tt).
Definition say (r : reply) : M unit := λ g out, (g, out ++ [r], Ok tt).

(** A Python operation that can fail: [None] raises [e]. *)
Definition try_ {A} (e : Py.exn) (o : option A) : M A :=
  match o with
  | Some a => ret a
  | None => raise e
  end.

Declare Scope uno_scope.
Delimit Scope uno_scope with uno.
Notation "x <- m ;; k" := (bind m (λ x, k))
  (at level 100, m at next level, right associativity) : uno_scope.
Notation "m ;;; k" := (bind m (λ _, k))
  (at level 100, right associativity) : uno_scope.
Open Scope uno_scope.

(** [advance_turn(game)]:
    [game["current"] = (game["current"] + game["direction"]) % len(game["players"])].
    Python's [%] by a positive number is [Z.modulo]; by zero it raises. *)
Definition advance_turn : M unit :=
  g <- get ;;
  if decide (length (players g) = 0%nat) then raise Py.ZeroDivisionError
  else modify (set_current ((current g + direction g) `mod` Z.of_nat (length (players g)))).

(** [game["deck"].pop()] *)
Definition pop_deck : M card :=
  g <- get ;;
  p <- try_ Py.IndexError (Py.pop (deck g)) ;;
  modify (set_deck p.1) ;;;
  ret p.2.

(** [[game["deck"].pop() for _ in range(n)]]: the cards popped before a
    failing pop are gone from the deck and are not in the result. *)
Fixpoint pop_deck_n (n : nat) : M (list card) :=
  match n with
  | O => ret []
  | S n' =>
      c <- pop_deck ;;
      cs <- pop_deck_n n' ;;
      ret (c :: cs)
  end.

(** [game["players"][game["current"]]] *)
Definition current_player : M Z :=
  g <- get ;;
  try_ Py.IndexError (Py.index (players g) (current g)).

(** [game["hands"][uid].extend(cards)] (and [.append(card)]) *)
Definition extend_hand (uid : Z) (cards : list card) : M unit :=
  g <- get ;;
  h <- try_ Py.KeyError (hands g !! uid) ;;
  modify (set_hands (<[uid := h ++ cards]> (hands g))).

(** ** Persistence *)

(** [save_games()]: nothing is written when GAMES is empty. *)
Definition save_games (w : world) : world :=
  if decide (GAMES w = ∅) then w
  else set_GAMES_FILE (Some (GAMES w)) w.

(** [load_games()] *)
Definition load_games (w : world) : world :=
  match GAMES_FILE w with
  | Some raw => set_GAMES raw w
  | None => w
  end.

(** [cleanup_old_games()]: [timedelta(hours=24)] is 86400 seconds. *)
Definition expired (now : Z) (g : game) : bool :=
  bool_decide (86400 < now - last_active g).

Definition cleanup_old_games (now : Z) (w : world) : world :=
  let to_remove := filter (λ kg, expired now kg.2 = true) (GAMES w) in
  let w' := set_GAMES (filter (λ kg, expired now kg.2 ≠ true) (GAMES w)) w in
  if decide (to_remove = ∅) then w' else save_games w'.

(** [initialize_games()] *)
Definition initialize_games (now : Z) (w : world) : world :=
  if decide (GAMES w = ∅) then cleanup_old_games now (load_games w) else w.

(** A restart of the process: the module is loaded again, [GAMES = {}] and
    then [initialize_games()]; the files are what the old process left. *)
Definition restart (now : Z) (w : world) : world :=
  initialize_games now (set_GAMES ∅ w).

(** [load_stats()], the update of uno_play's win branch, [save_stats()]. *)
Definition record_win (cid uid : Z) (stats : gmap Z (gmap Z Z)) : gmap Z (gmap Z Z) :=
  let chat_stats := default ∅ (stats !! cid) in
  <[cid := <[uid := default 0 (chat_stats !! uid) + 1]> chat_stats]> stats.

(** The game object of the handler is the one stored in GAMES. *)
Definition store (cid : Z) (g : game) (w : world) : world :=
  set_GAMES (<[cid := g]> (GAMES w)) w.

(** ** The handlers *)

(** [uno_start] *)
Definition new_game (rnd : nat → nat) (now : Z) : game :=
  {| players := [];
     hands := ∅;
     deck := create_deck rnd;
     pile := [];
     current := 0;
     direction := 1;
     current_color := None;
     started := false;
     last_active := now |}.

Definition uno_start (rnd : nat → nat) (now : Z) (cid : Z) (w : world)
  : world * outcome :=
  (save_games (store cid (new_game rnd now) w), said [R_NewGame]).

(** [uno_join] *)
Definition uno_join (now : Z) (cid uid : Z) (w : world) : world * outcome :=
  match GAMES w !! cid with
  | None => (w, said [R_StartFirst])
  | Some game =>
      if started game then (w, said [R_AlreadyStarted])
      else if Py.contains uid (players game) then (w, said [R_AlreadyJoined])
      else
        let g1 := set_last_active now (set_players (players game ++ [uid]) game) in
        (save_games (store cid g1 w), said [R_Joined uid (length (players g1))])
  end.

(** [uno_begin]: the deal, lines 282-291 ... *)
Fixpoint deal (uids : list Z) : M unit :=
  match uids with
  | [] => ret tt
  | uid :: rest =>
      cards <- pop_deck_n 7 ;;
      modify (λ g, set_hands (<[uid := cards]> (hands g)) g) ;;;
      deal rest
  end.

Definition uno_begin_deal (rnd : nat → nat) (now : Z) : M card :=
  g <- get ;;
  deal (players g) ;;;
  top <- pop_deck ;;
  modify (λ g, set_pile (pile g ++ [top]) g) ;;;
  color <- (if decide (top.1 = "wild") then try_ Py.IndexError (Py.choice rnd COLORS)
            else ret top.1) ;;
  modify (set_current_color (Some color)) ;;;
  modify (set_started true) ;;;
  modify (set_last_active now) ;;;
  ret top.

(** ... and the announcement, lines 294-301. *)
Definition uno_begin_announce (top : card) : M unit :=
  first <- current_player ;;
  shown <- try_ Py.KeyError (display_rank top.2) ;;
  g <- get ;;
  say (R_Begun top shown (current_color g) first).

Definition uno_begin (rnd : nat → nat) (now : Z) (cid : Z) (w : world)
  : world * outcome :=
  match GAMES w !! cid with
  | None => (w, said [R_StartFirst])
  | Some game =>
      if started game then (w, said [R_AlreadyInProgress])
      else if decide (length (players game) < 2)%nat then (w, said [R_NeedTwoPlayers])
      else
        match uno_begin_deal rnd now game [] with
        | (g1, out1, Raise e) => (store cid g1 w, threw e out1)
        | (g1, out1, Ok top) =>
            let w1 := save_games (store cid g1 w) in
            match uno_begin_announce top g1 out1 with
            | (g2, out2, Raise e) => (store cid g2 w1, threw e out2)
            | (g2, out2, Ok _) => (store cid g2 w1, said out2)
            end
        end
  end.

(** [uno_reset] *)
Definition uno_reset (cid : Z) (w : world) : world * outcome :=
  match GAMES w !! cid with
  | Some _ => (save_games (set_GAMES (delete cid (GAMES w)) w), said [R_ResetDone])
  | None => (w, said [R_NothingToReset])
  end.

(** [uno_status] *)
Definition uno_status (cid : Z) (w : world) : world * outcome :=
  match GAMES w !! cid with
  | None => (w, said [R_NoActiveGame])
  | Some game =>
      if started game then
        match Py.index (players game) (current game) with
        | None => (w, threw Py.IndexError [])
        | Some current_player =>
            match Py.top (pile game) with
            | None =>
                (w, said [R_Status (length (players game)) true
                            (Some (current_player, current_color game, None))])
            | Some top_card =>
                (* SPECIAL.get(top_card[1], top_card[1]) *)
                let shown := default top_card.2 (display_rank top_card.2) in
                (w, said [R_Status (length (players game)) true
                            (Some (current_player, current_color game,
                                   Some (top_card, shown)))])
            end
        end
      else (w, said [R_Status (length (players game)) false None])
  end.

(** [uno_play]: "Determine card", lines 412-429, on the lowered
    arguments. *)
Inductive determined : Type :=
| NoArguments                                   (* [not args] *)
| ColorMissing                                  (* wild without a color of COLORS *)
| TokenMissing                                  (* [args[1]] raises IndexError *)
| Determined (c : card) (chosen_color : option string).

Definition determine_card (args : list string) : determined :=
  match args with
  | [] => NoArguments
  | a0 :: rest =>
      if bool_decide (a0 ∈ ["wild"; "wild4"]) then
        match rest with
        | [] => ColorMissing
        | a1 :: _ =>
            if bool_decide (a1 ∈ COLORS) then Determined ("wild", a0) (Some a1)
            else ColorMissing
        end
      else
        match rest with
        | [] => TokenMissing
        | a1 :: _ => Determined (a0, a1) None
        end
  end.

(** The test of line 438, negated: the card passes the validity check. *)
Definition playable (top_color : option string) (top_value : string) (c : card) : bool :=
  negb (bool_decide (c.1 ≠ "wild")
        && bool_decide (Some c.1 ≠ top_color)
        && bool_decide (c.2 ≠ top_value)).

(** The victim's draw of the draw2 and wild4 branches. *)
Definition victim_draws (n : nat) : M unit :=
  advance_turn ;;;
  nxt <- current_player ;;
  draw <- pop_deck_n n ;;
  extend_hand nxt draw ;;;
  say (R_DrawsAndSkips n nxt) ;;;
  advance_turn.

(** "Handle special card effects", lines 451-481. *)
Definition special_effect (c : card) : M unit :=
  if decide (c.2 = "skip") then
    advance_turn ;;; advance_turn
  else if decide (c.2 = "reverse") then
    modify (λ g, set_direction (direction g * -1) g) ;;;
    g <- get ;;
    (if decide (length (players g) = 2%nat) then advance_turn else ret tt) ;;;
    advance_turn
  else if decide (c.2 = "draw2") then victim_draws 2
  else if decide (c.2 = "wild4") then victim_draws 4
  else advance_turn.

(** [chosen_color if card[0] == "wild" else card[0]]; [chosen_color] is
    bound only in the wild branch of "Determine card" ([None]: unbound). *)
Definition played_color (c : card) (chosen_color : option string) : option string :=
  if decide (c.1 = "wild") then chosen_color else Some c.1.

(** "Play the card", lines 441-449.  [hand] is the list object stored in
    [game["hands"]] under [uid], so [hand.remove(card)] changes the dict
    entry.  (Were [uid] not a key, [hand] would be a fresh empty list and
    [remove] would raise.) *)
Definition place_card (now uid : Z) (c : card) (chosen_color : option string) : M unit :=
  g <- get ;;
  hand' <- try_ Py.ValueError (Py.remove c (default [] (hands g !! uid))) ;;
  modify (set_hands (<[uid := hand']> (hands g))) ;;;
  modify (λ g, set_pile (pile g ++ [c]) g) ;;;
  color <- try_ Py.UnboundLocalError (played_color c chosen_color) ;;
  modify (set_current_color (Some color)) ;;;
  modify (set_last_active now) ;;;
  shown <- try_ Py.KeyError (display_rank c.2) ;;
  say (R_Played uid c shown (Some color)).

Definition play_card (now uid : Z) (c : card) (chosen_color : option string) : M unit :=
  place_card now uid c chosen_color ;;;
  special_effect c.

(** Lines 441-502: the play once every check has passed. *)
Definition uno_play_commit (now : Z) (cid uid : Z) (c : card)
    (chosen_color : option string) (game : game) (w : world) : world * outcome :=
  match play_card now uid c chosen_color game [] with
  | (g1, out1, Raise e) => (store cid g1 w, threw e out1)
  | (g1, out1, Ok _) =>
      let w1 := store cid g1 w in
      (* [if not hand] *)
      if decide (default [] (hands g1 !! uid) = []) then
        let w2 := set_STATS_FILE (record_win cid uid (STATS_FILE w1)) w1 in
        let w3 := set_GAMES (delete cid (GAMES w2)) w2 in
        (save_games w3, said (out1 ++ [R_Won uid]))
      else
        let w2 := save_games w1 in
        match Py.index (players g1) (current g1) with
        | None => (w2, threw Py.IndexError out1)
        | Some nxt => (w2, said (out1 ++ [R_NextTurn nxt]))
        end
  end.

(** Lines 403-439: the checks, none of which writes anything. *)
Definition uno_play (now : Z) (cid uid : Z) (context_args : list string) (w : world)
  : world * outcome :=
  match GAMES w !! cid with
  | None => (w, said [R_NotRunning])
  | Some game =>
      if negb (started game) then (w, said [R_NotRunning])
      else
        match Py.index (players game) (current game) with
        | None => (w, threw Py.IndexError [])
        | Some p =>
            if decide (p ≠ uid) then (w, said [R_NotYourTurn])
            else
              match determine_card (map Py.lower context_args) with
              | NoArguments => (w, said [R_PlayUsage])
              | ColorMissing => (w, said [R_ChooseColor])
              | TokenMissing => (w, threw Py.IndexError [])
              | Determined c chosen_color =>
                  if negb (Py.contains c (default [] (hands game !! uid)))
                  then (w, said [R_CardNotHeld])
                  else
                    match Py.top (pile game) with
                    | None => (w, threw Py.IndexError [])
                    | Some top_card =>
                        if negb (playable (current_color game) top_card.2 c)
                        then (w, said [R_InvalidCard])
                        else uno_play_commit now cid uid c chosen_color game w
                    end
              end
        end
  end.

(** [uno_draw]: lines 520-530, up to the call of save_games ... *)
Definition uno_draw_take (rnd : nat → nat) (now uid : Z) : M card :=
  g <- get ;;
  (if decide (deck g = []) then
     p <- try_ Py.IndexError (Py.pop (pile g)) ;;
     modify (set_deck p.1) ;;;
     modify (set_pile [p.2]) ;;;
     modify (λ g, set_deck (Py.shuffle rnd (deck g)) g)
   else ret tt) ;;;
  c <- pop_deck ;;
  extend_hand uid [c] ;;;
  modify (set_last_active now) ;;;
  ret c.

(** ... and lines 533-539, after it. *)
Definition uno_draw_pass (c : card) : M unit :=
  shown <- try_ Py.KeyError (display_rank c.2) ;;
  say (R_Drew c shown) ;;;
  advance_turn ;;;
  nxt <- current_player ;;
  say (R_NextTurn nxt).

Definition uno_draw (rnd : nat → nat) (now : Z) (cid uid : Z) (w : world)
  : world * outcome :=
  match GAMES w !! cid with
  | None => (w, said [R_NotRunning])
  | Some game =>
      if negb (started game) then (w, said [R_NotRunning])
      else
        match Py.index (players game) (current game) with
        | None => (w, threw Py.IndexError [])
        | Some p =>
            if decide (p ≠ uid) then (w, said [R_NotYourTurn])
            else
              match uno_draw_take rnd now uid game [] with
              | (g1, out1, Raise e) => (store cid g1 w, threw e out1)
              | (g1, out1, Ok c) =>
                  let w1 := save_games (store cid g1 w) in
                  match uno_draw_pass c g1 out1 with
                  | (g2, out2, Raise e) => (store cid g2 w1, threw e out2)
                  | (g2, out2, Ok _) => (store cid g2 w1, said out2)
                  end
              end
        end
  end.

(** ** Counting cards *)

Definition hand_cards (h : gmap Z (list card)) : nat :=
  map_fold (λ _ cards n, (length cards + n)%nat) 0%nat h.

Definition card_count (g : game) : nat :=
  (length (deck g) + length (pile g) + hand_cards (hands g))%nat.

(** All cards of a game, for the multiset view of conservation. *)
Definition all_cards (g : game) : list card :=
  deck g ++ pile g ++ map_fold (λ _ cards acc, cards ++ acc) [] (hands g).

(** ** Commands *)

(** The commands of the module that change or read a session, with the
    oracle and the clock each one consults. *)
Inductive command : Type :=
| Start (rnd : nat → nat) (now : Z) (cid : Z)
| Join (now : Z) (cid uid : Z)
| Begin (rnd : nat → nat) (now : Z) (cid : Z)
| Play (now : Z) (cid uid : Z) (args : list string)
| Draw (rnd : nat → nat) (now : Z) (cid uid : Z)
| Reset (cid : Z)
| Status (cid : Z).

Definition run (c : command) (w : world) : world * outcome :=
  match c with
  | Start rnd now cid => uno_start rnd now cid w
  | Join now cid uid => uno_join now cid uid w
  | Begin rnd now cid => uno_begin rnd now cid w
  | Play now cid uid args => uno_play now cid uid args w
  | Draw rnd now cid uid => uno_draw rnd now cid uid w
  | Reset cid => uno_reset cid w
  | Status cid => uno_status cid w
  end.

(** A sequence of commands, each on the world the one before left. *)
Fixpoint run_all (cs : list command) (w : world) : world :=
  match cs with
  | [] => w
  | c :: cs' => run_all cs' (run c w).1
  end.

Definition is_draw (c : command) : bool :=
  match c with
  | Draw _ _ _ _ => true
  | _ => false
  end.

(** The games file holds exactly the sessions in memory. *)
Definition durable (w : world) : Prop := GAMES_FILE w = Some (GAMES w).

(** What save_games guarantees for a handler that took [w] to [w']: the
    file holds the store when the store is not empty, and is left as it
    was when the store is empty. *)
Definition persisted_after (w w' : world) : Prop :=
  (GAMES w' ≠ ∅ → durable w') ∧ (GAMES w' = ∅ → GAMES_FILE w' = GAMES_FILE w).

(** ** Vocabulary of the specification *)

(** [uid] is the player to act in the started session [game] of chat
    [cid]. *)
Definition on_turn (w : world) (cid uid : Z) (game : game) : Prop :=
  GAMES w !! cid = Some game
  ∧ started game = true
  ∧ Py.index (players game) (current game) = Some uid.

(** The legality rule: the card against a color and a rank. *)
Definition legal (top_color : option string) (top_rank : string) (c : card) : Prop :=
  c.1 = "wild" ∨ Some c.1 = top_color ∨ c.2 = top_rank.

(** The preconditions of play, in the order the handler tests them. *)
Inductive play_error : Type :=
| NoSuchSession
| NotStarted
| NotYourTurn
| ColorRequired
| CardNotHeld
| IllegalPlay.

(** The message that reports each of them. *)
Definition error_reply (e : play_error) : reply :=
  match e with
  | NoSuchSession | NotStarted => R_NotRunning
  | NotYourTurn => R_NotYourTurn
  | ColorRequired => R_ChooseColor
  | CardNotHeld => R_CardNotHeld
  | IllegalPlay => R_InvalidCard
  end.

(** The first token names a wild and no color of COLORS follows it. *)
Definition color_missing (args : list string) : Prop :=
  ∃ a0 rest, args = a0 :: rest ∧ a0 ∈ ["wild"; "wild4"]
             ∧ (∀ a1, head rest = Some a1 → a1 ∉ COLORS).

(** The lowered arguments name a card: a wild with a color of COLORS, or
    a color and a rank. *)
Definition names_card (args : list string) (c : card) : Prop :=
  ∃ a0 a1 rest, args = a0 :: a1 :: rest
    ∧ ((a0 ∈ ["wild"; "wild4"] ∧ a1 ∈ COLORS ∧ c = ("wild", a0))
       ∨ ((a0 ∉ ["wild"; "wild4"]) ∧ c = (a0, a1))).

(** Precondition [e] of [play(cid, uid, args)] fails in [w]. *)
Definition violated (w : world) (cid uid : Z) (args : list string) (e : play_error)
  : Prop :=
  match e with
  | NoSuchSession => GAMES w !! cid = None
  | NotStarted => ∃ g, GAMES w !! cid = Some g ∧ started g = false
  | NotYourTurn =>
      ∃ g, GAMES w !! cid = Some g ∧ Py.index (players g) (current g) ≠ Some uid
  | ColorRequired => color_missing (map Py.lower args)
  | CardNotHeld =>
      ∃ g c, GAMES w !! cid = Some g ∧ names_card (map Py.lower args) c
             ∧ c ∉ default [] (hands g !! uid)
  | IllegalPlay =>
      ∃ g c top_card, GAMES w !! cid = Some g ∧ names_card (map Py.lower args) c
             ∧ Py.top (pile g) = Some top_card
             ∧ ¬ legal (current_color g) top_card.2 c
  end.

(** Turn validity and a top card, as in every started game. *)
Definition turn_valid (g : game) : Prop :=
  0 <= current g < Z.of_nat (length (players g)) ∧ pile g ≠ [].

(** ** Sample states *)

(** The oracle under which [random.shuffle] leaves the list as it is
    ([randbelow(i + 1)] returns [i] at every step). *)
Definition keep_order : nat → nat := λ i, i.

(** Two players, 1 and 2, in chat 100: /uno_start, two /uno_join,
    /uno_begin. *)
Definition world0 : world := World ∅ None ∅.

Definition begun2 : world :=
  let w1 := (uno_start keep_order 0 100 world0).1 in
  let w2 := (uno_join 1 100 1 w1).1 in
  let w3 := (uno_join 2 100 2 w2).1 in
  (uno_begin keep_order 3 100 w3).1.

(** The session of chat 100 in a sample world. *)
Definition session (w : world) : game :=
  default (new_game keep_order 0) (GAMES w !! 100).

(** [n] draws, each by the player whose turn it is. *)
Fixpoint draws (n : nat) (w : world) : world :=
  match n with
  | O => w
  | S n' =>
      match GAMES w !! 100 with
      | Some g =>
          match Py.index (players g) (current g) with
          | Some uid => draws n' (uno_draw keep_order 4 100 uid w).1
          | None => w
          end
      | None => w
      end
  end.


(** Three players, 1, 2 and 3, in chat 100. *)
Definition begun3 : world :=
  let w1 := (uno_start keep_order 0 100 world0).1 in
  let w2 := (uno_join 1 100 1 w1).1 in
  let w3 := (uno_join 2 100 2 w2).1 in
  let w4 := (uno_join 2 100 3 w3).1 in
  (uno_begin keep_order 3 100 w4).1.

(** Player 1 plays a wild and declares red, then the players draw the 93
    cards of the deck: player 1 is to act, the deck is empty and the pile
    holds two cards. *)
Definition deck_spent : world :=
  draws 93 (uno_play 5 100 1 ["wild"; "red"] begun2).1.

(** Player 1 plays a wild and declares yellow; player 2 plays two skips
    and two reverses, keeping the turn each time; the players then draw 92
    cards.  Player 2 is to act and holds a yellow draw2, the deck holds one
    card and the pile six. *)
Definition short_deck : world :=
  draws 92
    (run_all [Play 5 100 1 ["wild"; "yellow"];
              Play 5 100 2 ["yellow"; "skip"];
              Play 5 100 2 ["yellow"; "skip"];
              Play 5 100 2 ["yellow"; "reverse"];
              Play 5 100 2 ["yellow"; "reverse"]] begun2).

(** A line of play that leaves player 1 with a wild4 as last card while
    the deck holds three cards.  Player 2 only draws.  Player 1 plays three
    wild draw fours at once, then draws and plays what was drawn, bridging
    the colors with the three wilds. *)
Definition draw_by1 : command := Draw keep_order 4 100 1.
Definition draw_by2 : command := Draw keep_order 4 100 2.
Definition play_by1 (a0 a1 : string) : command := Play 5 100 1 [a0; a1].

Definition last_card_line : list command :=
  [play_by1 "wild4" "yellow"; play_by1 "wild4" "yellow";
   play_by1 "wild4" "yellow"; draw_by1; draw_by2; play_by1 "yellow" "3";
   draw_by2; draw_by1; draw_by2; play_by1 "yellow" "1"; draw_by2; draw_by1;
   draw_by2; play_by1 "wild" "blue"; draw_by2; play_by1 "blue" "draw2";
   draw_by1; draw_by2; play_by1 "blue" "skip"; draw_by1; draw_by2;
   play_by1 "blue" "9"; draw_by2; draw_by1; draw_by2; play_by1 "blue" "7";
   draw_by2; draw_by1; draw_by2; play_by1 "blue" "6"; draw_by2; draw_by1;
   draw_by2; play_by1 "blue" "4"; draw_by2; draw_by1; draw_by2;
   play_by1 "blue" "3"; draw_by2; draw_by1; draw_by2; play_by1 "blue" "1";
   draw_by2; draw_by1; draw_by2; play_by1 "wild" "green"; draw_by2;
   play_by1 "green" "draw2"; draw_by1; draw_by2; play_by1 "green" "skip";
   draw_by1; draw_by2; play_by1 "green" "9"; draw_by2; draw_by1; draw_by2;
   play_by1 "green" "7"; draw_by2; draw_by1; draw_by2; play_by1 "green" "6";
   draw_by2; draw_by1; draw_by2; play_by1 "green" "4"; draw_by2; draw_by1;
   draw_by2; play_by1 "green" "3"; draw_by2; draw_by1; draw_by2;
   play_by1 "green" "1"; draw_by2; draw_by1; draw_by2; play_by1 "wild" "red";
   draw_by2; play_by1 "red" "draw2"; draw_by1; draw_by2; play_by1 "red" "skip";
   draw_by1; draw_by2; play_by1 "red" "9"; draw_by2; draw_by1; draw_by2;
   play_by1 "red" "7"; draw_by2; draw_by1; draw_by2; play_by1 "red" "6";
   draw_by2; draw_by1; draw_by2; play_by1 "red" "4"; draw_by2; draw_by1;
   draw_by2; play_by1 "red" "3"; draw_by2].

Definition last_card : world := run_all last_card_line begun2.

(** The 92 draws after which one card is left in the deck of [begun2]. *)
Definition ninety_two_draws : list command :=
  flat_map (λ _, [draw_by1; draw_by2]) (seq 0 46).

(** ** Runs of play and draw *)

Definition play_or_draw (c : command) : bool :=
  match c with
  | Play _ _ _ _ | Draw _ _ _ _ => true
  | _ => false
  end.

(** Every command of the sequence returns without an exception. *)
Fixpoint all_complete (cs : list command) (w : world) : Prop :=
  match cs with
  | [] => True
  | c :: cs' => raised (run c w).2 = None ∧ all_complete cs' (run c w).1
  end.

(** ** Well-formed sessions *)

(** The rank of the card can be shown: it is a numeral or a key of
    SPECIAL. *)
Definition displayable (c : card) : Prop := is_Some (display_rank c.2).

Record well_formed (g : game) : Prop := WellFormed {
  wf_deck : Forall displayable (deck g);
  wf_pile : Forall displayable (pile g);
  wf_hands : ∀ p h, hands g !! p = Some h → Forall displayable h;
  wf_fresh : started g = false → current g = 0;
  wf_turn : started g = true → 0 <= current g < Z.of_nat (length (players g));
  wf_top : started g = true → pile g ≠ [];
  wf_dealt : started g = true → ∀ p, p ∈ players g → is_Some (hands g !! p);
}.

Definition world_ok (w : world) : Prop :=
  ∀ cid g, GAMES w !! cid = Some g → well_formed g.

Definition file_ok (w : world) : Prop :=
  ∀ raw cid g, GAMES_FILE w = Some raw → raw !! cid = Some g → well_formed g.

Definition sound (w : world) : Prop := world_ok w ∧ file_ok w.

(** The worlds of the bot: it is first started without sessions and
    without a games file, serves commands, and may be restarted. *)
Inductive reachable : world → Prop :=
| reach_boot w : GAMES w = ∅ → GAMES_FILE w = None → reachable w
| reach_run c w : reachable w → reachable (run c w).1
| reach_restart now w : reachable w → reachable (restart now w).

(** A started, well-formed game with players [ps]. *)
Definition playing (ps : list Z) (g : game) : Prop :=
  well_formed g ∧ started g = true ∧ players g = ps.

(** A well-formed game being dealt: not started, players [ps], and a hand
    for each player of [dealt]. *)
Definition dealing (ps dealt : list Z) (g : game) : Prop :=
  well_formed g ∧ started g = false ∧ players g = ps
  ∧ ∀ p, p ∈ dealt → is_Some (hands g !! p).

(** [triple P m Q]: from a game satisfying [P], [m] either returns [a] in
    a game satisfying [Q a], or raises in a well-formed game. *)
Definition triple {A} (P : game → Prop) (m : M A) (Q : A → game → Prop) : Prop :=
  ∀ g out, P g →
    match m g out with
    | (g', _, Ok a) => Q a g'
    | (g', _, Raise _) => well_formed g'
    end.

(** * The rest of the module *)

(** ** The other handlers *)

(** [uno_hand].  The cards go to the caller in a private chat
    ([send_message(chat_id=uid, ...)]); the two refusals are replies in the
    group chat.  The text is built after [save_games]: a rank that is
    neither a numeral nor a key of SPECIAL would raise KeyError then. *)
Inductive hand_reply : Type :=
| H_NotRunning                       (* "The game is not running." *)
| H_NoCards                          (* "You have no cards." *)
| H_YourCards (chat_id : Z) (shown : list (string * string)).

(** [f"{c} {v if v.isdigit() else SPECIAL[v]}" for c, v in hand] *)
Definition show_hand (hand : list card) : option (list (string * string)) :=
  mapM (λ c : card, shown ← display_rank c.2; Some (c.1, shown)) hand.

Definition uno_hand (now : Z) (cid uid : Z) (w : world) : world * res hand_reply :=
  match GAMES w !! cid with
  | None => (w, Ok H_NotRunning)
  | Some game =>
      if negb (started game) then (w, Ok H_NotRunning)
      else
        let hand := default [] (hands game !! uid) in
        if decide (hand = []) then (w, Ok H_NoCards)
        else
          let w1 := save_games (store cid (set_last_active now game) w) in
          match show_hand hand with
          | None => (w1, Raise Py.KeyError)
          | Some shown => (w1, Ok (H_YourCards uid shown))
          end
  end.

(** [uno_top10].  [sorted(items, key=lambda x: x[1], reverse=True)] is the
    stable sort by decreasing wins: an entry goes before the first entry
    with fewer wins, so entries with equal wins keep their order. *)
Fixpoint insert_by_wins (x : Z * Z) (l : list (Z * Z)) : list (Z * Z) :=
  match l with
  | [] => [x]
  | y :: l' => if decide (y.2 < x.2) then x :: y :: l' else y :: insert_by_wins x l'
  end.

Definition sorted_by_wins (items : list (Z * Z)) : list (Z * Z) :=
  foldl (λ acc x, insert_by_wins x acc) [] items.

Inductive top10_reply : Type :=
| T_NoWins                           (* "No wins yet." *)
| T_Top (lines : list (nat * Z * Z)).  (* "{i}. {name} — {wins} wins" *)

(** [items] is [stats.items()] for the chat's entry of uno_stats.json
    ([{}] when the chat has none), in the order of the file.  A line of
    the answer is the rank, the user (shown by name when the chat knows
    the member, by id otherwise) and the wins. *)
Definition uno_top10 (items : list (Z * Z)) : top10_reply :=
  if decide (items = []) then T_NoWins
  else T_Top (imap (λ i e, (S i, e.1, e.2)) (take 10 (sorted_by_wins items))).

(** The worlds of the bot when [uno_hand], which writes the time of last
    activity, is served as well. *)
Inductive attainable : world → Prop :=
| attain_boot w : GAMES w = ∅ → GAMES_FILE w = None → attainable w
| attain_run c w : attainable w → attainable (run c w).1
| attain_hand now cid uid w : attainable w → attainable (uno_hand now cid uid w).1
| attain_restart now w : attainable w → attainable (restart now w).

(** ** Vocabulary for the further properties *)

(** The number of copies of a card in a list. *)
Definition copies (c : card) (l : list card) : nat :=
  length (filter (λ x, x = c) l).

(** [k] calls of [advance_turn(game)]. *)
Fixpoint advance_turns (k : nat) : M unit :=
  match k with
  | O => ret tt
  | S k' => advance_turn ;;; advance_turns k'
  end.

(** The chat a command is sent in. *)
Definition chat_of (c : command) : Z :=
  match c with
  | Start _ _ cid | Join _ cid _ | Begin _ _ cid | Play _ cid _ _
  | Draw _ _ cid _ | Reset cid | Status cid => cid
  end.

(** What a computation on a game leaves alone: the list of players stays,
    a started game stays started, and the direction changes by its sign
    only. *)
Definition seats_kept (g g' : game) : Prop :=
  players g' = players g
  ∧ (started g = true → started g' = true)
  ∧ (direction g' = direction g ∨ direction g' = - direction g).

Definition keeps_seats {A} (m : M A) : Prop :=
  ∀ g out, seats_kept g (m g out).1.1.

(** The shape of a session: no player sits twice, the direction is 1 or
    -1, and a started game has at least two players. *)
Definition tidy (g : game) : Prop :=
  NoDup (players g)
  ∧ (direction g = 1 ∨ direction g = -1)
  ∧ (started g = true → (2 <= length (players g))%nat).

(** The session a command writes: a new game, the old session with one
    more player, or the old session after a computation that keeps the
    seats. *)
Definition written_by (c : command) (w : world) (g' : game) : Prop :=
  (∃ rnd now cid, c = Start rnd now cid ∧ g' = new_game rnd now)
  ∨ (∃ g now cid uid, c = Join now cid uid
       ∧ GAMES w !! cid = Some g ∧ started g = false
       ∧ (uid ∉ players g)
       ∧ g' = set_last_active now (set_players (players g ++ [uid]) g))
  ∨ (∃ g, GAMES w !! chat_of c = Some g ∧ seats_kept g g'
       ∧ (started g = true
          ∨ ∃ rnd now cid, c = Begin rnd now cid ∧ (2 <= length (players g))%nat)).

(** Every session in memory and every session of the games file is
    tidy. *)
Definition all_tidy (w : world) : Prop :=
  (∀ cid g, GAMES w !! cid = Some g → tidy g)
  ∧ (∀ raw cid g, GAMES_FILE w = Some raw → raw !! cid = Some g → tidy g).

(** A session with the whole deck: 108 cards in deck, pile and hands, and
    no hands before the deal. *)
Definition full_deck (g : game) : Prop :=
  card_count g = 108%nat ∧ (started g = false → hands g = ∅).

(** ** Further sample states *)

(** Two chats: the started game of chat 100 and a new session in chat
    200. *)
Definition two_chats : world := (uno_start keep_order 4 200 begun2).1.

(** Players 1 and 2 have joined the new session of chat 100; the game has
    not begun. *)
Definition joined2 : world :=
  run_all (map (Join 1 100) [1; 2]) (uno_start keep_order 0 100 world0).1.

Definition seated2 : game :=
  set_last_active 1 (set_players [1; 2] (new_game keep_order 0)).

(** Sixteen players have joined the new session of chat 100: more than
    the 108 cards serve. *)
Definition sixteen : list Z := map Z.of_nat (seq 1 16).

Definition crowded : world :=
  run_all (map (Join 1 100) sixteen) (uno_start keep_order 0 100 world0).1.

(** Player 1 has played a wild on the started game of chat 100 and
    declared yellow: player 2 is to act. *)
Definition wild_played : world := (run (Play 5 100 1 ["wild"; "yellow"]) begun2).1.

(** Player 2 then plays two skips and two reverses, which with two
    players keep the turn each time, and holds a wild and two yellow
    draw2. *)
Definition before_draw2 : world :=
  run_all [Play 6 100 2 ["yellow"; "skip"]; Play 6 100 2 ["yellow"; "skip"];
           Play 6 100 2 ["yellow"; "reverse"]; Play 6 100 2 ["yellow"; "reverse"]]
    wild_played.

(** After the two draw2 as well, player 2 is left with the wild, and the
    turn. *)
Definition one_card_left : world :=
  run_all [Play 6 100 2 ["yellow"; "draw2"]; Play 6 100 2 ["yellow"; "draw2"]]
    before_draw2.

(** The commands that set up [begun2], followed by [last_card_line]. *)
Definition whole_line : list command :=
  [Start keep_order 0 100; Join 1 100 1; Join 2 100 2; Begin keep_order 3 100]
    ++ last_card_line.
(** * Properties *)

(** ** Python lists *)

Section PyLists.
Context {A : Type}.
Implicit Types (l r : list A) (x : A).

Lemma pop_snoc l x : Py.pop (l ++ [x]) = Some (l, x).
Proof.
  induction l as [|y l IH]; [done|].
  simpl. rewrite IH. by destruct l.
Qed.

Lemma pop_nil_iff l : Py.pop l = None ↔ l = [].
Proof.
  split; [|by intros ->].
  destruct l as [|y l] using rev_ind; [done|].
  by rewrite pop_snoc.
Qed.

Lemma pop_Some l r x : Py.pop l = Some (r, x) ↔ l = r ++ [x].
Proof.
  split; [|intros ->; apply pop_snoc].
  destruct l as [|y l _] using rev_ind; [done|].
  rewrite pop_snoc. by intros [= -> ->].
Qed.

Lemma pop_is_Some l : l ≠ [] → ∃ r x, Py.pop l = Some (r, x) ∧ l = r ++ [x].
Proof.
  destruct l as [|y l _] using rev_ind; [done|].
  intros _. exists l, y. by rewrite pop_snoc.
Qed.

Lemma index_in_range l (i : nat) :
  Py.index l (Z.of_nat i) = l !! i.
Proof.
  unfold Py.index. cbv zeta. case_decide as H.
  - by rewrite Nat2Z.id.
  - case_decide; [lia|].
    symmetry. apply lookup_ge_None. lia.
Qed.

Lemma index_nonneg l (i : Z) x :
  0 <= i → Py.index l i = Some x → l !! Z.to_nat i = Some x ∧ i < Z.of_nat (length l).
Proof.
  intros Hi. unfold Py.index. cbv zeta.
  case_decide; [intros; split; [done|lia]|].
  case_decide; [exfalso; lia|done].
Qed.

Lemma index_lt l (i : Z) :
  0 <= i < Z.of_nat (length l) → is_Some (Py.index l i).
Proof.
  intros Hi. unfold Py.index. cbv zeta. rewrite decide_True by done.
  apply lookup_lt_is_Some. lia.
Qed.

Lemma top_snoc l x : Py.top (l ++ [x]) = Some x.
Proof.
  unfold Py.top, Py.index. cbv zeta. rewrite length_app.
  rewrite decide_False by lia. rewrite decide_True by (simpl; lia).
  replace (Z.to_nat (Z.of_nat (length l + length [x]) + -1)) with (length l)
    by (simpl; lia).
  by rewrite lookup_app_r, Nat.sub_diag by lia.
Qed.

Lemma top_nil_iff l : Py.top l = None ↔ l = [].
Proof.
  split; [|by intros ->].
  destruct l as [|y l _] using rev_ind; [done|].
  by rewrite top_snoc.
Qed.

Lemma swap_Permutation l i j : Py.swap l i j ≡ₚ l.
Proof.
  unfold Py.swap.
  destruct (l !! i) as [x|] eqn:Hi; [|done].
  destruct (l !! j) as [y|] eqn:Hj; [|done].
  by apply Permutation_insert_swap.
Qed.

Lemma shuffle_from_Permutation rnd i l : Py.shuffle_from rnd i l ≡ₚ l.
Proof.
  revert l. induction i as [|i IH]; intros l; [done|].
  simpl. rewrite IH. apply swap_Permutation.
Qed.

(** [random.shuffle] rearranges: nothing is added, dropped or copied. *)
Lemma shuffle_Permutation rnd l : Py.shuffle rnd l ≡ₚ l.
Proof. apply shuffle_from_Permutation. Qed.

Lemma shuffle_length rnd l : length (Py.shuffle rnd l) = length l.
Proof. by rewrite shuffle_Permutation. Qed.

Context `{EqDecision A}.

Lemma contains_true x l : Py.contains x l = true ↔ x ∈ l.
Proof. unfold Py.contains. by rewrite bool_decide_eq_true. Qed.

Lemma remove_Some x l : x ∈ l → ∃ r, Py.remove x l = Some r ∧ l ≡ₚ x :: r.
Proof.
  induction l as [|y l IH]; [by intros ?%elem_of_nil|].
  intros Hin. simpl. case_decide as Hy.
  - subst. by exists l.
  - apply elem_of_cons in Hin as [->|Hin]; [done|].
    destruct (IH Hin) as (r & -> & Hr).
    exists (y :: r). split; [done|].
    by rewrite Hr, Permutation_swap.
Qed.

Lemma remove_length x l r : Py.remove x l = Some r → length l = S (length r).
Proof.
  revert r. induction l as [|y l IH]; intros r; [done|].
  simpl. case_decide.
  - by intros [= ->].
  - destruct (Py.remove x l) as [r'|]; [|done].
    intros [= <-]. simpl. by rewrite (IH r').
Qed.

End PyLists.

(** ** The deck *)

Lemma create_deck_Permutation rnd : create_deck rnd ≡ₚ unshuffled_deck.
Proof. apply shuffle_Permutation. Qed.

Lemma create_deck_length rnd : length (create_deck rnd) = 108%nat.
Proof. by rewrite create_deck_Permutation. Qed.

(** ** The arguments of /uno_play *)

Lemma determine_card_names args c chosen :
  determine_card args = Determined c chosen ↔
  names_card args c ∧ chosen = (if decide (c.1 = "wild") then args !! 1%nat else None).
Proof.
  unfold determine_card, names_card. split.
  - destruct args as [|a0 [|a1 rest]]; try done.
    + by case_bool_decide.
    + case_bool_decide as H0; [case_bool_decide as H1; [|done]|].
      * intros [= <- <-]. split; [|done].
        exists a0, a1, rest. naive_solver.
      * intros [= <- <-]. split.
        -- exists a0, a1, rest. naive_solver.
        -- simpl. case_decide as Hw; [|done].
           exfalso. apply H0. subst. set_solver.
  - intros [(a0 & a1 & rest & -> & [(H0 & H1 & ->)|(H0 & ->)]) ->]; simpl.
    + by rewrite !bool_decide_eq_true_2.
    + rewrite bool_decide_eq_false_2 by done.
      case_decide as Hw; [|done].
      exfalso. apply H0. subst. set_solver.
Qed.

Lemma determine_card_color_missing args :
  determine_card args = ColorMissing ↔ color_missing args.
Proof.
  unfold determine_card, color_missing. split.
  - destruct args as [|a0 [|a1 rest]]; try done.
    + case_bool_decide; [|done]. intros _. exists a0, []. naive_solver.
    + case_bool_decide as H0; [|done]. case_bool_decide as H1; [done|].
      intros _. exists a0, (a1 :: rest). naive_solver.
  - intros (a0 & rest & -> & H0 & H1).
    rewrite bool_decide_eq_true_2 by done.
    destruct rest as [|a1 rest]; [done|].
    rewrite bool_decide_eq_false_2; [done|]. by apply H1.
Qed.

(** ** The checks of /uno_play *)

Lemma playable_legal top_color top_rank c :
  playable top_color top_rank c = true ↔ legal top_color top_rank c.
Proof.
  unfold playable, legal.
  rewrite negb_true_iff, !andb_false_iff, !bool_decide_eq_false.
  split.
  - intros [[H|H]|H]; [left|right; left|right; right];
      by destruct (decide (c.1 = "wild")), (decide (Some c.1 = top_color)),
                  (decide (c.2 = top_rank)).
  - intros [H|[H|H]]; [left; left|left; right|right]; naive_solver.
Qed.

(** On the player's turn the first three checks pass. *)
Lemma uno_play_on_turn now cid uid args w game :
  on_turn w cid uid game →
  uno_play now cid uid args w =
    match determine_card (map Py.lower args) with
    | NoArguments => (w, said [R_PlayUsage])
    | ColorMissing => (w, said [R_ChooseColor])
    | TokenMissing => (w, threw Py.IndexError [])
    | Determined c chosen_color =>
        if negb (Py.contains c (default [] (hands game !! uid)))
        then (w, said [R_CardNotHeld])
        else
          match Py.top (pile game) with
          | None => (w, threw Py.IndexError [])
          | Some top_card =>
              if negb (playable (current_color game) top_card.2 c)
              then (w, said [R_InvalidCard])
              else uno_play_commit now cid uid c chosen_color game w
          end
    end.
Proof.
  intros (Hg & Hs & Hp). unfold uno_play.
  rewrite Hg, Hs, Hp. simpl. by rewrite decide_False by naive_solver.
Qed.

Lemma uno_play_commit_not_invalid now cid uid c chosen game w :
  (uno_play_commit now cid uid c chosen game w).2 ≠ said [R_InvalidCard].
Proof.
  unfold uno_play_commit.
  destruct (play_card now uid c chosen game []) as [[g1 out1] [[]|e]]; [|done].
  case_decide.
  - simpl. intros [= Heq]. by destruct out1 as [|? [|]].
  - destruct (Py.index (players g1) (current g1)); [|done].
    simpl. intros [= Heq]. by destruct out1 as [|? [|]].
Qed.

(** C10. On the current player's turn in a started game, /uno_play with a
    single token that is not wild/wild4 raises IndexError at [args[1]],
    before anything is written: no reply is sent and the whole world, hence
    the session, is unchanged. *)
Theorem play_single_token_raises_before_mutation now cid uid tok w game :
  on_turn w cid uid game →
  Py.lower tok ∉ ["wild"; "wild4"] →
  uno_play now cid uid [tok] w = (w, threw Py.IndexError [])
  ∧ GAMES (uno_play now cid uid [tok] w).1 !! cid = Some game.
Proof.
  intros Hturn Htok.
  rewrite (uno_play_on_turn _ _ _ _ _ _ Hturn). simpl.
  rewrite bool_decide_eq_false_2 by done.
  split; [done|]. apply Hturn.
Qed.

Lemma play_single_token_raises_before_mutation_witness :
  uno_play 5 100 1 ["red"] begun2 = (begun2, threw Py.IndexError [])
  ∧ GAMES (uno_play 5 100 1 ["red"] begun2).1 !! 100 = Some (session begun2).
Proof.
  apply (play_single_token_raises_before_mutation 5 100 1 "red" begun2 (session begun2)).
  - split; [|split]; vm_compute; reflexivity.
  - apply (bool_decide_unpack _). vm_compute. exact I.
Defined.

(** C2. In a started game, for the player to act and a card of their
    hand, /uno_play goes on to play the card exactly when the card is wild,
    or has the session's current color, or has the rank of the top card of
    the pile, and answers "Invalid card" otherwise, leaving the world as it
    was.  The test reads [current_color] and the rank of the top card only:
    the color stored in the top card plays no part. *)
Theorem play_legality now cid uid args w game c chosen top_card :
  on_turn w cid uid game →
  determine_card (map Py.lower args) = Determined c chosen →
  c ∈ default [] (hands game !! uid) →
  Py.top (pile game) = Some top_card →
  (legal (current_color game) top_card.2 c ↔
     uno_play now cid uid args w = uno_play_commit now cid uid c chosen game w)
  ∧ (¬ legal (current_color game) top_card.2 c ↔
     uno_play now cid uid args w = (w, said [R_InvalidCard])).
Proof.
  intros Hturn Hargs Hheld Htop.
  rewrite (uno_play_on_turn _ _ _ _ _ _ Hturn), Hargs.
  apply contains_true in Hheld. rewrite Hheld, Htop. simpl.
  pose proof (playable_legal (current_color game) top_card.2 c) as Hp.
  pose proof (uno_play_commit_not_invalid now cid uid c chosen game w) as Hc.
  destruct (playable (current_color game) top_card.2 c); simpl.
  - assert (Hl : legal (current_color game) top_card.2 c) by (by apply Hp).
    split.
    + split; [done | by intros _].
    + split; [by intros Hn | intros Heq; by rewrite Heq in Hc].
  - assert (Hn : ¬ legal (current_color game) top_card.2 c) by (by intros Hl%Hp).
    split.
    + split; [by intros Hl | intros Heq; by rewrite <- Heq in Hc].
    + split; [done | by intros _].
Qed.

Lemma play_legality_witness :
  (legal (Some "yellow") "9" ("wild", "wild4") ↔
     uno_play 5 100 1 ["wild4"; "red"] begun2 =
       uno_play_commit 5 100 1 ("wild", "wild4") (Some "red") (session begun2) begun2)
  ∧ (¬ legal (Some "yellow") "9" ("wild", "wild4") ↔
     uno_play 5 100 1 ["wild4"; "red"] begun2 = (begun2, said [R_InvalidCard])).
Proof.
  apply (play_legality 5 100 1 ["wild4"; "red"] begun2 (session begun2)
           ("wild", "wild4") (Some "red") ("yellow", "9")).
  - split; [|split]; vm_compute; reflexivity.
  - vm_compute; reflexivity.
  - apply (bool_decide_unpack _). vm_compute. exact I.
  - vm_compute; reflexivity.
Defined.

(** The same rule after a declared-color wild: the top card is (wild,
    wild) and red was declared; a red card is legal, a blue 7 is not, and a
    card whose color is the literal top color "wild" is judged like any
    other. *)
Example legality_after_declared_wild :
  playable (Some "red") "wild" ("red", "5") = true
  ∧ playable (Some "red") "wild" ("blue", "7") = false
  ∧ playable (Some "red") "wild" ("wild", "wild4") = true.
Proof. by vm_compute. Qed.

(** ** Validation comes before mutation *)

Lemma names_card_determined args c :
  names_card args c →
  determine_card args =
    Determined c (if decide (c.1 = "wild") then args !! 1%nat else None).
Proof. intros H. by apply determine_card_names. Qed.

Lemma names_card_unique args c c' : names_card args c → names_card args c' → c = c'.
Proof.
  intros H%names_card_determined H'%names_card_determined.
  rewrite H in H'. by injection H'.
Qed.

Lemma names_card_not_color_missing args c :
  names_card args c → ¬ color_missing args.
Proof.
  intros H%names_card_determined H'%determine_card_color_missing.
  by rewrite H in H'.
Qed.

(** Either every check of /uno_play passes, and the play is committed, or
    the handler returns with the world it was given. *)
Lemma uno_play_checks now cid uid args w :
  (∃ game c chosen top_card,
      on_turn w cid uid game
      ∧ determine_card (map Py.lower args) = Determined c chosen
      ∧ c ∈ default [] (hands game !! uid)
      ∧ Py.top (pile game) = Some top_card
      ∧ legal (current_color game) top_card.2 c
      ∧ uno_play now cid uid args w = uno_play_commit now cid uid c chosen game w)
  ∨ (uno_play now cid uid args w).1 = w.
Proof.
  unfold uno_play.
  destruct (GAMES w !! cid) as [game|] eqn:Hg; [|by right].
  destruct (started game) eqn:Hs; [|by right]. simpl.
  destruct (Py.index (players game) (current game)) as [p|] eqn:Hp; [|by right].
  case_decide as Hne; [by right|].
  assert (p = uid) as -> by (by destruct (decide (p = uid))).
  destruct (determine_card (map Py.lower args)) as [| | |c chosen] eqn:Hd;
    [by right..|].
  destruct (Py.contains c (default [] (hands game !! uid))) eqn:Hc; [|by right].
  simpl. destruct (Py.top (pile game)) as [top_card|] eqn:Ht; [|by right].
  destruct (playable (current_color game) top_card.2 c) eqn:Hl; [|by right].
  left. exists game, c, chosen, top_card.
  apply contains_true in Hc. apply playable_legal in Hl. done.
Qed.

Lemma checks_passed_none_violated cid uid args w game c chosen top_card :
  on_turn w cid uid game →
  determine_card (map Py.lower args) = Determined c chosen →
  c ∈ default [] (hands game !! uid) →
  Py.top (pile game) = Some top_card →
  legal (current_color game) top_card.2 c →
  ∀ e, ¬ violated w cid uid args e.
Proof.
  intros (Hg & Hs & Hp) Hd Hc Ht Hl e.
  apply determine_card_names in Hd as [Hn _].
  destruct e; simpl.
  - by rewrite Hg.
  - intros (g & Hg' & Hs'). rewrite Hg in Hg'. injection Hg' as <-.
    by rewrite Hs in Hs'.
  - intros (g & Hg' & Hp'). rewrite Hg in Hg'. by injection Hg' as <-.
  - by apply (names_card_not_color_missing _ c).
  - intros (g & c' & Hg' & Hn' & Hc'). rewrite Hg in Hg'. injection Hg' as <-.
    by rewrite (names_card_unique _ _ _ Hn' Hn) in Hc'.
  - intros (g & c' & top' & Hg' & Hn' & Ht' & Hl').
    rewrite Hg in Hg'. injection Hg' as <-.
    rewrite Ht in Ht'. injection Ht' as <-.
    by rewrite (names_card_unique _ _ _ Hn' Hn) in Hl'.
Qed.

(** If any precondition of play fails, /uno_play returns the world it was
    given.  When the started sessions keep turn validity and the arguments
    are those of a play, the reply is the error message of a precondition
    that does fail. *)
Lemma uno_play_all_or_nothing now cid uid args w :
  (∃ e, violated w cid uid args e) →
  (uno_play now cid uid args w).1 = w
  ∧ ((∀ g, GAMES w !! cid = Some g → started g = true → turn_valid g) →
     (∃ c, names_card (map Py.lower args) c) ∨ color_missing (map Py.lower args) →
     ∃ e, violated w cid uid args e
          ∧ uno_play now cid uid args w = (w, said [error_reply e])).
Proof.
  intros [e He]. split.
  - destruct (uno_play_checks now cid uid args w)
      as [(game & c & chosen & top_card & H1 & H2 & H3 & H4 & H5 & _)|]; [|done].
    by destruct (checks_passed_none_violated _ _ _ _ _ _ _ _ H1 H2 H3 H4 H5 e).
  - intros Hwf Hargs.
    destruct (GAMES w !! cid) as [game|] eqn:Hg.
    2:{ exists NoSuchSession. split; [done|]. unfold uno_play. by rewrite Hg. }
    destruct (started game) eqn:Hs.
    2:{ exists NotStarted. split; [by exists game|].
        unfold uno_play. by rewrite Hg, Hs. }
    destruct (Hwf game eq_refl Hs) as [Hcur Hpile].
    destruct (index_lt (players game) (current game) Hcur) as [p Hp].
    destruct (decide (p = uid)) as [->|Hne].
    2:{ exists NotYourTurn. split.
        - exists game. split; [done|]. rewrite Hp. by intros [= ?].
        - unfold uno_play. rewrite Hg, Hs, Hp. simpl. by rewrite decide_True. }
    assert (Hturn : on_turn w cid uid game) by done.
    rewrite (uno_play_on_turn _ _ _ _ _ _ Hturn).
    destruct Hargs as [[c Hn]|Hm].
    2:{ exists ColorRequired. split; [done|].
        apply determine_card_color_missing in Hm. by rewrite Hm. }
    rewrite (names_card_determined _ _ Hn).
    destruct (Py.contains c (default [] (hands game !! uid))) eqn:Hc.
    2:{ exists CardNotHeld. split; [|done].
        exists game, c. split_and!; [done..|].
        intros Hin%contains_true. by rewrite Hin in Hc. }
    destruct (Py.top (pile game)) as [top_card|] eqn:Ht.
    2:{ by apply top_nil_iff in Ht. }
    destruct (playable (current_color game) top_card.2 c) eqn:Hl.
    2:{ exists IllegalPlay. split; [|done].
        exists game, c, top_card. split_and!; [done..|].
        intros Hl'%playable_legal. by rewrite Hl' in Hl. }
    apply contains_true in Hc. apply playable_legal in Hl.
    by destruct (checks_passed_none_violated _ _ _ _ _ _ _ _ Hturn
                   (names_card_determined _ _ Hn) Hc Ht Hl e).
Qed.

(** ** /uno_start *)

(** C4, as the claim has it, fails: /uno_start in a chat with a started
    two-player game answers "New UNO game started!", not an error, and the
    session of the chat is no longer the one that was running: it has no
    players and is not started. *)
Lemma start_on_live_session_overwrites :
  GAMES begun2 !! 100 = Some (session begun2)
  ∧ started (session begun2) = true
  ∧ (uno_start keep_order 9 100 begun2).2 = said [R_NewGame]
  ∧ (uno_start keep_order 9 100 begun2).2 ≠ said [R_AlreadyInProgress]
  ∧ GAMES (uno_start keep_order 9 100 begun2).1 !! 100 ≠ GAMES begun2 !! 100
  ∧ (players <$> GAMES (uno_start keep_order 9 100 begun2).1 !! 100) = Some [].
Proof. split_and!; by vm_compute. Qed.

(** C4, amended.  /uno_start in a chat that has a live session never
    fails: it answers "New UNO game started!", replaces the session by a
    fresh one (no players, no hands, a shuffled full deck, empty pile, not
    started), leaves the other chats and the stats alone, and writes the
    store to the games file. *)
Theorem start_replaces_live_session rnd now cid w g :
  GAMES w !! cid = Some g →
  (uno_start rnd now cid w).2 = said [R_NewGame]
  ∧ GAMES (uno_start rnd now cid w).1 = <[cid := new_game rnd now]> (GAMES w)
  ∧ players (new_game rnd now) = []
  ∧ hands (new_game rnd now) = ∅
  ∧ pile (new_game rnd now) = []
  ∧ started (new_game rnd now) = false
  ∧ deck (new_game rnd now) ≡ₚ unshuffled_deck
  ∧ durable (uno_start rnd now cid w).1
  ∧ STATS_FILE (uno_start rnd now cid w).1 = STATS_FILE w.
Proof.
  intros _. unfold uno_start, save_games, store, durable. simpl.
  rewrite decide_False by apply insert_non_empty. simpl.
  split_and!; try done. apply create_deck_Permutation.
Qed.

Lemma start_replaces_live_session_witness :
  (uno_start keep_order 9 100 begun2).2 = said [R_NewGame]
  ∧ GAMES (uno_start keep_order 9 100 begun2).1
    = <[100 := new_game keep_order 9]> (GAMES begun2)
  ∧ players (new_game keep_order 9) = []
  ∧ hands (new_game keep_order 9) = ∅
  ∧ pile (new_game keep_order 9) = []
  ∧ started (new_game keep_order 9) = false
  ∧ deck (new_game keep_order 9) ≡ₚ unshuffled_deck
  ∧ durable (uno_start keep_order 9 100 begun2).1
  ∧ STATS_FILE (uno_start keep_order 9 100 begun2).1 = STATS_FILE begun2.
Proof.
  apply (start_replaces_live_session keep_order 9 100 begun2 (session begun2)).
  vm_compute. reflexivity.
Defined.

(** ** Persistence *)

Lemma save_games_persisted w0 w :
  GAMES_FILE w = GAMES_FILE w0 → persisted_after w0 (save_games w).
Proof.
  intros Hf. unfold save_games, persisted_after, durable.
  case_decide; simpl; split; try done.
Qed.

Lemma save_games_GAMES w : GAMES (save_games w) = GAMES w.
Proof. unfold save_games. by case_decide. Qed.

Lemma save_games_nonempty w : GAMES w ≠ ∅ → durable (save_games w).
Proof. intros H. unfold save_games, durable. by rewrite decide_False. Qed.

(** The announcement of /uno_begin and the end of /uno_draw send replies;
    the first leaves the game as it is. *)
Lemma uno_begin_announce_game top g out :
  (uno_begin_announce top g out).1.1 = g.
Proof.
  unfold uno_begin_announce, current_player, bind, get, try_, say, ret, raise.
  destruct (Py.index (players g) (current g)); [|done].
  by destruct (display_rank top.2).
Qed.

(** C6, as the claim has it, fails.  The two-player game of chat 100 is
    the only session and the games file holds it.  /uno_reset deletes it
    from memory; save_games then finds GAMES empty and writes nothing: the
    file still holds the session, and a restarted process loads it back. *)
Lemma reset_of_last_session_is_not_persisted :
  durable begun2
  ∧ (uno_reset 100 begun2).2 = said [R_ResetDone]
  ∧ GAMES (uno_reset 100 begun2).1 = ∅
  ∧ GAMES_FILE (uno_reset 100 begun2).1 = Some (GAMES begun2)
  ∧ ¬ durable (uno_reset 100 begun2).1
  ∧ GAMES (restart 10 (uno_reset 100 begun2).1) !! 100 = Some (session begun2).
Proof. unfold durable. split_and!; by vm_compute. Qed.

(** C6, amended.  A command other than draw that completes without an
    exception either leaves the world as it was or has called save_games
    after its last change: when the store is not empty the games file holds
    exactly the store; when the store is empty (the last session was
    deleted by reset or by a win) nothing is written and the file keeps its
    previous contents. *)
Theorem completed_command_is_persisted c w :
  is_draw c = false →
  raised (run c w).2 = None →
  (run c w).1 = w ∨ persisted_after w (run c w).1.
Proof.
  intros Hc Hok. destruct c as [rnd now cid|now cid uid|rnd now cid|
                                now cid uid args|? ? ? ?|cid|cid];
    simpl in *; [| | | |done| |].
  - right. by apply save_games_persisted.
  - unfold uno_join in *.
    destruct (GAMES w !! cid) as [game|]; [|by left].
    destruct (started game); [by left|].
    destruct (Py.contains uid (players game)); [by left|].
    right. by apply save_games_persisted.
  - unfold uno_begin in *.
    destruct (GAMES w !! cid) as [game|]; [|by left].
    destruct (started game); [by left|].
    case_decide; [by left|].
    destruct (uno_begin_deal rnd now game []) as [[g1 out1] [top|e]]; [|done].
    pose proof (uno_begin_announce_game top g1 out1) as Hg.
    destruct (uno_begin_announce top g1 out1) as [[g2 out2] [[]|e]]; [|done].
    simpl in Hg. subst g2. right. simpl.
    unfold persisted_after, durable, store. simpl.
    rewrite save_games_GAMES. simpl. rewrite insert_insert_eq.
    split; [|by intros ?%insert_non_empty]. intros _.
    pose proof (save_games_nonempty (store cid g1 w)) as Hd.
    unfold durable, store in Hd. simpl in Hd.
    rewrite save_games_GAMES in Hd. apply Hd, insert_non_empty.
  - destruct (uno_play_checks now cid uid args w)
      as [(game & c & chosen & top_card & _ & _ & _ & _ & _ & Heq)|]; [|by left].
    rewrite Heq in *. unfold uno_play_commit in *.
    destruct (play_card now uid c chosen game []) as [[g1 out1] [[]|e]]; [|done].
    right. case_decide.
    + by apply save_games_persisted.
    + destruct (Py.index (players g1) (current g1)); [|done].
      by apply save_games_persisted.
  - unfold uno_reset.
    destruct (GAMES w !! cid); [|by left].
    right. by apply save_games_persisted.
  - unfold uno_status.
    destruct (GAMES w !! cid) as [game|]; [|by left].
    destruct (started game); [|by left].
    destruct (Py.index (players game) (current game)); [|by left].
    destruct (Py.top (pile game)); by left.
Qed.

Lemma completed_command_is_persisted_witness :
  (run (Reset 100) begun2).1 = begun2
  ∨ persisted_after begun2 (run (Reset 100) begun2).1.
Proof.
  apply (completed_command_is_persisted (Reset 100) begun2); reflexivity.
Defined.

(** While a session remains, the deletion does reach the file. *)
Lemma reset_with_other_sessions cid w g :
  GAMES w !! cid = Some g →
  delete cid (GAMES w) ≠ ∅ →
  durable (uno_reset cid w).1 ∧ GAMES (uno_reset cid w).1 !! cid = None.
Proof.
  intros Hg Hne. unfold uno_reset. rewrite Hg. simpl. split.
  - by apply save_games_nonempty.
  - rewrite save_games_GAMES. simpl. apply lookup_delete_eq.
Qed.

(** ** Running the game computations *)

Lemma on_turn_players w cid uid game :
  on_turn w cid uid game → length (players game) ≠ 0%nat.
Proof.
  intros (_ & _ & Hp) Hn. apply nil_length_inv in Hn.
  rewrite Hn in Hp. unfold Py.index in Hp. simpl in Hp.
  repeat case_decide; try done; lia.
Qed.

Lemma advance_turn_run g out :
  length (players g) ≠ 0%nat →
  advance_turn g out =
    (set_current ((current g + direction g) `mod` Z.of_nat (length (players g))) g,
     out, Ok tt).
Proof.
  intros Hn. unfold advance_turn, bind, get, modify, raise.
  by rewrite decide_False.
Qed.

Lemma pop_deck_run g out d c :
  deck g = d ++ [c] → pop_deck g out = (set_deck d g, out, Ok c).
Proof.
  intros Hd. unfold pop_deck, bind, get, try_, modify, ret.
  by rewrite Hd, pop_snoc.
Qed.

Lemma pop_deck_empty g out :
  deck g = [] → pop_deck g out = (g, out, Raise Py.IndexError).
Proof.
  intros Hd. unfold pop_deck, bind, get, try_, modify, ret, raise.
  by rewrite Hd.
Qed.

Lemma extend_hand_run uid cards g out h :
  hands g !! uid = Some h →
  extend_hand uid cards g out =
    (set_hands (<[uid := h ++ cards]> (hands g)) g, out, Ok tt).
Proof.
  intros Hh. unfold extend_hand, bind, get, try_, modify, ret.
  by rewrite Hh.
Qed.

Lemma current_player_run g out p :
  Py.index (players g) (current g) = Some p →
  current_player g out = (g, out, Ok p).
Proof.
  intros Hp. unfold current_player, bind, get, try_, ret. by rewrite Hp.
Qed.

Lemma mod_index_is_Some {A} (l : list A) (i : Z) :
  length l ≠ 0%nat → is_Some (Py.index l (i `mod` Z.of_nat (length l))).
Proof. intros Hn. apply index_lt. apply Z.mod_pos_bound. lia. Qed.

(** ** /uno_draw *)

Lemma uno_draw_take_reshuffle rnd now uid g out rest top_card deck' c h :
  deck g = [] →
  pile g = rest ++ [top_card] →
  Py.shuffle rnd rest = deck' ++ [c] →
  hands g !! uid = Some h →
  uno_draw_take rnd now uid g out =
    ({| players := players g;
        hands := <[uid := h ++ [c]]> (hands g);
        deck := deck';
        pile := [top_card];
        current := current g;
        direction := direction g;
        current_color := current_color g;
        started := started g;
        last_active := now |}, out, Ok c).
Proof.
  intros Hd Hp Hsh Hh.
  unfold uno_draw_take, pop_deck, extend_hand, bind, get, try_, modify, ret.
  rewrite Hd, Hp, pop_snoc. simpl.
  rewrite Hsh, pop_snoc. simpl. by rewrite Hh.
Qed.

Lemma uno_draw_take_pop rnd now uid g out d c h :
  deck g = d ++ [c] →
  hands g !! uid = Some h →
  uno_draw_take rnd now uid g out =
    ({| players := players g;
        hands := <[uid := h ++ [c]]> (hands g);
        deck := d;
        pile := pile g;
        current := current g;
        direction := direction g;
        current_color := current_color g;
        started := started g;
        last_active := now |}, out, Ok c).
Proof.
  intros Hd Hh.
  unfold uno_draw_take, pop_deck, extend_hand, bind, get, try_, modify, ret.
  rewrite Hd. rewrite decide_False by (by destruct d).
  rewrite Hd, pop_snoc. simpl. by rewrite Hh.
Qed.

Lemma uno_draw_pass_run c g out shown nxt :
  display_rank c.2 = Some shown →
  length (players g) ≠ 0%nat →
  Py.index (players g)
    ((current g + direction g) `mod` Z.of_nat (length (players g))) = Some nxt →
  uno_draw_pass c g out =
    (set_current ((current g + direction g) `mod` Z.of_nat (length (players g))) g,
     (out ++ [R_Drew c shown]) ++ [R_NextTurn nxt], Ok tt).
Proof.
  intros Hc Hn Hnxt.
  unfold uno_draw_pass, advance_turn, current_player, bind, get, try_, modify,
    say, ret.
  rewrite Hc. rewrite decide_False by done. simpl. by rewrite Hnxt.
Qed.

(** /uno_draw on an empty deck with at least two pile cards, for a player
    who has a hand and pile cards that can be shown. *)
Lemma uno_draw_reshuffle rnd now cid uid w game hand :
  on_turn w cid uid game →
  deck game = [] →
  (2 <= length (pile game))%nat →
  hands game !! uid = Some hand →
  Forall (λ c, is_Some (display_rank c.2)) (pile game) →
  ∃ rest top_card deck' c shown nxt g',
    pile game = rest ++ [top_card]
    ∧ Py.shuffle rnd rest = deck' ++ [c]
    ∧ deck' ++ [c] ≡ₚ rest
    ∧ (uno_draw rnd now cid uid w).2 = said [R_Drew c shown; R_NextTurn nxt]
    ∧ GAMES (uno_draw rnd now cid uid w).1 !! cid = Some g'
    ∧ pile g' = [top_card]
    ∧ deck g' = deck'
    ∧ hands g' = <[uid := hand ++ [c]]> (hands game)
    ∧ current g' = (current game + direction game) `mod` Z.of_nat (length (players game))
    ∧ Py.index (players g') (current g') = Some nxt
    ∧ players g' = players game
    ∧ direction g' = direction game
    ∧ current_color g' = current_color game
    ∧ started g' = true.
Proof.
  intros Hturn Hdeck Hpile Hhand Hshow.
  pose proof (on_turn_players _ _ _ _ Hturn) as Hn.
  destruct Hturn as (Hg & Hs & Hp).
  destruct (pop_is_Some (pile game)) as (rest & top_card & Hpop & Hpile_eq).
  { intros Hnil. rewrite Hnil in Hpile. simpl in Hpile. lia. }
  destruct (pop_is_Some (Py.shuffle rnd rest)) as (deck' & c & Hpop' & Hsh).
  { intros Hnil. apply (f_equal length) in Hnil.
    rewrite shuffle_length in Hnil. rewrite Hpile_eq, length_app in Hpile.
    simpl in *. lia. }
  assert (Hc : is_Some (display_rank c.2)).
  { rewrite Forall_forall in Hshow. apply Hshow.
    rewrite Hpile_eq. apply elem_of_app. left.
    rewrite <- (shuffle_Permutation rnd rest), Hsh. set_solver. }
  destruct Hc as [shown Hc].
  destruct (mod_index_is_Some (players game) (current game + direction game) Hn)
    as [nxt Hnxt].
  exists rest, top_card, deck', c, shown, nxt.
  unfold uno_draw. rewrite Hg, Hs, Hp. simpl.
  rewrite decide_False by naive_solver.
  rewrite (uno_draw_take_reshuffle _ _ _ _ _ _ _ _ _ _ Hdeck Hpile_eq Hsh Hhand).
  erewrite uno_draw_pass_run; [|done..].
  eexists. split_and!; [done|done| |done|..].
  - by rewrite <- Hsh, shuffle_Permutation.
  - simpl. apply lookup_insert_eq.
  - done.
  - done.
  - done.
  - done.
  - done.
  - done.
  - done.
  - done.
  - done.
Qed.

Example deck_spent_draw :
  deck (session deck_spent) = []
  ∧ pile (session deck_spent) = [("yellow", "9"); ("wild", "wild")]
  ∧ (uno_draw keep_order 6 100 1 deck_spent).2
    = said [R_Drew ("yellow", "9") "9"; R_NextTurn 2]
  ∧ (pile <$> GAMES (uno_draw keep_order 6 100 1 deck_spent).1 !! 100)
    = Some [("wild", "wild")]
  ∧ (deck <$> GAMES (uno_draw keep_order 6 100 1 deck_spent).1 !! 100) = Some []
  ∧ (current <$> GAMES (uno_draw keep_order 6 100 1 deck_spent).1 !! 100) = Some 1.
Proof. split_and!; by vm_compute. Qed.


(** ** /uno_play: placing the card and its effect *)

Lemma place_card_run now uid c chosen g out hand hand' color shown :
  hands g !! uid = Some hand →
  Py.remove c hand = Some hand' →
  played_color c chosen = Some color →
  display_rank c.2 = Some shown →
  place_card now uid c chosen g out =
    ({| players := players g;
        hands := <[uid := hand']> (hands g);
        deck := deck g;
        pile := pile g ++ [c];
        current := current g;
        direction := direction g;
        current_color := Some color;
        started := started g;
        last_active := now |},
     out ++ [R_Played uid c shown (Some color)], Ok tt).
Proof.
  intros Hh Hr Hc Hs.
  unfold place_card, bind, get, try_, modify, say, ret.
  rewrite Hh. simpl. rewrite Hr, Hc. simpl. by rewrite Hs.
Qed.

(** A card named without a declared color is not wild. *)
Lemma determined_colored args c :
  determine_card args = Determined c None → c.1 ≠ "wild" ∧ played_color c None = Some c.1.
Proof.
  unfold determine_card, played_color.
  destruct args as [|a0 [|a1 rest]]; try done.
  - by case_bool_decide.
  - case_bool_decide as H0; [by case_bool_decide|].
    intros [= <-]. simpl.
    assert (a0 ≠ "wild") by set_solver.
    by rewrite decide_False.
Qed.

Lemma determined_rank_not_wild args c chosen :
  determine_card args = Determined c chosen →
  c.2 ∉ ["wild"; "wild4"] → chosen = None.
Proof.
  unfold determine_card.
  destruct args as [|a0 [|a1 rest]]; try done.
  - by case_bool_decide.
  - case_bool_decide as H0; [case_bool_decide; [|done]|].
    + by intros [= <- <-].
    + by intros [= <- <-].
Qed.

Lemma advance_twice_of_two (c d : Z) :
  0 <= c < 2 → ((c + d) `mod` 2 + d) `mod` 2 = c.
Proof.
  intros Hc. rewrite Zplus_mod_idemp_l.
  replace (c + d + d) with (c + d * 2) by lia.
  rewrite Z_mod_plus_full. by apply Z.mod_small.
Qed.

(** The reverse branch of the effects. *)
Lemma special_effect_reverse c g out :
  c.2 = "reverse" →
  length (players g) ≠ 0%nat →
  special_effect c g out =
    (set_current
       (if decide (length (players g) = 2%nat)
        then ((current g + direction g * -1) `mod` 2 + direction g * -1) `mod` 2
        else (current g + direction g * -1) `mod` Z.of_nat (length (players g)))
       (set_direction (direction g * -1) g),
     out, Ok tt).
Proof.
  intros Hr Hn. unfold special_effect. rewrite Hr. simpl.
  unfold bind, get, modify, ret. simpl.
  case_decide as H2.
  - rewrite advance_turn_run by done. simpl.
    rewrite advance_turn_run by done. simpl. by rewrite H2.
  - by rewrite advance_turn_run by done.
Qed.

(** Once the checks have passed, /uno_play is its commit part. *)
Lemma uno_play_accepts now cid uid args w game c chosen top_card :
  on_turn w cid uid game →
  determine_card (map Py.lower args) = Determined c chosen →
  c ∈ default [] (hands game !! uid) →
  Py.top (pile game) = Some top_card →
  legal (current_color game) top_card.2 c →
  uno_play now cid uid args w = uno_play_commit now cid uid c chosen game w.
Proof.
  intros Hturn Hargs Hheld Htop Hlegal.
  rewrite (uno_play_on_turn _ _ _ _ _ _ Hturn), Hargs.
  apply contains_true in Hheld. apply playable_legal in Hlegal.
  by rewrite Hheld, Htop, Hlegal.
Qed.

(** A legal reverse played from the hand, in a game whose current index
    is valid. *)
Lemma uno_play_reverse now cid uid args w game c chosen hand top_card :
  on_turn w cid uid game →
  0 <= current game < Z.of_nat (length (players game)) →
  determine_card (map Py.lower args) = Determined c chosen →
  c.2 = "reverse" →
  hands game !! uid = Some hand →
  c ∈ hand →
  Py.top (pile game) = Some top_card →
  legal (current_color game) top_card.2 c →
  ∃ g1 out1,
    play_card now uid c chosen game [] = (g1, out1, Ok tt)
    ∧ direction g1 = - direction game
    ∧ players g1 = players game
    ∧ (length (players game) = 2%nat → current g1 = current game)
    ∧ ((3 <= length (players game))%nat →
       current g1 = (current game + direction g1) `mod` Z.of_nat (length (players game)))
    ∧ (hands g1 !! uid ≠ Some [] →
       raised (uno_play now cid uid args w).2 = None
       ∧ GAMES (uno_play now cid uid args w).1 !! cid = Some g1)
    ∧ (hands g1 !! uid = Some [] →
       GAMES (uno_play now cid uid args w).1 !! cid = None).
Proof.
  intros Hturn Hcur Hargs Hrank Hhand Hheld Htop Hlegal.
  pose proof (on_turn_players _ _ _ _ Hturn) as Hn.
  rewrite (uno_play_accepts now cid uid args w game c chosen top_card)
    by (by rewrite ?Hhand).
  assert (chosen = None) as ->.
  { apply (determined_rank_not_wild _ _ _ Hargs). rewrite Hrank.
    by apply (bool_decide_unpack _). }
  destruct (determined_colored _ _ Hargs) as [_ Hcolor].
  destruct (remove_Some c hand Hheld) as (hand' & Hrem & _).
  assert (Hshown : display_rank c.2 = Some "reverse") by (by rewrite Hrank).
  unfold uno_play_commit, play_card, bind.
  rewrite (place_card_run _ _ _ _ _ _ _ _ _ _ Hhand Hrem Hcolor Hshown).
  rewrite special_effect_reverse by done. simpl.
  eexists _, _. split; [done|]. simpl.
  split; [lia|]. split; [done|].
  split; [|split; [|split]].
  - intros H2. rewrite decide_True by done.
    apply advance_twice_of_two. lia.
  - intros H3. by rewrite decide_False by lia.
  - rewrite lookup_insert_eq. intros Hne.
    rewrite decide_False by (simpl; congruence).
    set (i := if decide (length (players game) = 2%nat) then _ else _).
    assert (Hi : is_Some (Py.index (players game) i)).
    { apply index_lt. subst i. case_decide as H2.
      - rewrite H2. apply Z.mod_pos_bound. lia.
      - apply Z.mod_pos_bound. lia. }
    destruct Hi as [nxt ->]. simpl. split; [done|].
    rewrite save_games_GAMES. simpl. apply lookup_insert_eq.
  - rewrite lookup_insert_eq. intros [= ->].
    rewrite decide_True by done. simpl.
    rewrite save_games_GAMES. simpl. apply lookup_delete_eq.
Qed.

Example reverse_with_two_players :
  (current <$> GAMES (draws 1 begun2) !! 100) = Some 1
  ∧ (direction <$> GAMES (draws 1 begun2) !! 100) = Some 1
  ∧ (uno_play 5 100 2 ["yellow"; "reverse"] (draws 1 begun2)).2
    = said [R_Played 2 ("yellow", "reverse") "reverse" (Some "yellow"); R_NextTurn 2]
  ∧ (current <$> GAMES (uno_play 5 100 2 ["yellow"; "reverse"] (draws 1 begun2)).1 !! 100)
    = Some 1
  ∧ (direction <$> GAMES (uno_play 5 100 2 ["yellow"; "reverse"] (draws 1 begun2)).1 !! 100)
    = Some (-1).
Proof. split_and!; by vm_compute. Qed.

(** ** The victim's draw of draw2 and wild4 *)

Lemma pop_deck_n_enough n g out d cs :
  deck g = d ++ cs →
  length cs = n →
  pop_deck_n n g out = (set_deck d g, out, Ok (reverse cs)).
Proof.
  revert g cs. induction n as [|n IH]; intros g cs Hd Hn.
  - apply nil_length_inv in Hn. subst cs. rewrite app_nil_r in Hd.
    simpl. unfold ret. rewrite <- Hd. by destruct g.
  - destruct cs as [|x cs _] using rev_ind; [done|].
    rewrite length_app in Hn. simpl in Hn.
    simpl. unfold bind.
    rewrite (pop_deck_run g out (d ++ cs) x) by (by rewrite Hd, app_assoc).
    rewrite (IH (set_deck (d ++ cs) g) cs) by (done || lia).
    unfold ret. simpl. by rewrite reverse_snoc.
Qed.

Lemma pop_deck_n_short n g out :
  (length (deck g) < n)%nat →
  pop_deck_n n g out = (set_deck [] g, out, Raise Py.IndexError).
Proof.
  revert g. induction n as [|n IH]; intros g Hn; [lia|].
  simpl. unfold bind.
  destruct (deck g) as [|x d _] eqn:Hd using rev_ind.
  - rewrite pop_deck_empty by done. rewrite <- Hd. by destruct g.
  - rewrite (pop_deck_run g out d x) by done.
    rewrite length_app in Hn. simpl in Hn.
    rewrite IH by (simpl; lia). by destruct g.
Qed.

Lemma determined_played_color args c chosen :
  determine_card args = Determined c chosen → is_Some (played_color c chosen).
Proof.
  unfold determine_card, played_color.
  destruct args as [|a0 [|a1 rest]]; try done.
  - by case_bool_decide.
  - case_bool_decide as H0; [case_bool_decide; [|done]|].
    + intros [= <- <-]. simpl. by eexists.
    + intros [= <- <-]. simpl. case_decide; [|by eexists].
      exfalso. apply H0. subst. set_solver.
Qed.

(** With enough cards in the deck the victim takes them, last card of
    the deck first, and is skipped. *)
Lemma victim_draws_run n g out d cs victim hv :
  length (players g) ≠ 0%nat →
  deck g = d ++ cs →
  length cs = n →
  Py.index (players g)
    ((current g + direction g) `mod` Z.of_nat (length (players g))) = Some victim →
  hands g !! victim = Some hv →
  victim_draws n g out =
    ({| players := players g;
        hands := <[victim := hv ++ reverse cs]> (hands g);
        deck := d;
        pile := pile g;
        current := ((current g + direction g) `mod` Z.of_nat (length (players g))
                    + direction g) `mod` Z.of_nat (length (players g));
        direction := direction g;
        current_color := current_color g;
        started := started g;
        last_active := last_active g |},
     out ++ [R_DrawsAndSkips n victim], Ok tt).
Proof.
  intros Hn Hd Hcs Hv Hh. unfold victim_draws, bind.
  rewrite advance_turn_run by done.
  erewrite current_player_run by (simpl; done).
  erewrite pop_deck_n_enough by (simpl; done).
  erewrite extend_hand_run by (simpl; done).
  unfold say. by rewrite advance_turn_run by done.
Qed.

(** With fewer cards than asked the comprehension raises IndexError: the
    deck is left empty, the cards popped before the failure are in nobody's
    hand, and the turn stays on the victim. *)
Lemma victim_draws_short n g out victim :
  length (players g) ≠ 0%nat →
  (length (deck g) < n)%nat →
  Py.index (players g)
    ((current g + direction g) `mod` Z.of_nat (length (players g))) = Some victim →
  victim_draws n g out =
    ({| players := players g;
        hands := hands g;
        deck := [];
        pile := pile g;
        current := (current g + direction g) `mod` Z.of_nat (length (players g));
        direction := direction g;
        current_color := current_color g;
        started := started g;
        last_active := last_active g |},
     out, Raise Py.IndexError).
Proof.
  intros Hn Hd Hv. unfold victim_draws, bind.
  rewrite advance_turn_run by done.
  erewrite current_player_run by (simpl; done).
  by rewrite pop_deck_n_short by (simpl; done).
Qed.

Lemma special_effect_victim c g out n :
  (c.2 = "draw2" ∧ n = 2%nat) ∨ (c.2 = "wild4" ∧ n = 4%nat) →
  special_effect c g out = victim_draws n g out.
Proof.
  unfold special_effect. by intros [[-> ->]|[-> ->]].
Qed.

(** With enough cards in the deck: the victim, the next player in the
    current direction, takes [n] cards from the end of the deck and the
    turn moves one step past the victim. *)
Lemma victim_draw_with_enough_cards now uid c chosen game n hand d cs victim hv :
  length (players game) ≠ 0%nat →
  (c.2 = "draw2" ∧ n = 2%nat) ∨ (c.2 = "wild4" ∧ n = 4%nat) →
  is_Some (played_color c chosen) →
  hands game !! uid = Some hand →
  c ∈ hand →
  deck game = d ++ cs →
  length cs = n →
  Py.index (players game)
    ((current game + direction game) `mod` Z.of_nat (length (players game)))
    = Some victim →
  victim ≠ uid →
  hands game !! victim = Some hv →
  ∃ g1 out1,
    play_card now uid c chosen game [] = (g1, out1, Ok tt)
    ∧ hands g1 !! victim = Some (hv ++ reverse cs)
    ∧ deck g1 = d
    ∧ pile g1 = pile game ++ [c]
    ∧ current g1 =
        ((current game + direction game) `mod` Z.of_nat (length (players game))
         + direction game) `mod` Z.of_nat (length (players game)).
Proof.
  intros Hn Hk [color Hcolor] Hhand Hheld Hd Hcs Hv Hne Hhv.
  destruct (remove_Some c hand Hheld) as (hand' & Hrem & _).
  assert (Hshown : is_Some (display_rank c.2)).
  { destruct Hk as [[-> _]|[-> _]]; by eexists. }
  destruct Hshown as [shown Hshown].
  unfold play_card, bind.
  rewrite (place_card_run _ _ _ _ _ _ _ _ _ _ Hhand Hrem Hcolor Hshown).
  rewrite (special_effect_victim _ _ _ n Hk).
  erewrite victim_draws_run; [|simpl; try done..].
  2:{ simpl. by rewrite lookup_insert_ne. }
  eexists _, _. split; [done|]. simpl.
  by rewrite lookup_insert_eq.
Qed.

(** C5: the defect.  The player to act plays a draw2 (resp. wild4) they
    hold and that is legal, and the deck holds fewer than 2 (resp. 4) cards.
    Whatever the pile holds, nothing is reshuffled: the card leaves the
    hand and goes on the pile, the turn moves to the victim, the cards left
    in the deck are popped and dropped, IndexError is raised, the victim's
    hand is as before and the turn stays on the victim; nothing is
    saved. *)
Theorem victim_draw_raises_on_short_deck
    now cid uid args w game c chosen hand top_card n :
  on_turn w cid uid game →
  determine_card (map Py.lower args) = Determined c chosen →
  (c.2 = "draw2" ∧ n = 2%nat) ∨ (c.2 = "wild4" ∧ n = 4%nat) →
  hands game !! uid = Some hand →
  c ∈ hand →
  Py.top (pile game) = Some top_card →
  legal (current_color game) top_card.2 c →
  (length (deck game) < n)%nat →
  ∃ hand' shown color,
    Py.remove c hand = Some hand'
    ∧ uno_play now cid uid args w =
        (store cid
           {| players := players game;
              hands := <[uid := hand']> (hands game);
              deck := [];
              pile := pile game ++ [c];
              current := (current game + direction game)
                           `mod` Z.of_nat (length (players game));
              direction := direction game;
              current_color := Some color;
              started := started game;
              last_active := now |} w,
         threw Py.IndexError [R_Played uid c shown (Some color)]).
Proof.
  intros Hturn Hargs Hk Hhand Hheld Htop Hlegal Hshort.
  pose proof (on_turn_players _ _ _ _ Hturn) as Hn.
  rewrite (uno_play_accepts now cid uid args w game c chosen top_card)
    by (by rewrite ?Hhand).
  destruct (determined_played_color _ _ _ Hargs) as [color Hcolor].
  destruct (remove_Some c hand Hheld) as (hand' & Hrem & _).
  assert (Hshown : is_Some (display_rank c.2)).
  { destruct Hk as [[-> _]|[-> _]]; by eexists. }
  destruct Hshown as [shown Hshown].
  destruct (mod_index_is_Some (players game) (current game + direction game) Hn)
    as [victim Hv].
  exists hand', shown, color. split; [done|].
  unfold uno_play_commit, play_card, bind.
  rewrite (place_card_run _ _ _ _ _ _ _ _ _ _ Hhand Hrem Hcolor Hshown).
  rewrite (special_effect_victim _ _ _ n Hk).
  by erewrite victim_draws_short by (simpl; done).
Qed.

Lemma victim_draw_raises_on_short_deck_witness :
  ∃ hand' shown color,
    Py.remove ("yellow", "draw2") (default [] (hands (session short_deck) !! 2))
      = Some hand'
    ∧ uno_play 6 100 2 ["yellow"; "draw2"] short_deck =
        (store 100
           {| players := players (session short_deck);
              hands := <[2 := hand']> (hands (session short_deck));
              deck := [];
              pile := pile (session short_deck) ++ [("yellow", "draw2")];
              current := (current (session short_deck) + direction (session short_deck))
                           `mod` Z.of_nat (length (players (session short_deck)));
              direction := direction (session short_deck);
              current_color := Some color;
              started := started (session short_deck);
              last_active := 6 |} short_deck,
         threw Py.IndexError [R_Played 2 ("yellow", "draw2") shown (Some color)]).
Proof.
  apply (victim_draw_raises_on_short_deck 6 100 2 ["yellow"; "draw2"] short_deck
           (session short_deck) ("yellow", "draw2") None
           (default [] (hands (session short_deck) !! 2))
           ("yellow", "reverse") 2%nat).
  - split; [|split]; vm_compute; reflexivity.
  - vm_compute; reflexivity.
  - left. split; reflexivity.
  - vm_compute; reflexivity.
  - apply (bool_decide_unpack _). vm_compute. exact I.
  - vm_compute; reflexivity.
  - right. left. vm_compute; reflexivity.
  - vm_compute. lia.
Defined.

(** The same play on the sample state, evaluated.  The deck holds one card
    and the pile six, so deck and pile together hold more than the two
    cards asked for.  Player 1, the victim, holds 52 cards before and
    after; the card that was in the deck is in no hand, deck or pile. *)
Example draw_by2on_short_deck :
  (length <$> (deck <$> GAMES short_deck !! 100)) = Some 1%nat
  ∧ (length <$> (pile <$> GAMES short_deck !! 100)) = Some 6%nat
  ∧ (card_count <$> GAMES short_deck !! 100) = Some 108%nat
  ∧ (length <$> hands (session short_deck) !! 1) = Some 52%nat
  ∧ (uno_play 6 100 2 ["yellow"; "draw2"] short_deck).2
    = threw Py.IndexError [R_Played 2 ("yellow", "draw2") "+2" (Some "yellow")]
  ∧ (length <$> hands (session (uno_play 6 100 2 ["yellow"; "draw2"] short_deck).1) !! 1)
    = Some 52%nat
  ∧ (current <$> GAMES (uno_play 6 100 2 ["yellow"; "draw2"] short_deck).1 !! 100)
    = Some 0
  ∧ (card_count <$> GAMES (uno_play 6 100 2 ["yellow"; "draw2"] short_deck).1 !! 100)
    = Some 107%nat.
Proof. split_and!; by vm_compute. Qed.

(** ** The win path *)

Lemma record_win_count cid uid stats :
  record_win cid uid stats !! cid ≫= (.!! uid)
  = Some (default 0 (stats !! cid ≫= (.!! uid)) + 1).
Proof.
  unfold record_win. rewrite lookup_insert_eq. simpl. rewrite lookup_insert_eq.
  by destruct (stats !! cid).
Qed.

Lemma record_win_other cid uid stats cid' uid' :
  (cid', uid') ≠ (cid, uid) →
  record_win cid uid stats !! cid' ≫= (.!! uid') = stats !! cid' ≫= (.!! uid').
Proof.
  intros Hne. unfold record_win.
  destruct (decide (cid' = cid)) as [->|Hc].
  - rewrite lookup_insert_eq. simpl.
    rewrite lookup_insert_ne by congruence.
    by destruct (stats !! cid).
  - by rewrite lookup_insert_ne.
Qed.

(** The win path, whenever control reaches it: the play passes the checks,
    placing the card and resolving its effect complete, and the acting
    player's hand is then empty.  The win count of the player in the chat
    grows by one (from 0 when there was no entry), no other count changes,
    the session is deleted, the last reply is the victory message (no
    "next turn" follows), and /uno_status then finds no game. *)
Lemma win_when_effect_completes now cid uid args w game c chosen top_card g1 out1 :
  on_turn w cid uid game →
  determine_card (map Py.lower args) = Determined c chosen →
  c ∈ default [] (hands game !! uid) →
  Py.top (pile game) = Some top_card →
  legal (current_color game) top_card.2 c →
  play_card now uid c chosen game [] = (g1, out1, Ok tt) →
  hands g1 !! uid = Some [] →
  (uno_play now cid uid args w).2 = said (out1 ++ [R_Won uid])
  ∧ GAMES (uno_play now cid uid args w).1 = delete cid (GAMES w)
  ∧ STATS_FILE (uno_play now cid uid args w).1 !! cid ≫= (.!! uid)
    = Some (default 0 (STATS_FILE w !! cid ≫= (.!! uid)) + 1)
  ∧ (∀ cid' uid', (cid', uid') ≠ (cid, uid) →
       STATS_FILE (uno_play now cid uid args w).1 !! cid' ≫= (.!! uid')
       = STATS_FILE w !! cid' ≫= (.!! uid'))
  ∧ uno_status cid (uno_play now cid uid args w).1
    = ((uno_play now cid uid args w).1, said [R_NoActiveGame]).
Proof.
  intros Hturn Hargs Hheld Htop Hlegal Hplay Hempty.
  rewrite (uno_play_accepts now cid uid args w game c chosen top_card) by done.
  unfold uno_play_commit. rewrite Hplay, Hempty. simpl.
  split; [done|].
  assert (HG : GAMES (save_games
                 (set_GAMES (delete cid (<[cid:=g1]> (GAMES w)))
                    (set_STATS_FILE (record_win cid uid (STATS_FILE w))
                       (store cid g1 w)))) = delete cid (GAMES w)).
  { rewrite save_games_GAMES. simpl. apply delete_insert_eq. }
  split; [done|].
  assert (HS : ∀ w', STATS_FILE (save_games w') = STATS_FILE w').
  { intros w'. unfold save_games. by case_decide. }
  rewrite HS. simpl.
  split; [apply record_win_count|].
  split; [intros; by apply record_win_other|].
  unfold uno_status. rewrite HG. by rewrite lookup_delete_eq.
Qed.

(** A card other than draw2 and wild4 that is the player's last card:
    its effect cannot fail, so the play wins. *)
Lemma last_plain_card_wins now cid uid args w game c chosen top_card :
  on_turn w cid uid game →
  determine_card (map Py.lower args) = Determined c chosen →
  hands game !! uid = Some [c] →
  Py.top (pile game) = Some top_card →
  legal (current_color game) top_card.2 c →
  is_Some (display_rank c.2) →
  c.2 ∉ ["draw2"; "wild4"] →
  GAMES (uno_play now cid uid args w).1 !! cid = None
  ∧ STATS_FILE (uno_play now cid uid args w).1 !! cid ≫= (.!! uid)
    = Some (default 0 (STATS_FILE w !! cid ≫= (.!! uid)) + 1)
  ∧ raised (uno_play now cid uid args w).2 = None
  ∧ last (replies (uno_play now cid uid args w).2) = Some (R_Won uid)
  ∧ uno_status cid (uno_play now cid uid args w).1
    = ((uno_play now cid uid args w).1, said [R_NoActiveGame]).
Proof.
  intros Hturn Hargs Hhand Htop Hlegal [shown Hshown] Hplain.
  pose proof (on_turn_players _ _ _ _ Hturn) as Hn.
  destruct (determined_played_color _ _ _ Hargs) as [color Hcolor].
  assert (Hrem : Py.remove c [c] = Some []).
  { simpl. by rewrite decide_True. }
  assert (∃ g1, play_card now uid c chosen game []
                = (g1, [R_Played uid c shown (Some color)], Ok tt)
                ∧ hands g1 !! uid = Some []) as (g1 & Hplay & Hempty).
  { unfold play_card, bind.
    rewrite (place_card_run _ _ _ _ _ _ _ _ _ _ Hhand Hrem Hcolor Hshown).
    unfold special_effect.
    assert (c.2 ≠ "draw2" ∧ c.2 ≠ "wild4") as [H2 H4] by set_solver.
    destruct (decide (c.2 = "skip")).
    { unfold bind. rewrite advance_turn_run by done.
      rewrite advance_turn_run by done.
      eexists. split; [done|]. simpl. apply lookup_insert_eq. }
    destruct (decide (c.2 = "reverse")).
    { unfold bind, modify, get, ret. simpl. case_decide.
      - rewrite advance_turn_run by done. rewrite advance_turn_run by done.
        eexists. split; [done|]. simpl. apply lookup_insert_eq.
      - rewrite advance_turn_run by done.
        eexists. split; [done|]. simpl. apply lookup_insert_eq. }
    rewrite decide_False by done. rewrite decide_False by done.
    rewrite advance_turn_run by done.
    eexists. split; [done|]. simpl. apply lookup_insert_eq. }
  destruct (win_when_effect_completes now cid uid args w game c chosen top_card
              g1 [R_Played uid c shown (Some color)] Hturn Hargs)
    as (H1 & H2 & H3 & _ & H5);
    [rewrite Hhand; apply list_elem_of_singleton; done|done..|].
  rewrite H2, H1.
  split_and!;
    first [done | apply lookup_delete_eq | simpl; by rewrite last_snoc].
Qed.


(** ** Card conservation *)

Lemma hand_cards_insert (h : gmap Z (list card)) uid old new :
  h !! uid = Some old →
  (hand_cards (<[uid := new]> h) + length old = hand_cards h + length new)%nat.
Proof.
  intros Hold. unfold hand_cards.
  rewrite (map_fold_delete_L _ _ uid old h); [|intros; lia|done].
  rewrite <- (insert_delete_eq h).
  rewrite map_fold_insert_L; [lia|intros; lia|apply lookup_delete_eq].
Qed.

Lemma advance_turn_count g out g1 out1 r :
  advance_turn g out = (g1, out1, r) → card_count g1 = card_count g.
Proof.
  unfold advance_turn, bind, get, modify, raise.
  case_decide; by intros [= <- _ _].
Qed.

Lemma pop_deck_n_Ok n g out g1 out1 cs :
  pop_deck_n n g out = (g1, out1, Ok cs) →
  g1 = set_deck (deck g1) g ∧ deck g = deck g1 ++ reverse cs ∧ length cs = n.
Proof.
  intros Hpop. destruct (decide (length (deck g) < n)%nat) as [Hlt|Hge].
  - by rewrite pop_deck_n_short in Hpop.
  - rewrite (pop_deck_n_enough n g out (take (length (deck g) - n) (deck g))
               (drop (length (deck g) - n) (deck g))) in Hpop.
    + injection Hpop as <- _ <-. simpl.
      rewrite reverse_involutive, take_drop, length_reverse, length_drop.
      split_and!; [done|done|lia].
    + by rewrite take_drop.
    + rewrite length_drop. lia.
Qed.

Lemma victim_draws_count n g out g1 out1 :
  victim_draws n g out = (g1, out1, Ok tt) → card_count g1 = card_count g.
Proof.
  unfold victim_draws, bind at 1.
  destruct (decide (length (players g) = 0%nat)) as [H0|Hn].
  { unfold advance_turn, bind, get, raise. by rewrite decide_True. }
  rewrite advance_turn_run by done.
  unfold bind at 1, current_player, bind at 1, get, try_.
  set (g0 := set_current _ g).
  destruct (Py.index (players g0) (current g0)) as [victim|]; [|done].
  unfold ret, bind at 1.
  destruct (pop_deck_n n g0 out) as [[g2 out2] [cs|e]] eqn:Hpop; [|done].
  apply pop_deck_n_Ok in Hpop as (Hg2 & Hdeck & Hlen).
  unfold bind at 1.
  destruct (hands g2 !! victim) as [hv|] eqn:Hhv.
  2:{ unfold extend_hand, bind, get, try_, raise. by rewrite Hhv. }
  rewrite (extend_hand_run _ _ _ _ _ Hhv).
  unfold bind, say. intros Hadv.
  destruct (advance_turn _ _) as [[g3 out3] r] eqn:Hadv' in Hadv.
  apply advance_turn_count in Hadv'.
  destruct r; [|done]. injection Hadv as <- _. rewrite Hadv'.
  unfold card_count. simpl.
  pose proof (hand_cards_insert (hands g2) victim hv (hv ++ cs) Hhv) as Hc.
  rewrite length_app in Hc.
  assert (Hd : length (deck g) = (length (deck g2) + length cs)%nat).
  { change (deck g) with (deck g0).
    by rewrite Hdeck, length_app, length_reverse. }
  rewrite Hg2 in Hc |- *. simpl in *. lia.
Qed.

Lemma special_effect_count c g out g1 out1 :
  special_effect c g out = (g1, out1, Ok tt) → card_count g1 = card_count g.
Proof.
  unfold special_effect.
  destruct (decide (c.2 = "skip")) as [_|_].
  { unfold bind.
    destruct (advance_turn g out) as [[g2 out2] [[]|]] eqn:Ha; [|done].
    intros Hb. apply advance_turn_count in Ha, Hb. congruence. }
  destruct (decide (c.2 = "reverse")) as [_|_].
  { unfold bind, modify, get, ret. simpl.
    destruct (decide (length (players g) = 2%nat)) as [_|_].
    - destruct (advance_turn _ out) as [[g2 out2] [[]|]] eqn:Ha; [|done].
      intros Hb. apply advance_turn_count in Ha, Hb.
      rewrite Hb, Ha. by destruct g.
    - intros Hb. apply advance_turn_count in Hb. rewrite Hb. by destruct g. }
  destruct (decide (c.2 = "draw2")) as [_|_]; [apply victim_draws_count|].
  destruct (decide (c.2 = "wild4")) as [_|_]; [apply victim_draws_count|].
  apply advance_turn_count.
Qed.

(** Placing a held card and resolving its effect, when both complete,
    move cards between hand, pile and deck and nothing else. *)
Lemma play_card_count now uid c chosen g g1 out1 :
  c ∈ default [] (hands g !! uid) →
  play_card now uid c chosen g [] = (g1, out1, Ok tt) →
  card_count g1 = card_count g.
Proof.
  intros Hheld.
  destruct (hands g !! uid) as [hand|] eqn:Hhand; [|by apply elem_of_nil in Hheld].
  simpl in Hheld.
  destruct (remove_Some c hand Hheld) as (hand' & Hrem & _).
  pose proof (remove_length _ _ _ Hrem) as Hlen.
  unfold play_card, bind at 1.
  destruct (played_color c chosen) as [color|] eqn:Hcolor.
  2:{ unfold place_card, bind, get, try_, modify, raise, ret.
      rewrite Hhand. simpl. by rewrite Hrem, Hcolor. }
  destruct (display_rank c.2) as [shown|] eqn:Hshown.
  2:{ unfold place_card, bind, get, try_, modify, raise, ret.
      rewrite Hhand. simpl. rewrite Hrem, Hcolor. simpl. by rewrite Hshown. }
  rewrite (place_card_run _ _ _ _ _ _ _ _ _ _ Hhand Hrem Hcolor Hshown).
  intros Heff%special_effect_count. rewrite Heff.
  unfold card_count. simpl. rewrite length_app. simpl.
  pose proof (hand_cards_insert (hands g) uid hand hand' Hhand). lia.
Qed.

Lemma uno_draw_take_count rnd now uid g out g1 out1 c :
  uno_draw_take rnd now uid g out = (g1, out1, Ok c) →
  card_count g1 = card_count g.
Proof.
  destruct (hands g !! uid) as [h|] eqn:Hh.
  2:{ unfold uno_draw_take, pop_deck, extend_hand, bind, get, try_, modify,
        raise, ret.
      case_decide.
      - destruct (Py.pop (pile g)) as [[rest t]|]; [|done]. simpl.
        destruct (Py.pop (Py.shuffle rnd rest)) as [[d x]|]; [|done]. simpl.
        by rewrite Hh.
      - destruct (Py.pop (deck g)) as [[d x]|]; [|done]. simpl. by rewrite Hh. }
  destruct (decide (deck g = [])) as [Hd|Hd].
  - destruct (pile g) as [|t rest _] eqn:Hp using rev_ind.
    { unfold uno_draw_take, bind, get, try_, raise.
      by rewrite decide_True, Hp by done. }
    destruct (Py.shuffle rnd rest) as [|x d _] eqn:Hs using rev_ind.
    { unfold uno_draw_take, pop_deck, bind, get, try_, modify, raise, ret.
      rewrite decide_True, Hp, pop_snoc by done. simpl. by rewrite Hs. }
    rewrite (uno_draw_take_reshuffle _ _ _ _ _ _ _ _ _ _ Hd Hp Hs Hh).
    intros [= <- _ _]. unfold card_count. simpl.
    pose proof (hand_cards_insert (hands g) uid h (h ++ [x]) Hh) as Hc.
    pose proof (shuffle_length rnd rest) as Hl.
    rewrite Hs in Hl. rewrite Hd, Hp. rewrite !length_app in *. simpl in *. lia.
  - destruct (deck g) as [|x d _] eqn:Hd' using rev_ind; [done|].
    rewrite (uno_draw_take_pop _ _ _ _ _ _ _ _ Hd' Hh).
    intros [= <- _ _]. unfold card_count. simpl.
    pose proof (hand_cards_insert (hands g) uid h (h ++ [x]) Hh) as Hc.
    rewrite Hd', !length_app in *. simpl in *. lia.
Qed.

Lemma uno_draw_pass_count c g out g1 out1 r :
  uno_draw_pass c g out = (g1, out1, r) → card_count g1 = card_count g.
Proof.
  unfold uno_draw_pass, bind at 1, try_.
  destruct (display_rank c.2); [|by intros [= <- _ _]].
  unfold ret, bind at 1, say, bind at 1.
  destruct (advance_turn _ _) as [[g2 out2] [[]|]] eqn:Hadv;
    apply advance_turn_count in Hadv; [|by intros [= <- _ _]].
  unfold bind, current_player, bind, get, try_, say, ret, raise.
  destruct (Py.index (players g2) (current g2)); by intros [= <- _ _].
Qed.

Lemma uno_draw_conserves rnd now cid uid w cid' g' :
  raised (uno_draw rnd now cid uid w).2 = None →
  GAMES (uno_draw rnd now cid uid w).1 !! cid' = Some g' →
  ∃ g, GAMES w !! cid' = Some g ∧ card_count g' = card_count g.
Proof.
  unfold uno_draw.
  destruct (GAMES w !! cid) as [game|] eqn:Hg; [|by eauto].
  destruct (started game); [|by eauto]. simpl.
  destruct (Py.index (players game) (current game)) as [p|]; [|by eauto].
  case_decide; [by eauto|].
  destruct (uno_draw_take rnd now uid game []) as [[g1 out1] [c|e]] eqn:Htake;
    [|done].
  apply uno_draw_take_count in Htake.
  destruct (uno_draw_pass c g1 out1) as [[g2 out2] [[]|e]] eqn:Hpass; [|done].
  apply uno_draw_pass_count in Hpass.
  intros _. unfold store. simpl. rewrite save_games_GAMES. simpl.
  destruct (decide (cid' = cid)) as [->|Hne].
  - rewrite lookup_insert_eq. intros [= <-]. exists game. split; [done|congruence].
  - rewrite !lookup_insert_ne by done. eauto.
Qed.

Lemma uno_play_conserves now cid uid args w cid' g' :
  raised (uno_play now cid uid args w).2 = None →
  GAMES (uno_play now cid uid args w).1 !! cid' = Some g' →
  ∃ g, GAMES w !! cid' = Some g ∧ card_count g' = card_count g.
Proof.
  destruct (uno_play_checks now cid uid args w)
    as [(game & c & chosen & top_card & Hturn & _ & Hheld & _ & _ & Heq)|Heq];
    rewrite Heq; [|by eauto].
  destruct Hturn as (Hg & _ & _).
  unfold uno_play_commit.
  destruct (play_card now uid c chosen game []) as [[g1 out1] [[]|e]] eqn:Hplay;
    [|done].
  apply play_card_count in Hplay; [|done].
  cbv zeta. case_decide.
  - simpl. intros _. rewrite save_games_GAMES. simpl.
    destruct (decide (cid' = cid)) as [->|Hne].
    + by rewrite lookup_delete_eq.
    + rewrite lookup_delete_ne, lookup_insert_ne by done. eauto.
  - destruct (Py.index (players g1) (current g1)); [|done].
    simpl. intros _. rewrite save_games_GAMES. simpl.
    destruct (decide (cid' = cid)) as [->|Hne].
    + rewrite lookup_insert_eq. intros [= <-]. eauto.
    + rewrite lookup_insert_ne by done. eauto.
Qed.

(** What holds of C1: along any sequence of plays and draws in which every
    handler returns without an exception, each session that is still there
    holds as many cards in deck, pile and hands as at the start. *)
Lemma cards_conserved_while_commands_complete cs w cid g' :
  Forall (λ c, play_or_draw c = true) cs →
  all_complete cs w →
  GAMES (run_all cs w) !! cid = Some g' →
  ∃ g, GAMES w !! cid = Some g ∧ card_count g' = card_count g.
Proof.
  intros Hcs. revert w g'.
  induction Hcs as [|c cs Hc _ IH]; intros w g' Hall Hg'; [by eauto|].
  destruct Hall as [Hok Hall]. simpl in Hg'.
  destruct (IH _ _ Hall Hg') as (g1 & Hg1 & Heq).
  assert (∃ g, GAMES w !! cid = Some g ∧ card_count g1 = card_count g)
    as (g & Hg & Heq').
  { destruct c; try done; simpl in *.
    - by eapply uno_play_conserves.
    - by eapply uno_draw_conserves. }
  exists g. split; [done|congruence].
Qed.


(** ** /uno_draw saves before the turn advances *)

(** In /uno_draw the call of save_games comes before advance_turn: after
    the first draw of the game the file still says that player 1 is to act
    while in memory the turn is player 2's. *)
Example draw_writes_the_old_turn :
  (current <$> GAMES (run draw_by1 begun2).1 !! 100) = Some 1
  ∧ (current <$> (GAMES_FILE (run draw_by1 begun2).1 ≫= (.!! 100))) = Some 0
  ∧ ¬ durable (run draw_by1 begun2).1.
Proof. unfold durable. split_and!; by vm_compute. Qed.

(** ** Well-formed sessions are kept *)

Section Triples.
Context {A B : Type}.
Implicit Types (P : game → Prop).

Lemma triple_ret P (a : A) (Q : A → game → Prop) :
  (∀ g, P g → Q a g) → triple P (ret a) Q.
Proof. intros H g out HP. by apply H. Qed.

Lemma triple_bind P (m : M A) (Q : A → game → Prop) (k : A → M B)
    (R : B → game → Prop) :
  triple P m Q → (∀ a, triple (Q a) (k a) R) → triple P (bind m k) R.
Proof.
  intros Hm Hk g out HP. unfold bind. specialize (Hm g out HP).
  destruct (m g out) as [[g' out'] [a|e]]; [by apply Hk|done].
Qed.

Lemma triple_raise P e (Q : A → game → Prop) :
  (∀ g, P g → well_formed g) → triple P (raise e) Q.
Proof. intros H g out HP. by apply H. Qed.

Lemma triple_try P e (o : option A) (Q : A → game → Prop) :
  (∀ g, P g → well_formed g) →
  (∀ a g, o = Some a → P g → Q a g) →
  triple P (try_ e o) Q.
Proof.
  intros Hwf H g out HP. destruct o as [a|]; simpl; [by apply H|by apply Hwf].
Qed.

Lemma triple_weaken P P' (m : M A) (Q Q' : A → game → Prop) :
  (∀ g, P' g → P g) → (∀ a g, Q a g → Q' a g) →
  triple P m Q → triple P' m Q'.
Proof.
  intros HP HQ Hm g out HP'. specialize (Hm g out (HP _ HP')).
  destruct (m g out) as [[g' out'] [a|e]]; [by apply HQ|done].
Qed.

Lemma triple_pure (φ : Prop) P (m : M A) (Q : A → game → Prop) :
  (φ → triple P m Q) → triple (λ g, φ ∧ P g) m Q.
Proof. intros H g out [Hφ HP]. by apply H. Qed.
End Triples.

Lemma triple_get P (Q : game → game → Prop) :
  (∀ g, P g → Q g g) → triple P get Q.
Proof. intros H g out HP. by apply H. Qed.

Lemma triple_modify P f (Q : unit → game → Prop) :
  (∀ g, P g → Q tt (f g)) → triple P (modify f) Q.
Proof. intros H g out HP. by apply H. Qed.

Lemma triple_say P r (Q : unit → game → Prop) :
  (∀ g, P g → Q tt g) → triple P (say r) Q.
Proof. intros H g out HP. by apply H. Qed.

Lemma triple_say_keep P r : triple P (say r) (λ _, P).
Proof. by apply triple_say. Qed.

Lemma triple_get_keep P : triple P get (λ g0 g, P g0 ∧ P g).
Proof. by apply triple_get. Qed.

Lemma triple_modify_keep P f :
  (∀ g, P g → P (f g)) → triple P (modify f) (λ _, P).
Proof. intros H. by apply triple_modify. Qed.

(** *** Setters *)

Lemma wf_set_deck d g :
  well_formed g → Forall displayable d → well_formed (set_deck d g).
Proof. intros [] ?. by constructor. Qed.

Lemma wf_set_pile p g :
  well_formed g → Forall displayable p → p ≠ [] → well_formed (set_pile p g).
Proof. intros [] ? ?. by constructor. Qed.

Lemma wf_set_hands uid h g :
  well_formed g → Forall displayable h →
  well_formed (set_hands (<[uid := h]> (hands g)) g).
Proof.
  intros [Hd Hp Hh Hf Ht Htop Hdealt] Hnew. constructor; simpl; try done.
  - intros p h'. destruct (decide (uid = p)) as [->|Hne].
    + rewrite lookup_insert_eq. by intros [= <-].
    + rewrite lookup_insert_ne by done. apply Hh.
  - intros Hs p Hin. destruct (decide (uid = p)) as [->|Hne].
    + by rewrite lookup_insert_eq.
    + rewrite lookup_insert_ne by done. by apply Hdealt.
Qed.

Lemma wf_set_current v g :
  well_formed g → started g = true →
  0 <= v < Z.of_nat (length (players g)) → well_formed (set_current v g).
Proof. intros [] Hs ?. constructor; simpl; try done. by rewrite Hs. Qed.

Lemma wf_set_direction v g : well_formed g → well_formed (set_direction v g).
Proof. intros []. by constructor. Qed.

Lemma wf_set_current_color v g : well_formed g → well_formed (set_current_color v g).
Proof. intros []. by constructor. Qed.

Lemma wf_set_last_active v g : well_formed g → well_formed (set_last_active v g).
Proof. intros []. by constructor. Qed.

Lemma playing_wf ps g : playing ps g → well_formed g.
Proof. by intros []. Qed.

Lemma dealing_wf ps dealt g : dealing ps dealt g → well_formed g.
Proof. by intros []. Qed.

Lemma displayable_unshuffled_deck : Forall displayable unshuffled_deck.
Proof. apply (bool_decide_unpack _). by vm_compute. Qed.

Lemma displayable_create_deck rnd : Forall displayable (create_deck rnd).
Proof. rewrite create_deck_Permutation. apply displayable_unshuffled_deck. Qed.

Lemma wf_new_game rnd now : well_formed (new_game rnd now).
Proof.
  constructor; simpl; try done.
  apply displayable_create_deck.
Qed.

(** *** The pieces of the handlers *)

Lemma index_elem_of {A} (l : list A) (i : Z) x : Py.index l i = Some x → x ∈ l.
Proof.
  unfold Py.index. cbv zeta. repeat case_decide; try done;
    intros H'; by eapply list_elem_of_lookup_2.
Qed.

Lemma playing_set_deck ps g d cs :
  playing ps g → deck g = d ++ cs → playing ps (set_deck d g).
Proof.
  intros (Hwf & Hs & Hps) Hd. split; [|done].
  apply wf_set_deck; [done|].
  pose proof (wf_deck _ Hwf) as Hall. rewrite Hd in Hall.
  by apply Forall_app in Hall as [? _].
Qed.

Lemma dealing_set_deck ps dealt g d cs :
  dealing ps dealt g → deck g = d ++ cs → dealing ps dealt (set_deck d g).
Proof.
  intros (Hwf & Hs & Hps & Hdealt) Hd. split; [|done].
  apply wf_set_deck; [done|].
  pose proof (wf_deck _ Hwf) as Hall. rewrite Hd in Hall.
  by apply Forall_app in Hall as [? _].
Qed.

Section Pops.
Variable J : game → Prop.
Hypothesis J_wf : ∀ g, J g → well_formed g.
Hypothesis J_pop : ∀ g d cs, J g → deck g = d ++ cs → J (set_deck d g).

Lemma pop_deck_triple : triple J pop_deck (λ c g, displayable c ∧ J g).
Proof.
  intros g out HJ. unfold pop_deck, bind, get, try_, modify, ret, raise.
  destruct (deck g) as [|c d _] eqn:Hd using rev_ind; simpl; [by apply J_wf|].
  rewrite pop_snoc. simpl. split.
  2:{ exact (J_pop _ _ _ HJ Hd). }
  pose proof (wf_deck _ (J_wf _ HJ)) as Hall.
  rewrite Hd in Hall.
  apply Forall_app in Hall as [_ Hc].
  exact (proj1 (Forall_singleton _ _) Hc).
Qed.

Lemma pop_deck_n_triple n :
  triple J (pop_deck_n n) (λ cs g, Forall displayable cs ∧ J g).
Proof.
  induction n as [|n IH]; simpl.
  - by apply triple_ret.
  - eapply triple_bind; [apply pop_deck_triple|]. intros c.
    apply triple_pure. intros Hc.
    eapply triple_bind; [apply IH|]. intros cs.
    apply triple_ret. intros g [Hcs HJ]. split; [by constructor|done].
Qed.
End Pops.

Lemma advance_turn_triple ps : triple (playing ps) advance_turn (λ _, playing ps).
Proof.
  intros g out (Hwf & Hs & Hps).
  unfold advance_turn, bind, get, modify, raise.
  case_decide as Hn; simpl; [done|].
  split; [|done]. apply wf_set_current; [done..|].
  apply Z.mod_pos_bound. lia.
Qed.

Lemma current_player_triple ps :
  triple (playing ps) current_player (λ p g, p ∈ ps ∧ playing ps g).
Proof.
  intros g out HP. pose proof HP as (Hwf & Hs & Hps).
  unfold current_player, bind, get, try_, ret, raise.
  destruct (Py.index (players g) (current g)) as [p|] eqn:Hp; simpl; [|done].
  split; [|done]. rewrite <- Hps. by eapply index_elem_of.
Qed.

Lemma extend_hand_triple ps uid cards :
  Forall displayable cards →
  triple (playing ps) (extend_hand uid cards) (λ _, playing ps).
Proof.
  intros Hcards g out (Hwf & Hs & Hps).
  unfold extend_hand, bind, get, try_, modify, ret, raise.
  destruct (hands g !! uid) as [h|] eqn:Hh; simpl; [|done].
  split; [|done]. apply wf_set_hands; [done|].
  apply Forall_app. split; [by eapply wf_hands|done].
Qed.

Lemma victim_draws_triple ps n :
  triple (playing ps) (victim_draws n) (λ _, playing ps).
Proof.
  unfold victim_draws.
  eapply triple_bind; [apply advance_turn_triple|]. intros ?.
  eapply triple_bind; [apply current_player_triple|]. intros nxt.
  apply triple_pure. intros _.
  eapply triple_bind.
  { apply (pop_deck_n_triple (playing ps));
      [apply playing_wf|intros ? ? ? ? ?; by eapply playing_set_deck]. }
  intros draw. apply triple_pure. intros Hdraw.
  eapply triple_bind; [apply extend_hand_triple, Hdraw|]. intros ?.
  eapply triple_bind; [apply triple_say_keep|]. intros ?.
  apply advance_turn_triple.
Qed.

Lemma special_effect_triple ps c :
  triple (playing ps) (special_effect c) (λ _, playing ps).
Proof.
  unfold special_effect. repeat case_decide.
  - eapply triple_bind; [apply advance_turn_triple|]. intros ?.
    apply advance_turn_triple.
  - eapply triple_bind.
    { apply triple_modify_keep.
      intros g (Hwf & Hs & Hps). split; [|done]. by apply wf_set_direction. }
    intros ?.
    eapply triple_bind; [apply triple_get_keep|].
    intros g. apply triple_pure. intros _.
    eapply triple_bind; [|intros ?; apply advance_turn_triple].
    case_decide; [apply advance_turn_triple|by apply triple_ret].
  - apply victim_draws_triple.
  - apply victim_draws_triple.
  - apply advance_turn_triple.
Qed.

Lemma remove_Forall {A} `{EqDecision A} (P : A → Prop) x (l r : list A) :
  Py.remove x l = Some r → Forall P l → Forall P r.
Proof.
  revert r. induction l as [|y l IH]; intros r; [done|].
  simpl. case_decide.
  - intros [= ->]. by intros [_ ?]%Forall_cons.
  - destruct (Py.remove x l) as [r'|]; [|done].
    intros [= <-] [? ?]%Forall_cons. constructor; [done|by apply IH].
Qed.

Lemma place_card_triple ps now uid c chosen :
  displayable c →
  triple (playing ps) (place_card now uid c chosen) (λ _, playing ps).
Proof.
  intros Hc g out HP. pose proof HP as (Hwf & Hs & Hps).
  unfold place_card, bind, get, try_, modify, say, ret, raise.
  destruct (Py.remove c (default [] (hands g !! uid))) as [hand'|] eqn:Hrem;
    simpl; [|done].
  assert (Hwf1 : well_formed
            (set_pile (pile g ++ [c]) (set_hands (<[uid:=hand']> (hands g)) g))).
  { apply wf_set_pile; [apply wf_set_hands; [done|]|..].
    - apply (remove_Forall _ _ _ _ Hrem).
      destruct (hands g !! uid) as [h|] eqn:Hh; [by eapply wf_hands|done].
    - simpl. apply Forall_app. split; [by apply wf_pile|by apply Forall_singleton].
    - by destruct (pile g). }
  destruct (played_color c chosen) as [color|]; simpl; [|done].
  destruct (display_rank c.2) as [shown|]; simpl.
  - split; [|done].
    by apply wf_set_last_active, wf_set_current_color.
  - by apply wf_set_last_active, wf_set_current_color.
Qed.

Lemma play_card_triple ps now uid c chosen :
  displayable c →
  triple (playing ps) (play_card now uid c chosen) (λ _, playing ps).
Proof.
  intros Hc. unfold play_card.
  eapply triple_bind; [apply place_card_triple, Hc|]. intros ?.
  apply special_effect_triple.
Qed.


Lemma playing_set_deck_any ps d g :
  Forall displayable d → playing ps g → playing ps (set_deck d g).
Proof. intros Hd (Hwf & Hs & Hps). split; [|done]. by apply wf_set_deck. Qed.

Lemma playing_set_pile ps p g :
  Forall displayable p → p ≠ [] → playing ps g → playing ps (set_pile p g).
Proof. intros Hp Hne (Hwf & Hs & Hps). split; [|done]. by apply wf_set_pile. Qed.

Lemma playing_set_last_active ps v g :
  playing ps g → playing ps (set_last_active v g).
Proof. intros (Hwf & Hs & Hps). split; [|done]. by apply wf_set_last_active. Qed.

Lemma uno_draw_take_triple ps rnd now uid :
  triple (playing ps) (uno_draw_take rnd now uid)
    (λ c g, displayable c ∧ playing ps g).
Proof.
  unfold uno_draw_take.
  eapply triple_bind; [apply triple_get_keep|]. intros g0.
  apply triple_pure. intros (Hwf0 & _ & _).
  eapply triple_bind with (Q := λ _, playing ps).
  { case_decide; [|by apply triple_ret].
    eapply triple_bind.
    { apply triple_try with (Q := λ p g, Py.pop (pile g0) = Some p ∧ playing ps g);
        [apply playing_wf|done]. }
    intros [rest t]. apply triple_pure. intros Hpop%pop_Some. simpl.
    pose proof (wf_pile _ Hwf0) as Hall. rewrite Hpop in Hall.
    apply Forall_app in Hall as [Hrest Ht].
    eapply triple_bind.
    { apply triple_modify_keep. intros g. by apply playing_set_deck_any. }
    intros ?. eapply triple_bind.
    { apply triple_modify_keep. intros g. by apply playing_set_pile. }
    intros ?. apply triple_modify_keep. intros g HP.
    apply playing_set_deck_any; [|done].
    rewrite shuffle_Permutation. apply wf_deck, HP. }
  intros ?. eapply triple_bind.
  { apply (pop_deck_triple (playing ps));
      [apply playing_wf|intros ? ? ? ? ?; by eapply playing_set_deck]. }
  intros c. apply triple_pure. intros Hc.
  eapply triple_bind.
  { apply extend_hand_triple. by apply Forall_singleton. }
  intros ?. eapply triple_bind.
  { apply triple_modify_keep. intros g. apply playing_set_last_active. }
  intros ?. by apply triple_ret.
Qed.

Lemma uno_draw_pass_triple ps c :
  triple (playing ps) (uno_draw_pass c) (λ _, playing ps).
Proof.
  unfold uno_draw_pass.
  eapply triple_bind.
  { apply triple_try with (Q := λ _, playing ps); [apply playing_wf|done]. }
  intros shown. eapply triple_bind; [apply triple_say_keep|]. intros ?.
  eapply triple_bind; [apply advance_turn_triple|]. intros ?.
  eapply triple_bind; [apply current_player_triple|]. intros nxt.
  apply triple_pure. intros _. apply triple_say_keep.
Qed.

(** *** The deal of /uno_begin *)

Lemma deal_triple ps dealt uids :
  triple (dealing ps dealt) (deal uids) (λ _, dealing ps (dealt ++ uids)).
Proof.
  revert dealt. induction uids as [|uid uids IH]; intros dealt; cbn [deal].
  - apply triple_ret. intros g. by rewrite app_nil_r.
  - eapply triple_bind.
    { apply (pop_deck_n_triple (dealing ps dealt));
        [apply dealing_wf|intros ? ? ? ? ?; by eapply dealing_set_deck]. }
    intros cards. apply triple_pure. intros Hcards.
    eapply triple_bind with (Q := λ _, dealing ps (dealt ++ [uid])).
    { apply triple_modify. intros g (Hwf & Hs & Hps & Hdealt).
      split; [by apply wf_set_hands|]. split_and!; [done..|].
      simpl. intros p [Hp|Hp%list_elem_of_singleton]%elem_of_app.
      - destruct (decide (uid = p)) as [->|Hne].
        + by rewrite lookup_insert_eq.
        + rewrite lookup_insert_ne by done. by apply Hdealt.
      - subst. by rewrite lookup_insert_eq. }
    intros ?. replace (dealt ++ uid :: uids) with ((dealt ++ [uid]) ++ uids)
      by (by rewrite <- app_assoc).
    apply IH.
Qed.

Lemma uno_begin_deal_triple ps rnd now :
  (2 <= length ps)%nat →
  triple (dealing ps []) (uno_begin_deal rnd now)
    (λ top g, displayable top ∧ playing ps g).
Proof.
  intros Hlen. unfold uno_begin_deal.
  eapply triple_bind; [apply triple_get_keep|]. intros g0.
  apply triple_pure. intros (_ & _ & Hps0 & _).
  eapply triple_bind; [apply deal_triple|]. intros ?. simpl.
  eapply triple_bind.
  { apply (pop_deck_triple (dealing ps (players g0)));
      [apply dealing_wf|intros ? ? ? ? ?; by eapply dealing_set_deck]. }
  intros top. apply triple_pure. intros Htop.
  eapply triple_bind with (Q := λ _ g, dealing ps (players g0) g ∧ pile g ≠ []).
  { apply triple_modify. intros g (Hwf & Hs & Hps & Hdealt). split.
    - split; [|done]. destruct Hwf. constructor; simpl; try done.
      + apply Forall_app. split; [done|by apply Forall_singleton].
      + by rewrite Hs.
    - simpl. by destruct (pile g). }
  intros ?.
  eapply triple_bind
    with (Q := λ _ g, dealing ps (players g0) g ∧ pile g ≠ []).
  { case_decide.
    - apply triple_try; [by intros g [?%dealing_wf _]|done].
    - by apply triple_ret. }
  intros color.
  eapply triple_bind
    with (Q := λ _ g, dealing ps (players g0) g ∧ pile g ≠ []).
  { apply triple_modify. intros g [(Hwf & Hs & Hps & Hdealt) Hp].
    split; [|done]. split; [|done]. by apply wf_set_current_color. }
  intros ?.
  eapply triple_bind with (Q := λ _, playing ps).
  { apply triple_modify. intros g [(Hwf & Hs & Hps & Hdealt) Hp].
    split; [|done]. pose proof (wf_fresh _ Hwf Hs) as Hcur.
    destruct Hwf. constructor; simpl; try done.
    - intros _. rewrite Hcur, Hps. lia.
    - intros _ p Hin. apply Hdealt. by rewrite Hps0, <- Hps. }
  intros ?. eapply triple_bind.
  { apply triple_modify_keep. intros g. apply playing_set_last_active. }
  intros ?. by apply triple_ret.
Qed.

Lemma uno_begin_announce_triple ps top :
  triple (playing ps) (uno_begin_announce top) (λ _, playing ps).
Proof.
  unfold uno_begin_announce.
  eapply triple_bind; [apply current_player_triple|]. intros first.
  apply triple_pure. intros _.
  eapply triple_bind.
  { apply triple_try with (Q := λ _, playing ps); [apply playing_wf|done]. }
  intros shown. eapply triple_bind; [apply triple_get_keep|]. intros g0.
  apply triple_pure. intros _. apply triple_say_keep.
Qed.

(** *** The handlers *)

Lemma sound_store cid g w : sound w → well_formed g → sound (store cid g w).
Proof.
  intros [Hw Hf] Hg. split; [|done].
  intros cid' g'. unfold store. simpl.
  destruct (decide (cid = cid')) as [->|Hne].
  - rewrite lookup_insert_eq. by intros [= <-].
  - rewrite lookup_insert_ne by done. apply Hw.
Qed.

Lemma sound_save w : sound w → sound (save_games w).
Proof.
  intros [Hw Hf]. unfold save_games. case_decide; [done|].
  split; [done|]. intros raw cid g [= <-]. apply Hw.
Qed.

Lemma sound_delete cid w : sound w → sound (set_GAMES (delete cid (GAMES w)) w).
Proof.
  intros [Hw Hf]. split; [|done].
  intros cid' g. simpl. intros [_ Hg]%lookup_delete_Some. by eapply Hw.
Qed.

Lemma sound_set_STATS_FILE v w : sound w → sound (set_STATS_FILE v w).
Proof. by intros [Hw Hf]. Qed.

Lemma uno_start_sound rnd now cid w :
  sound w → sound (uno_start rnd now cid w).1.
Proof. intros Hw. apply sound_save, sound_store, wf_new_game. done. Qed.

Lemma uno_join_sound now cid uid w :
  sound w → sound (uno_join now cid uid w).1.
Proof.
  intros Hw. unfold uno_join.
  destruct (GAMES w !! cid) as [game|] eqn:Hg; [|done].
  destruct (started game) eqn:Hs; [done|].
  destruct (Py.contains uid (players game)); [done|].
  apply sound_save, sound_store; [done|].
  destruct (proj1 Hw _ _ Hg). constructor; simpl; try done; by rewrite Hs.
Qed.

Lemma uno_begin_sound rnd now cid w :
  sound w → sound (uno_begin rnd now cid w).1.
Proof.
  intros Hw. unfold uno_begin.
  destruct (GAMES w !! cid) as [game|] eqn:Hg; [|done].
  destruct (started game) eqn:Hs; [done|].
  case_decide as Hlen; [done|].
  assert (Hdeal : dealing (players game) [] game).
  { split; [exact (proj1 Hw _ _ Hg)|]. split_and!; [done..|].
    by intros p ?%elem_of_nil. }
  pose proof (uno_begin_deal_triple (players game) rnd now ltac:(lia)
                game [] Hdeal) as Ht.
  destruct (uno_begin_deal rnd now game []) as [[g1 out1] [top|e]].
  2:{ by apply sound_store. }
  destruct Ht as [_ Hplay].
  pose proof (uno_begin_announce_triple (players game) top g1 out1 Hplay) as Ha.
  destruct (uno_begin_announce top g1 out1) as [[g2 out2] [[]|e]].
  - apply sound_store; [|apply Ha].
    apply sound_save, sound_store; [done|apply Hplay].
  - apply sound_store; [|done].
    apply sound_save, sound_store; [done|apply Hplay].
Qed.

Lemma uno_play_sound now cid uid args w :
  sound w → sound (uno_play now cid uid args w).1.
Proof.
  intros Hw.
  destruct (uno_play_checks now cid uid args w)
    as [(game & c & chosen & top_card & Hturn & _ & Hheld & _ & _ & Heq)|Heq];
    rewrite Heq; [|done].
  destruct Hturn as (Hg & Hs & _).
  assert (Hplay : playing (players game) game)
    by (split; [exact (proj1 Hw _ _ Hg)|done]).
  assert (Hc : displayable c).
  { destruct (hands game !! uid) as [h|] eqn:Hh; [|by apply elem_of_nil in Hheld].
    pose proof (wf_hands _ (proj1 Hw _ _ Hg) _ _ Hh) as Hall.
    rewrite Forall_forall in Hall. by apply Hall. }
  pose proof (play_card_triple (players game) now uid c chosen Hc game [] Hplay)
    as Ht.
  unfold uno_play_commit.
  destruct (play_card now uid c chosen game []) as [[g1 out1] [[]|e]].
  2:{ by apply sound_store. }
  cbv zeta. case_decide.
  - simpl. apply sound_save.
    apply (sound_delete cid
             (set_STATS_FILE (record_win cid uid (STATS_FILE (store cid g1 w)))
                (store cid g1 w))).
    apply sound_set_STATS_FILE, sound_store; [done|apply Ht].
  - destruct (Py.index (players g1) (current g1)); simpl;
      apply sound_save, sound_store; done || apply Ht.
Qed.

Lemma uno_draw_sound rnd now cid uid w :
  sound w → sound (uno_draw rnd now cid uid w).1.
Proof.
  intros Hw. unfold uno_draw.
  destruct (GAMES w !! cid) as [game|] eqn:Hg; [|done].
  destruct (started game) eqn:Hs; [|done]. simpl.
  destruct (Py.index (players game) (current game)) as [p|]; [|done].
  case_decide; [done|].
  assert (Hplay : playing (players game) game)
    by (split; [exact (proj1 Hw _ _ Hg)|done]).
  pose proof (uno_draw_take_triple (players game) rnd now uid game [] Hplay) as Ht.
  destruct (uno_draw_take rnd now uid game []) as [[g1 out1] [c|e]].
  2:{ by apply sound_store. }
  destruct Ht as [_ Hplay1].
  pose proof (uno_draw_pass_triple (players game) c g1 out1 Hplay1) as Hp.
  destruct (uno_draw_pass c g1 out1) as [[g2 out2] [[]|e]].
  - apply sound_store; [|apply Hp].
    apply sound_save, sound_store; [done|apply Hplay1].
  - apply sound_store; [|done].
    apply sound_save, sound_store; [done|apply Hplay1].
Qed.

Lemma uno_reset_sound cid w : sound w → sound (uno_reset cid w).1.
Proof.
  intros Hw. unfold uno_reset.
  destruct (GAMES w !! cid); [|done].
  by apply sound_save, sound_delete.
Qed.

Lemma uno_status_unchanged cid w : (uno_status cid w).1 = w.
Proof.
  unfold uno_status.
  destruct (GAMES w !! cid) as [game|]; [|done].
  destruct (started game); [|done].
  destruct (Py.index (players game) (current game)); [|done].
  by destruct (Py.top (pile game)).
Qed.

Lemma run_sound c w : sound w → sound (run c w).1.
Proof.
  intros Hw. destruct c; simpl.
  - by apply uno_start_sound.
  - by apply uno_join_sound.
  - by apply uno_begin_sound.
  - by apply uno_play_sound.
  - by apply uno_draw_sound.
  - by apply uno_reset_sound.
  - by rewrite uno_status_unchanged.
Qed.

Lemma restart_sound now w : sound w → sound (restart now w).
Proof.
  intros [Hw Hf]. unfold restart, initialize_games. simpl.
  rewrite decide_True by done.
  assert (Hl : sound (load_games (set_GAMES ∅ w))).
  { unfold load_games. simpl.
    destruct (GAMES_FILE w) as [raw|] eqn:Hraw.
    - split; [|exact Hf]. intros cid g Hg. exact (Hf _ _ _ Hraw Hg).
    - split; [|exact Hf]. intros cid g. simpl. by rewrite lookup_empty. }
  unfold cleanup_old_games. cbv zeta.
  set (w1 := load_games (set_GAMES ∅ w)) in *.
  assert (Hk : sound (set_GAMES (filter (λ kg, expired now kg.2 ≠ true) (GAMES w1)) w1)).
  { split; [|apply Hl].
    intros cid g. simpl. intros [Hg _]%map_lookup_filter_Some.
    exact (proj1 Hl _ _ Hg). }
  case_decide; [done|by apply sound_save].
Qed.

(** Every session of a reachable world, in memory or in the games file,
    is well formed, whether the handlers returned or raised. *)
Theorem reachable_sound w : reachable w → sound w.
Proof.
  induction 1 as [w Hempty Hfile|c w _ IH|now w _ IH].
  - split.
    + intros cid g. by rewrite Hempty, lookup_empty.
    + intros raw cid g. by rewrite Hfile.
  - by apply run_sound.
  - by apply restart_sound.
Qed.

(** Turn validity: in a reachable world the current index of a started
    game is an index into its players, the player to act has a hand, the
    pile has a top card, and every card of the pile can be shown. *)
Corollary reachable_turn_valid w cid g :
  reachable w → GAMES w !! cid = Some g → started g = true →
  0 <= current g < Z.of_nat (length (players g))
  ∧ (∃ uid h, on_turn w cid uid g ∧ hands g !! uid = Some h)
  ∧ (∃ top_card, Py.top (pile g) = Some top_card)
  ∧ Forall displayable (pile g).
Proof.
  intros Hr Hg Hs. pose proof (proj1 (reachable_sound _ Hr) _ _ Hg) as Hwf.
  pose proof (wf_turn _ Hwf Hs) as Hcur.
  split; [done|]. split_and!.
  - destruct (index_lt (players g) (current g) Hcur) as [uid Huid].
    destruct (wf_dealt _ Hwf Hs uid) as [h Hh]; [by eapply index_elem_of|].
    by exists uid, h.
  - destruct (Py.top (pile g)) as [t|] eqn:Ht; [by eexists|].
    apply top_nil_iff in Ht. by destruct (wf_top _ Hwf Hs).
  - by apply wf_pile.
Qed.

(** ** The sample games are reachable *)

Lemma reachable_run_all cs w : reachable w → reachable (run_all cs w).
Proof.
  revert w. induction cs as [|c cs IH]; intros w Hw; [done|].
  cbn [run_all]. by apply IH, reach_run.
Qed.

Lemma reachable_draws n w : reachable w → reachable (draws n w).
Proof.
  revert w. induction n as [|n IH]; intros w Hw; [done|].
  cbn [draws]. destruct (GAMES w !! 100) as [g|]; [|done].
  destruct (Py.index (players g) (current g)) as [uid|]; [|done].
  apply IH. exact (reach_run (Draw keep_order 4 100 uid) w Hw).
Qed.

Lemma reachable_world0 : reachable world0.
Proof. apply reach_boot; reflexivity. Qed.

Lemma reachable_begun2 : reachable begun2.
Proof.
  exact (reach_run (Begin keep_order 3 100) _
           (reach_run (Join 2 100 2) _
              (reach_run (Join 1 100 1) _
                 (reach_run (Start keep_order 0 100) _ reachable_world0)))).
Qed.

Lemma reachable_deck_spent : reachable deck_spent.
Proof.
  unfold deck_spent. apply reachable_draws.
  exact (reach_run (Play 5 100 1 ["wild"; "red"]) _ reachable_begun2).
Qed.

Lemma reachable_short_deck : reachable short_deck.
Proof.
  unfold short_deck. apply reachable_draws, reachable_run_all, reachable_begun2.
Qed.

Lemma reachable_last_card : reachable last_card.
Proof. unfold last_card. apply reachable_run_all, reachable_begun2. Qed.

(** ** Validation, draw and reverse in the games that can arise *)

(** C3. If any precondition of play fails (no session, not started, not
    the caller's turn, a wild without a valid declared color, card not
    held, illegal card), /uno_play returns the world it was given: sessions,
    games file and stats are untouched, every check comes before the first
    write.  In a reachable world, when the arguments are those of a play
    (they name a card, or a wild lacking its color), the reply is the error
    message of a precondition that does fail. *)
Theorem play_all_or_nothing now cid uid args w :
  (∃ e, violated w cid uid args e) →
  (uno_play now cid uid args w).1 = w
  ∧ (reachable w →
     (∃ c, names_card (map Py.lower args) c) ∨ color_missing (map Py.lower args) →
     ∃ e, violated w cid uid args e
          ∧ uno_play now cid uid args w = (w, said [error_reply e])).
Proof.
  intros He.
  destruct (uno_play_all_or_nothing now cid uid args w He) as [H1 H2].
  split; [done|]. intros Hr. apply H2.
  intros g Hg Hs.
  destruct (reachable_turn_valid _ _ _ Hr Hg Hs) as (Hcur & _ & [t Ht] & _).
  split; [done|]. intros Hnil. by rewrite Hnil in Ht.
Qed.

Lemma play_all_or_nothing_witness :
  (uno_play 5 100 2 ["yellow"; "skip"] begun2).1 = begun2
  ∧ ∃ e, violated begun2 100 2 ["yellow"; "skip"] e
         ∧ uno_play 5 100 2 ["yellow"; "skip"] begun2 = (begun2, said [error_reply e]).
Proof.
  destruct (play_all_or_nothing 5 100 2 ["yellow"; "skip"] begun2) as [H1 H2].
  - exists NotYourTurn. exists (session begun2).
    split; [vm_compute; reflexivity|].
    vm_compute. intros [= ?].
  - split; [exact H1|]. apply H2; [apply reachable_begun2|].
    left. exists ("yellow", "skip"), "yellow", "skip", [].
    split; [reflexivity|]. right. split; [|reflexivity].
    apply (bool_decide_unpack _). vm_compute. exact I.
Defined.

(** C7. In a started game of a reachable world whose deck is empty and
    whose pile holds at least two cards, /uno_draw by the player to act
    completes without an exception: the pile keeps its former top card and
    nothing else, the other pile cards, shuffled, become the deck, the last
    card of that deck goes to the end of the player's hand, and the turn
    advances by one step in the current direction. *)
Theorem draw_from_empty_deck_reshuffles rnd now cid uid w game :
  reachable w →
  on_turn w cid uid game →
  deck game = [] →
  (2 <= length (pile game))%nat →
  ∃ hand rest top_card deck' c shown nxt g',
    hands game !! uid = Some hand
    ∧ pile game = rest ++ [top_card]
    ∧ Py.shuffle rnd rest = deck' ++ [c]
    ∧ deck' ++ [c] ≡ₚ rest
    ∧ (uno_draw rnd now cid uid w).2 = said [R_Drew c shown; R_NextTurn nxt]
    ∧ GAMES (uno_draw rnd now cid uid w).1 !! cid = Some g'
    ∧ pile g' = [top_card]
    ∧ deck g' = deck'
    ∧ hands g' = <[uid := hand ++ [c]]> (hands game)
    ∧ current g' = (current game + direction game) `mod` Z.of_nat (length (players game))
    ∧ Py.index (players g') (current g') = Some nxt
    ∧ players g' = players game
    ∧ direction g' = direction game
    ∧ current_color g' = current_color game
    ∧ started g' = true.
Proof.
  intros Hr Hturn Hdeck Hpile.
  pose proof Hturn as (Hg & Hs & Hp).
  pose proof (proj1 (reachable_sound _ Hr) _ _ Hg) as Hwf.
  destruct (wf_dealt _ Hwf Hs uid) as [hand Hhand]; [by eapply index_elem_of|].
  exists hand.
  destruct (uno_draw_reshuffle rnd now cid uid w game hand Hturn Hdeck Hpile Hhand)
    as (rest & top_card & deck' & c & shown & nxt & g' & H);
    [by apply wf_pile|].
  exists rest, top_card, deck', c, shown, nxt, g'. by split.
Qed.

Lemma draw_from_empty_deck_reshuffles_witness :
  ∃ hand rest top_card deck' c shown nxt g',
    hands (session deck_spent) !! 1 = Some hand
    ∧ pile (session deck_spent) = rest ++ [top_card]
    ∧ Py.shuffle keep_order rest = deck' ++ [c]
    ∧ deck' ++ [c] ≡ₚ rest
    ∧ (uno_draw keep_order 6 100 1 deck_spent).2 = said [R_Drew c shown; R_NextTurn nxt]
    ∧ GAMES (uno_draw keep_order 6 100 1 deck_spent).1 !! 100 = Some g'
    ∧ pile g' = [top_card]
    ∧ deck g' = deck'
    ∧ hands g' = <[1 := hand ++ [c]]> (hands (session deck_spent))
    ∧ current g' = (current (session deck_spent) + direction (session deck_spent))
                     `mod` Z.of_nat (length (players (session deck_spent)))
    ∧ Py.index (players g') (current g') = Some nxt
    ∧ players g' = players (session deck_spent)
    ∧ direction g' = direction (session deck_spent)
    ∧ current_color g' = current_color (session deck_spent)
    ∧ started g' = true.
Proof.
  apply (draw_from_empty_deck_reshuffles keep_order 6 100 1 deck_spent
           (session deck_spent)).
  - apply reachable_deck_spent.
  - split; [|split]; vm_compute; reflexivity.
  - vm_compute; reflexivity.
  - vm_compute. lia.
Defined.

(** C9. In a started game of a reachable world the player to act plays a
    reverse they hold and that is legal.  On the game object, once the card
    is placed and its effect resolved: the direction is negated; with
    exactly two players the turn has advanced twice and the current index
    is the one before the play; with three or more players it has advanced
    once, in the new direction.  That game object is the session the
    handler leaves, unless the reverse was the player's last card (then the
    win deletes the session). *)
Theorem reverse_effect now cid uid args w game c chosen top_card :
  reachable w →
  on_turn w cid uid game →
  determine_card (map Py.lower args) = Determined c chosen →
  c.2 = "reverse" →
  c ∈ default [] (hands game !! uid) →
  Py.top (pile game) = Some top_card →
  legal (current_color game) top_card.2 c →
  ∃ g1 out1,
    play_card now uid c chosen game [] = (g1, out1, Ok tt)
    ∧ direction g1 = - direction game
    ∧ players g1 = players game
    ∧ (length (players game) = 2%nat → current g1 = current game)
    ∧ ((3 <= length (players game))%nat →
       current g1 = (current game + direction g1) `mod` Z.of_nat (length (players game)))
    ∧ (hands g1 !! uid ≠ Some [] →
       raised (uno_play now cid uid args w).2 = None
       ∧ GAMES (uno_play now cid uid args w).1 !! cid = Some g1)
    ∧ (hands g1 !! uid = Some [] →
       GAMES (uno_play now cid uid args w).1 !! cid = None).
Proof.
  intros Hr Hturn Hargs Hrank Hheld Htop Hlegal.
  pose proof Hturn as (Hg & Hs & Hp).
  pose proof (proj1 (reachable_sound _ Hr) _ _ Hg) as Hwf.
  destruct (hands game !! uid) as [hand|] eqn:Hhand;
    [|by apply elem_of_nil in Hheld].
  by eapply uno_play_reverse; [|apply wf_turn|..].
Qed.

Lemma reverse_effect_witness :
  ∃ g1 out1,
    play_card 5 2 ("yellow", "reverse") None (session (draws 1 begun2)) []
      = (g1, out1, Ok tt)
    ∧ direction g1 = - direction (session (draws 1 begun2))
    ∧ players g1 = players (session (draws 1 begun2))
    ∧ (length (players (session (draws 1 begun2))) = 2%nat →
       current g1 = current (session (draws 1 begun2)))
    ∧ ((3 <= length (players (session (draws 1 begun2))))%nat →
       current g1 = (current (session (draws 1 begun2)) + direction g1)
                      `mod` Z.of_nat (length (players (session (draws 1 begun2)))))
    ∧ (hands g1 !! 2 ≠ Some [] →
       raised (uno_play 5 100 2 ["yellow"; "REVERSE"] (draws 1 begun2)).2 = None
       ∧ GAMES (uno_play 5 100 2 ["yellow"; "REVERSE"] (draws 1 begun2)).1 !! 100
         = Some g1)
    ∧ (hands g1 !! 2 = Some [] →
       GAMES (uno_play 5 100 2 ["yellow"; "REVERSE"] (draws 1 begun2)).1 !! 100 = None).
Proof.
  apply (reverse_effect 5 100 2 ["yellow"; "REVERSE"] (draws 1 begun2)
           (session (draws 1 begun2)) ("yellow", "reverse") None ("yellow", "9")).
  - apply reachable_draws, reachable_begun2.
  - split; [|split]; vm_compute; reflexivity.
  - vm_compute; reflexivity.
  - reflexivity.
  - apply (bool_decide_unpack _). vm_compute. exact I.
  - vm_compute; reflexivity.
  - right. left. vm_compute; reflexivity.
Defined.

Example reverse_with_three_players :
  (players <$> GAMES (draws 1 begun3) !! 100) = Some [1; 2; 3]
  ∧ (current <$> GAMES (draws 1 begun3) !! 100) = Some 1
  ∧ (uno_play 5 100 2 ["yellow"; "reverse"] (draws 1 begun3)).2
    = said [R_Played 2 ("yellow", "reverse") "reverse" (Some "yellow"); R_NextTurn 1]
  ∧ (current <$> GAMES (uno_play 5 100 2 ["yellow"; "reverse"] (draws 1 begun3)).1 !! 100)
    = Some 0
  ∧ (direction <$> GAMES (uno_play 5 100 2 ["yellow"; "reverse"] (draws 1 begun3)).1 !! 100)
    = Some (-1).
Proof. split_and!; by vm_compute. Qed.

(** ** The victim's draw on a short deck, in games that arise *)

(** Every command of [last_card_line] returns without an exception. *)
Example last_card_line_completes : all_complete last_card_line begun2.
Proof. vm_compute. repeat split. Qed.


(** C1: the defect.  The game of chat 100 is begun by /uno_start, two
    /uno_join and /uno_begin and holds 108 cards, the full deck.  The two
    players draw in turn, 92 times; 108 cards are still there and one is left
    in the deck.  Player 1 then plays a wild draw four: the victim's draw pops
    the card left in the deck, raises IndexError at the second pop, and the
    popped card is dropped.  The session now holds 107 cards: the red 0 is
    in no hand, not in the deck and not in the pile. *)
Theorem card_lost_when_victim_draw_fails :
  reachable (run_all (ninety_two_draws ++ [play_by1 "wild4" "red"]) begun2)
  ∧ (card_count <$> GAMES begun2 !! 100) = Some 108%nat
  ∧ all_cards (session begun2) ≡ₚ unshuffled_deck
  ∧ Forall (λ c, play_or_draw c = true) (ninety_two_draws ++ [play_by1 "wild4" "red"])
  ∧ (card_count <$> GAMES (run_all ninety_two_draws begun2) !! 100) = Some 108%nat
  ∧ (deck <$> GAMES (run_all ninety_two_draws begun2) !! 100) = Some [("red", "0")]
  ∧ (run (play_by1 "wild4" "red") (run_all ninety_two_draws begun2)).2
    = threw Py.IndexError [R_Played 1 ("wild", "wild4") "wild4" (Some "red")]
  ∧ (card_count <$> GAMES (run_all (ninety_two_draws ++ [play_by1 "wild4" "red"]) begun2) !! 100)
    = Some 107%nat
  ∧ ("red", "0") ∈ unshuffled_deck
  ∧ ("red", "0") ∉
      all_cards (session (run_all (ninety_two_draws ++ [play_by1 "wild4" "red"]) begun2)).
Proof.
  split; [apply reachable_run_all, reachable_begun2|].
  split_and!; try by vm_compute.
  - apply (bool_decide_unpack _). by vm_compute.
  - apply (bool_decide_unpack _). by vm_compute.
  - apply (bool_decide_unpack _). by vm_compute.
  - apply (bool_decide_unpack _). by vm_compute.
Qed.

(** C8: the defect.  In the game reached from [begun2] by the plays and
    draws of [last_card_line] player 1 is to act and holds one card, a wild
    draw four; the deck holds three cards and the pile thirty-two.  Playing
    it empties the hand, but the victim's draw raises IndexError at the
    fourth pop: the handler never reaches the win check.  No win is
    recorded, the session is not deleted, and /uno_status still reports a
    running game, whose turn is on player 2. *)
Theorem last_card_on_short_deck_records_no_win :
  reachable last_card
  ∧ GAMES last_card !! 100 = Some (session last_card)
  ∧ hands (session last_card) !! 1 = Some [("wild", "wild4")]
  ∧ Py.index (players (session last_card)) (current (session last_card)) = Some 1
  ∧ length (deck (session last_card)) = 3%nat
  ∧ length (pile (session last_card)) = 32%nat
  ∧ (uno_play 7 100 1 ["wild4"; "red"] last_card).2
    = threw Py.IndexError [R_Played 1 ("wild", "wild4") "wild4" (Some "red")]
  ∧ (hands <$> GAMES (uno_play 7 100 1 ["wild4"; "red"] last_card).1 !! 100)
      ≫= (.!! 1) = Some []
  ∧ STATS_FILE (uno_play 7 100 1 ["wild4"; "red"] last_card).1 = STATS_FILE last_card
  ∧ STATS_FILE (uno_play 7 100 1 ["wild4"; "red"] last_card).1 !! 100 = None
  ∧ (uno_status 100 (uno_play 7 100 1 ["wild4"; "red"] last_card).1).2
    = said [R_Status 2 true (Some (2, Some "red", Some (("wild", "wild4"), "wild4")))].
Proof. split; [apply reachable_last_card|]. split_and!; by vm_compute. Qed.


(** * Further properties of the module *)

(** ** The deck *)

Lemma copies_Permutation c l l' : l ≡ₚ l' → copies c l = copies c l'.
Proof. intros H. unfold copies. by rewrite H. Qed.

Lemma unshuffled_deck_composition :
  Forall (λ color,
            copies (color, "0") unshuffled_deck = 1%nat
            ∧ Forall (λ n, copies (color, str_digit n) unshuffled_deck = 2%nat) (seq 1 9)
            ∧ Forall (λ sp, copies (color, sp) unshuffled_deck = 2%nat)
                ["skip"; "reverse"; "draw2"]) COLORS.
Proof. apply (bool_decide_unpack _). vm_compute. exact I. Qed.

(** X1. Whatever the shuffle draws, [create_deck] returns the 108 cards of
    its docstring: per color one "0", two of each of "1".."9" and two of
    each of skip, reverse and draw2; four wilds and four wild draw fours. *)
Theorem create_deck_composition rnd :
  length (create_deck rnd) = 108%nat
  ∧ copies ("wild", "wild") (create_deck rnd) = 4%nat
  ∧ copies ("wild", "wild4") (create_deck rnd) = 4%nat
  ∧ ∀ color, color ∈ COLORS →
      copies (color, "0") (create_deck rnd) = 1%nat
      ∧ (∀ n, (1 <= n <= 9)%nat →
           copies (color, str_digit n) (create_deck rnd) = 2%nat)
      ∧ (∀ sp, sp ∈ ["skip"; "reverse"; "draw2"] →
           copies (color, sp) (create_deck rnd) = 2%nat).
Proof.
  split; [apply create_deck_length|].
  rewrite !(copies_Permutation _ _ _ (create_deck_Permutation rnd)).
  split; [by vm_compute|]. split; [by vm_compute|].
  intros color Hc.
  destruct (proj1 (Forall_forall _ _) unshuffled_deck_composition color Hc)
    as (H0 & Hn & Hsp).
  split; [|split].
  - by rewrite (copies_Permutation _ _ _ (create_deck_Permutation rnd)).
  - intros n Hn'.
    rewrite (copies_Permutation _ _ _ (create_deck_Permutation rnd)).
    apply (proj1 (Forall_forall _ _) Hn). apply elem_of_seq. lia.
  - intros sp Hsp'.
    rewrite (copies_Permutation _ _ _ (create_deck_Permutation rnd)).
    by apply (proj1 (Forall_forall _ _) Hsp).
Qed.

(** ** Card names are read in lower case *)

Lemma lower_ascii_idemp a : Py.lower_ascii (Py.lower_ascii a) = Py.lower_ascii a.
Proof. destruct a as [[] [] [] [] [] [] [] []]; by vm_compute. Qed.

Lemma lower_idemp s : Py.lower (Py.lower s) = Py.lower s.
Proof. induction s as [|a s IH]; simpl; [done|]. by rewrite lower_ascii_idemp, IH. Qed.

(** X2. [uno_play] reads its arguments through [str.lower]: a command
    whose card is typed in capitals does what the command typed in lower
    case does. *)
Theorem play_ignores_letter_case now cid uid args w :
  uno_play now cid uid args w = uno_play now cid uid (map Py.lower args) w.
Proof.
  assert (Hl : map Py.lower (map Py.lower args) = map Py.lower args).
  { rewrite <- list_fmap_compose. apply list_fmap_ext. intros _ s _. apply lower_idemp. }
  unfold uno_play. by rewrite Hl.
Qed.

(** ** Expiry and recovery *)

Lemma expired_false now g : expired now g ≠ true ↔ now - last_active g <= 86400.
Proof. unfold expired. rewrite bool_decide_eq_true. lia. Qed.

Lemma cleanup_old_games_lookup now w cid :
  GAMES (cleanup_old_games now w) !! cid
  = GAMES w !! cid ≫= (λ g, if expired now g then None else Some g).
Proof.
  unfold cleanup_old_games. cbv zeta.
  assert (H : (filter (λ kg : Z * game, expired now kg.2 ≠ true) (GAMES w)) !! cid
              = GAMES w !! cid ≫= (λ g, if expired now g then None else Some g)).
  { destruct (GAMES w !! cid) as [g|] eqn:Hg; simpl.
    - destruct (expired now g) eqn:He.
      + apply map_lookup_filter_None. right. intros g' Hg'. simpl.
        rewrite Hg in Hg'. injection Hg' as <-. rewrite He. by intros H.
      + apply map_lookup_filter_Some. split; [done|]. simpl. by rewrite He.
    - apply map_lookup_filter_None. by left. }
  case_decide; [done|]. by rewrite save_games_GAMES.
Qed.

Lemma cleanup_old_games_fixed now w :
  (∀ cid g, GAMES w !! cid = Some g → expired now g = false) →
  cleanup_old_games now w = w.
Proof.
  intros Hall. unfold cleanup_old_games. cbv zeta.
  assert (Hkeep : filter (λ kg : Z * game, expired now kg.2 ≠ true) (GAMES w) = GAMES w).
  { apply map_filter_id. intros cid g Hg. simpl. by rewrite (Hall _ _ Hg). }
  assert (Hrm : filter (λ kg : Z * game, expired now kg.2 = true) (GAMES w) = ∅).
  { apply map_empty_filter. intros cid g Hg. simpl. by rewrite (Hall _ _ Hg). }
  rewrite Hkeep, Hrm. rewrite decide_True by done. by destruct w.
Qed.

Lemma nothing_expired_iff now (G : gmap Z game) :
  filter (λ kg : Z * game, expired now kg.2 = true) G = ∅
  ↔ filter (λ kg : Z * game, expired now kg.2 ≠ true) G = G.
Proof.
  rewrite map_empty_filter. split.
  - intros H. apply map_filter_id. intros cid g Hg. exact (H cid g Hg).
  - intros H cid g Hg He. simpl in He.
    assert (Hin : filter (λ kg : Z * game, expired now kg.2 ≠ true) G !! cid = Some g)
      by (by rewrite H).
    apply map_lookup_filter_Some in Hin as [_ Hne]. by apply Hne.
Qed.

(** X3. [cleanup_old_games] removes exactly the sessions idle for more
    than 24 hours and leaves every other session and the statistics as they
    were.  It writes the games file only when it removed a session and one
    is left; and a second sweep at the same time changes nothing. *)
Theorem cleanup_old_games_removes_idle_sessions now w :
  (∀ cid, GAMES (cleanup_old_games now w) !! cid
          = GAMES w !! cid ≫= (λ g, if expired now g then None else Some g))
  ∧ STATS_FILE (cleanup_old_games now w) = STATS_FILE w
  ∧ (GAMES (cleanup_old_games now w) = GAMES w
     ∨ GAMES (cleanup_old_games now w) = ∅ →
     GAMES_FILE (cleanup_old_games now w) = GAMES_FILE w)
  ∧ (GAMES (cleanup_old_games now w) ≠ GAMES w →
     GAMES (cleanup_old_games now w) ≠ ∅ →
     durable (cleanup_old_games now w))
  ∧ cleanup_old_games now (cleanup_old_games now w) = cleanup_old_games now w.
Proof.
  split; [apply cleanup_old_games_lookup|].
  split; [unfold cleanup_old_games, save_games; cbv zeta; by repeat case_decide|].
  split; [|split].
  - unfold cleanup_old_games. cbv zeta.
    destruct (decide (filter (λ kg : Z * game, expired now kg.2 = true) (GAMES w) = ∅))
      as [Hrm|Hrm]; simpl; [done|].
    rewrite save_games_GAMES. simpl. intros [Heq|Heq].
    + by apply nothing_expired_iff in Heq.
    + unfold save_games. simpl. by rewrite decide_True.
  - unfold cleanup_old_games, durable. cbv zeta.
    destruct (decide (filter (λ kg : Z * game, expired now kg.2 = true) (GAMES w) = ∅))
      as [Hrm|Hrm]; simpl.
    + intros Hne. by apply nothing_expired_iff in Hrm.
    + rewrite save_games_GAMES. simpl. intros _ Hne.
      unfold save_games. simpl. by rewrite decide_False.
  - apply cleanup_old_games_fixed. intros cid g Hg.
    rewrite cleanup_old_games_lookup in Hg.
    destruct (GAMES w !! cid) as [g0|]; simpl in Hg; [|done].
    destruct (expired now g0) eqn:He; [done|]. by injection Hg as <-.
Qed.

Lemma restart_lookup now w cid :
  GAMES (restart now w) !! cid
  = (GAMES_FILE w ≫= (.!! cid)) ≫= (λ g, if expired now g then None else Some g).
Proof.
  unfold restart, initialize_games. simpl. rewrite decide_True by done.
  rewrite cleanup_old_games_lookup. unfold load_games. simpl.
  destruct (GAMES_FILE w) as [raw|]; simpl; [done|]. by rewrite lookup_empty.
Qed.

(** X4. A restart forgets what was in memory and loads the sessions of the
    games file that have not expired: a session of the file idle for more
    than 24 hours is dropped, the others come back as they were written. *)
Theorem restart_loads_unexpired_sessions now w cid :
  GAMES (restart now w) !! cid
  = (GAMES_FILE w ≫= (.!! cid)) ≫= (λ g, if expired now g then None else Some g).
Proof. apply restart_lookup. Qed.

(** X5. Save and restart round trip: when the games file holds the
    sessions in memory and none of them has been idle for more than 24
    hours, a restart gives back the very same state. *)
Theorem restart_restores_saved_sessions now w :
  durable w →
  (∀ cid g, GAMES w !! cid = Some g → now - last_active g <= 86400) →
  restart now w = w.
Proof.
  intros Hd Hall. unfold restart, initialize_games. simpl.
  rewrite decide_True by done. unfold load_games. simpl. rewrite Hd.
  rewrite cleanup_old_games_fixed.
  - by destruct w.
  - simpl. intros cid g Hg. unfold expired. apply bool_decide_eq_false.
    specialize (Hall cid g Hg). lia.
Qed.

Lemma restart_restores_saved_sessions_witness : restart 10 begun2 = begun2.
Proof.
  apply (restart_restores_saved_sessions 10 begun2).
  - vm_compute. reflexivity.
  - change (map_Forall (λ (_ : Z) g, 10 - last_active g <= 86400) (GAMES begun2)).
    apply (bool_decide_unpack _). vm_compute. exact I.
Defined.

(** ** What the game computations leave alone *)

Lemma seats_kept_refl g : seats_kept g g.
Proof. by split_and!; [..|left]. Qed.

Lemma seats_kept_trans g1 g2 g3 :
  seats_kept g1 g2 → seats_kept g2 g3 → seats_kept g1 g3.
Proof.
  intros (Hp & Hs & Hd) (Hp' & Hs' & Hd'). split_and!.
  - congruence.
  - auto.
  - destruct Hd as [Hd|Hd], Hd' as [Hd'|Hd']; rewrite Hd', Hd; [by left|by right|by right|].
    left. lia.
Qed.

Section KeepsSeats.
Context {A B : Type}.

Lemma keeps_ret (a : A) : keeps_seats (ret a).
Proof. intros g out. apply seats_kept_refl. Qed.

Lemma keeps_raise e : keeps_seats (raise (A:=A) e).
Proof. intros g out. apply seats_kept_refl. Qed.

Lemma keeps_try e (o : option A) : keeps_seats (try_ e o).
Proof. destruct o; [apply keeps_ret|apply keeps_raise]. Qed.

Lemma keeps_bind (m : M A) (k : A → M B) :
  keeps_seats m → (∀ a, keeps_seats (k a)) → keeps_seats (bind m k).
Proof.
  intros Hm Hk g out. unfold bind. specialize (Hm g out).
  destruct (m g out) as [[g1 out1] [a|e]]; simpl in *; [|done].
  eapply seats_kept_trans; [done|]. apply Hk.
Qed.
End KeepsSeats.

Lemma keeps_get : keeps_seats get.
Proof. intros g out. apply seats_kept_refl. Qed.

Lemma keeps_say r : keeps_seats (say r).
Proof. intros g out. apply seats_kept_refl. Qed.

Lemma keeps_modify f : (∀ g, seats_kept g (f g)) → keeps_seats (modify f).
Proof. intros H g out. apply H. Qed.

Create HintDb keeps.
#[local] Hint Resolve keeps_ret keeps_raise keeps_try keeps_get keeps_say keeps_bind
  keeps_modify seats_kept_refl : keeps.
#[local] Hint Extern 1 (seats_kept _ _) => (by split_and!; [..|left]) : keeps.

Lemma advance_turn_keeps : keeps_seats advance_turn.
Proof.
  unfold advance_turn. apply keeps_bind; [apply keeps_get|intros g].
  case_decide; eauto with keeps.
Qed.

Lemma pop_deck_keeps : keeps_seats pop_deck.
Proof. unfold pop_deck. eauto 40 with keeps. Qed.

Lemma pop_deck_n_keeps n : keeps_seats (pop_deck_n n).
Proof.
  induction n as [|n IH]; simpl; [apply keeps_ret|].
  apply keeps_bind; [apply pop_deck_keeps|intros c].
  apply keeps_bind; [apply IH|intros cs]. apply keeps_ret.
Qed.

Lemma current_player_keeps : keeps_seats current_player.
Proof. unfold current_player. eauto 40 with keeps. Qed.

Lemma extend_hand_keeps uid cards : keeps_seats (extend_hand uid cards).
Proof. unfold extend_hand. eauto 40 with keeps. Qed.

Lemma victim_draws_keeps n : keeps_seats (victim_draws n).
Proof.
  unfold victim_draws.
  apply keeps_bind; [apply advance_turn_keeps|intros ?].
  apply keeps_bind; [apply current_player_keeps|intros ?].
  apply keeps_bind; [apply pop_deck_n_keeps|intros ?].
  apply keeps_bind; [apply extend_hand_keeps|intros ?].
  apply keeps_bind; [apply keeps_say|intros ?].
  apply advance_turn_keeps.
Qed.

Lemma special_effect_keeps c : keeps_seats (special_effect c).
Proof.
  unfold special_effect. repeat case_decide.
  - apply keeps_bind; [apply advance_turn_keeps|intros ?]. apply advance_turn_keeps.
  - apply keeps_bind.
    + apply keeps_modify. intros g. split_and!; [done..|]. right. simpl. lia.
    + intros ?. apply keeps_bind; [apply keeps_get|intros g].
      apply keeps_bind; [|intros ?; apply advance_turn_keeps].
      case_decide; [apply advance_turn_keeps|apply keeps_ret].
  - apply victim_draws_keeps.
  - apply victim_draws_keeps.
  - apply advance_turn_keeps.
Qed.

Lemma place_card_keeps now uid c chosen : keeps_seats (place_card now uid c chosen).
Proof. unfold place_card. eauto 40 with keeps. Qed.

Lemma play_card_keeps now uid c chosen : keeps_seats (play_card now uid c chosen).
Proof.
  unfold play_card.
  apply keeps_bind; [apply place_card_keeps|intros ?]. apply special_effect_keeps.
Qed.

Lemma uno_draw_take_keeps rnd now uid : keeps_seats (uno_draw_take rnd now uid).
Proof.
  unfold uno_draw_take. apply keeps_bind; [apply keeps_get|intros g].
  apply keeps_bind; [case_decide; eauto 40 with keeps|intros ?].
  apply keeps_bind; [apply pop_deck_keeps|intros ?].
  apply keeps_bind; [apply extend_hand_keeps|intros ?].
  eauto 40 with keeps.
Qed.

Lemma uno_draw_pass_keeps c : keeps_seats (uno_draw_pass c).
Proof.
  unfold uno_draw_pass. apply keeps_bind; [apply keeps_try|intros ?].
  apply keeps_bind; [apply keeps_say|intros ?].
  apply keeps_bind; [apply advance_turn_keeps|intros ?].
  apply keeps_bind; [apply current_player_keeps|intros ?]. apply keeps_say.
Qed.

Lemma deal_keeps uids : keeps_seats (deal uids).
Proof.
  induction uids as [|uid uids IH]; cbn [deal]; [apply keeps_ret|].
  apply keeps_bind; [apply pop_deck_n_keeps|intros ?].
  apply keeps_bind; [|intros ?; apply IH]. eauto 40 with keeps.
Qed.

Lemma uno_begin_deal_keeps rnd now : keeps_seats (uno_begin_deal rnd now).
Proof.
  unfold uno_begin_deal. apply keeps_bind; [apply keeps_get|intros g].
  apply keeps_bind; [apply deal_keeps|intros ?].
  apply keeps_bind; [apply pop_deck_keeps|intros top].
  apply keeps_bind; [eauto 40 with keeps|intros ?].
  apply keeps_bind; [case_decide; eauto 40 with keeps|intros ?].
  eauto 40 with keeps.
Qed.

Lemma uno_begin_announce_keeps top : keeps_seats (uno_begin_announce top).
Proof.
  unfold uno_begin_announce.
  apply keeps_bind; [apply current_player_keeps|intros ?]. eauto 40 with keeps.
Qed.

(** ** What a command does to the sessions *)

Lemma save_games_FILE w :
  GAMES_FILE (save_games w) = GAMES_FILE w
  ∨ GAMES_FILE (save_games w) = Some (GAMES (save_games w)).
Proof. unfold save_games. case_decide; [by left|by right]. Qed.

Lemma save_games_STATS w : STATS_FILE (save_games w) = STATS_FILE w.
Proof. unfold save_games. by case_decide. Qed.

Lemma run_effect c w :
  (STATS_FILE (run c w).1 = STATS_FILE w
   ∧ (GAMES (run c w).1 = GAMES w
      ∨ ∃ g', GAMES (run c w).1 = <[chat_of c := g']> (GAMES w) ∧ written_by c w g'))
  ∨ (GAMES (run c w).1 = delete (chat_of c) (GAMES w)
     ∧ is_Some (GAMES w !! chat_of c)
     ∧ ((c = Reset (chat_of c) ∧ STATS_FILE (run c w).1 = STATS_FILE w)
        ∨ ∃ now uid args,
            c = Play now (chat_of c) uid args
            ∧ last (replies (run c w).2) = Some (R_Won uid)
            ∧ raised (run c w).2 = None
            ∧ STATS_FILE (run c w).1 = record_win (chat_of c) uid (STATS_FILE w))).
Proof.
  destruct c as [rnd now cid|now cid uid|rnd now cid|now cid uid args|
                 rnd now cid uid|cid|cid]; simpl.
  - left. unfold uno_start. rewrite save_games_STATS, save_games_GAMES.
    split; [done|]. right. exists (new_game rnd now). split; [done|]. left.
    by exists rnd, now, cid.
  - unfold uno_join.
    destruct (GAMES w !! cid) as [game|] eqn:Hg; [|by left; split; [|left]].
    destruct (started game) eqn:Hs; [by left; split; [|left]|].
    destruct (Py.contains uid (players game)) eqn:Hin; [by left; split; [|left]|].
    left. simpl. rewrite save_games_STATS, save_games_GAMES. split; [done|].
    right. eexists. split; [done|].
    right; left. exists game, now, cid, uid. split_and!; try done.
    intros Hel. apply contains_true in Hel. congruence.
  - unfold uno_begin.
    destruct (GAMES w !! cid) as [game|] eqn:Hg; [|by left; split; [|left]].
    destruct (started game) eqn:Hs; [by left; split; [|left]|].
    case_decide as Hn; [by left; split; [|left]|].
    pose proof (uno_begin_deal_keeps rnd now game []) as Hk.
    destruct (uno_begin_deal rnd now game []) as [[g1 out1] [top|e]]; simpl in Hk.
    + pose proof (uno_begin_announce_game top g1 out1) as Hg2.
      destruct (uno_begin_announce top g1 out1) as [[g2 out2] [[]|e]];
        simpl in Hg2; subst g2; simpl; rewrite save_games_STATS, save_games_GAMES;
        simpl; rewrite insert_insert_eq; left; (split; [done|]); right; exists g1;
        (split; [done|]);
        right; right; exists game; split_and!; try done; right;
        exists rnd, now, cid; (split; [done|lia]).
    + left. split; [done|]. right. exists g1. split; [done|].
      right; right. exists game. split_and!; try done. right.
      exists rnd, now, cid. split; [done|lia].
  - destruct (uno_play_checks now cid uid args w)
      as [(game & c & chosen & top_card & (Hg & Hs & Hi) & _ & _ & _ & _ & Heq)|Heq];
      [|left; rewrite Heq; by split; [|left]].
    rewrite Heq. unfold uno_play_commit.
    pose proof (play_card_keeps now uid c chosen game []) as Hk.
    destruct (play_card now uid c chosen game []) as [[g1 out1] [[]|e]]; simpl in Hk.
    + cbv zeta. case_decide.
      * right. simpl. rewrite save_games_STATS, save_games_GAMES. simpl.
        rewrite delete_insert_eq. split; [done|]. split; [by rewrite Hg|].
        right. exists now, uid, args. split_and!; try done. apply last_snoc.
      * left. destruct (Py.index (players g1) (current g1)); simpl;
          rewrite save_games_STATS, save_games_GAMES; (split; [done|]);
          right; exists g1; (split; [done|]);
          right; right; exists game; split_and!; try done; by left.
    + left. split; [done|]. right. exists g1. split; [done|].
      right; right. exists game. split_and!; try done. by left.
  - unfold uno_draw.
    destruct (GAMES w !! cid) as [game|] eqn:Hg; [|by left; split; [|left]].
    destruct (started game) eqn:Hs; [|by left; split; [|left]]. simpl.
    destruct (Py.index (players game) (current game)) as [p|];
      [|by left; split; [|left]].
    case_decide; [by left; split; [|left]|].
    pose proof (uno_draw_take_keeps rnd now uid game []) as Hk.
    destruct (uno_draw_take rnd now uid game []) as [[g1 out1] [c|e]]; simpl in Hk.
    + pose proof (uno_draw_pass_keeps c g1 out1) as Hk2.
      destruct (uno_draw_pass c g1 out1) as [[g2 out2] [[]|e]]; simpl in Hk2;
        simpl; rewrite save_games_STATS, save_games_GAMES; simpl;
        rewrite insert_insert_eq; left; (split; [done|]);
        right; exists g2; (split; [done|]);
        right; right; exists game; split_and!; try done;
        [by eapply seats_kept_trans|by left|by eapply seats_kept_trans|by left].
    + left. split; [done|]. right. exists g1. split; [done|].
      right; right. exists game. split_and!; try done. by left.
  - unfold uno_reset.
    destruct (GAMES w !! cid) as [game|] eqn:Hg; [|by left; split; [|left]].
    right. simpl. rewrite save_games_STATS, save_games_GAMES. split_and!; try done.
    by left.
  - left. by rewrite uno_status_unchanged; split; [|left].
Qed.

Lemma run_sessions c w cid g :
  GAMES (run c w).1 !! cid = Some g →
  GAMES w !! cid = Some g ∨ (cid = chat_of c ∧ written_by c w g).
Proof.
  destruct (run_effect c w) as [[_ [->|(g' & -> & Hw)]]|(-> & _)]; [by left| |].
  - destruct (decide (cid = chat_of c)) as [->|Hne].
    + rewrite lookup_insert_eq. intros [= <-]. by right.
    + rewrite lookup_insert_ne by done. by left.
  - intros Hd. apply lookup_delete_Some in Hd as [_ Hd]. by left.
Qed.

Lemma file_after_save w0 w raw cid g :
  GAMES_FILE (save_games w) = Some raw → raw !! cid = Some g →
  GAMES_FILE w = GAMES_FILE w0 →
  (∃ raw0, GAMES_FILE w0 = Some raw0 ∧ raw0 !! cid = Some g)
  ∨ GAMES w !! cid = Some g.
Proof.
  unfold save_games. case_decide; simpl.
  - intros ? ? <-. left. eauto.
  - intros [= <-] ? _. by right.
Qed.

Lemma run_file_sessions c w raw cid g :
  GAMES_FILE (run c w).1 = Some raw → raw !! cid = Some g →
  (∃ raw0, GAMES_FILE w = Some raw0 ∧ raw0 !! cid = Some g)
  ∨ GAMES w !! cid = Some g
  ∨ written_by c w g.
Proof.
  assert (Hins : ∀ g1 (P : Prop), written_by c w g1 →
            <[chat_of c := g1]> (GAMES w) !! cid = Some g →
            P ∨ GAMES w !! cid = Some g ∨ written_by c w g).
  { intros g1 P Hw. destruct (decide (cid = chat_of c)) as [->|Hne].
    - rewrite lookup_insert_eq. intros [= <-]. by right; right.
    - rewrite lookup_insert_ne by done. by right; left. }
  assert (Hold : ∀ P Q : Prop, GAMES_FILE w = Some raw → raw !! cid = Some g →
            (∃ raw0, GAMES_FILE w = Some raw0 ∧ raw0 !! cid = Some g) ∨ P ∨ Q).
  { intros P Q ? ?. left. eauto. }
  destruct c as [rnd now cid0|now cid0 uid|rnd now cid0|now cid0 uid args|
                 rnd now cid0 uid|cid0|cid0]; simpl in *.
  - unfold uno_start. simpl. intros Hf Hr.
    destruct (file_after_save w _ _ _ _ Hf Hr eq_refl) as [?|Hg]; [by left|].
    eapply Hins; [|exact Hg]. left. by exists rnd, now, cid0.
  - unfold uno_join.
    destruct (GAMES w !! cid0) as [game|] eqn:Hg; [|by apply Hold].
    destruct (started game) eqn:Hs; [by apply Hold|].
    destruct (Py.contains uid (players game)) eqn:Hin; [by apply Hold|].
    simpl. intros Hf Hr.
    destruct (file_after_save w _ _ _ _ Hf Hr eq_refl) as [?|Hg']; [by left|].
    eapply Hins; [|exact Hg'].
    right; left. exists game, now, cid0, uid. split_and!; try done.
    intros Hel. apply contains_true in Hel. congruence.
  - unfold uno_begin.
    destruct (GAMES w !! cid0) as [game|] eqn:Hg; [|by apply Hold].
    destruct (started game) eqn:Hs; [by apply Hold|].
    case_decide as Hn; [by apply Hold|].
    pose proof (uno_begin_deal_keeps rnd now game []) as Hk.
    destruct (uno_begin_deal rnd now game []) as [[g1 out1] [top|e]]; simpl in Hk;
      [|by apply Hold].
    assert (Hw : written_by (Begin rnd now cid0) w g1).
    { right; right. exists game. split_and!; try done. right.
      exists rnd, now, cid0. split; [done|lia]. }
    destruct (uno_begin_announce top g1 out1) as [[g2 out2] [[]|e]]; simpl;
      intros Hf Hr;
      (destruct (file_after_save w _ _ _ _ Hf Hr eq_refl) as [?|Hg']; [by left|]);
      (eapply Hins; [|exact Hg']); done.
  - destruct (uno_play_checks now cid0 uid args w)
      as [(game & c & chosen & top_card & (Hg & Hs & Hi) & _ & _ & _ & _ & Heq)|Heq];
      [|rewrite Heq; by apply Hold].
    rewrite Heq. unfold uno_play_commit.
    pose proof (play_card_keeps now uid c chosen game []) as Hk.
    destruct (play_card now uid c chosen game []) as [[g1 out1] [[]|e]]; simpl in Hk;
      [|by apply Hold].
    assert (Hw : written_by (Play now cid0 uid args) w g1).
    { right; right. exists game. split_and!; try done. by left. }
    cbv zeta. case_decide.
    + simpl. intros Hf Hr.
      destruct (file_after_save w _ _ _ _ Hf Hr eq_refl) as [?|Hg']; [by left|].
      simpl in Hg'. rewrite delete_insert_eq in Hg'.
      apply lookup_delete_Some in Hg' as [_ Hg']. by right; left.
    + destruct (Py.index (players g1) (current g1)); simpl; intros Hf Hr;
        (destruct (file_after_save w _ _ _ _ Hf Hr eq_refl) as [?|Hg']; [by left|]);
        (eapply Hins; [|exact Hg']); done.
  - unfold uno_draw.
    destruct (GAMES w !! cid0) as [game|] eqn:Hg; [|by apply Hold].
    destruct (started game) eqn:Hs; [|by apply Hold]. simpl.
    destruct (Py.index (players game) (current game)) as [p|]; [|by apply Hold].
    case_decide; [by apply Hold|].
    pose proof (uno_draw_take_keeps rnd now uid game []) as Hk.
    destruct (uno_draw_take rnd now uid game []) as [[g1 out1] [c|e]]; simpl in Hk;
      [|by apply Hold].
    assert (Hw : written_by (Draw rnd now cid0 uid) w g1).
    { right; right. exists game. split_and!; try done. by left. }
    destruct (uno_draw_pass c g1 out1) as [[g2 out2] [[]|e]]; simpl;
      intros Hf Hr;
      (destruct (file_after_save w _ _ _ _ Hf Hr eq_refl) as [?|Hg']; [by left|]);
      (eapply Hins; [|exact Hg']); done.
  - unfold uno_reset.
    destruct (GAMES w !! cid0) as [game|] eqn:Hg; [|by apply Hold].
    simpl. intros Hf Hr.
    destruct (file_after_save w _ _ _ _ Hf Hr eq_refl) as [?|Hg']; [by left|].
    simpl in Hg'. apply lookup_delete_Some in Hg' as [_ Hg']. by right; left.
  - rewrite uno_status_unchanged. by apply Hold.
Qed.

(** ** The shape of the sessions *)

Lemma written_by_tidy c w g' :
  (∀ cid g, GAMES w !! cid = Some g → tidy g) → written_by c w g' → tidy g'.
Proof.
  intros Hw [(rnd & now & cid & _ & ->)|[(g & now & cid & uid & _ & Hg & Hs & Hnin & ->)
                                        |(g & Hg & (Hp & Hs & Hd) & Hn)]].
  - split_and!; [apply NoDup_nil_2|by left|done].
  - destruct (Hw _ _ Hg) as (Hnd & Hdir & _). split_and!; simpl; [|done|by rewrite Hs].
    apply NoDup_app. split_and!; [done| |apply NoDup_singleton].
    intros x Hx Hx'. apply list_elem_of_singleton in Hx'. by subst.
  - destruct (Hw _ _ Hg) as (Hnd & Hdir & Hst). split_and!.
    + by rewrite Hp.
    + lia.
    + intros _. rewrite Hp. destruct Hn as [Hn|(? & ? & ? & _ & Hn)]; auto.
Qed.

Lemma run_tidy c w : all_tidy w → all_tidy (run c w).1.
Proof.
  intros [Hm Hf]. split.
  - intros cid g [Hg|[_ Hg]]%run_sessions; [by eapply Hm|by eapply written_by_tidy].
  - intros raw cid g Hr Hg.
    destruct (run_file_sessions _ _ _ _ _ Hr Hg) as [(raw0 & H0 & Hg0)|[Hg0|Hg0]].
    + by eapply Hf.
    + by eapply Hm.
    + by eapply written_by_tidy.
Qed.

Lemma cleanup_old_games_FILE now w :
  GAMES_FILE (cleanup_old_games now w) = GAMES_FILE w
  ∨ GAMES_FILE (cleanup_old_games now w) = Some (GAMES (cleanup_old_games now w)).
Proof.
  unfold cleanup_old_games. cbv zeta. case_decide; [by left|].
  destruct (save_games_FILE
              (set_GAMES (filter (λ kg : Z * game, expired now kg.2 ≠ true) (GAMES w)) w))
    as [H'|H']; [by left|by right].
Qed.

Lemma restart_sessions now w cid g :
  GAMES (restart now w) !! cid = Some g →
  ∃ raw, GAMES_FILE w = Some raw ∧ raw !! cid = Some g.
Proof.
  unfold restart, initialize_games. simpl. rewrite decide_True by done.
  rewrite cleanup_old_games_lookup. unfold load_games. simpl.
  destruct (GAMES_FILE w) as [raw|]; simpl; [|by rewrite lookup_empty].
  destruct (raw !! cid) as [g0|] eqn:Hg0; simpl; [|done].
  destruct (expired now g0); [done|]. intros [= <-]. eauto.
Qed.

Lemma restart_FILE now w :
  GAMES_FILE (restart now w) = GAMES_FILE w
  ∨ GAMES_FILE (restart now w) = Some (GAMES (restart now w)).
Proof.
  unfold restart, initialize_games. simpl. rewrite decide_True by done.
  destruct (cleanup_old_games_FILE now (load_games (set_GAMES ∅ w))) as [H|H].
  - left. rewrite H. unfold load_games. simpl. by destruct (GAMES_FILE w) eqn:E.
  - by right.
Qed.

Lemma restart_tidy now w : all_tidy w → all_tidy (restart now w).
Proof.
  intros [Hm Hf].
  assert (Hm' : ∀ cid g, GAMES (restart now w) !! cid = Some g → tidy g).
  { intros cid g (raw & Hr & Hg)%restart_sessions. by eapply Hf. }
  split; [done|]. intros raw cid g Hr Hg.
  destruct (restart_FILE now w) as [H|H]; rewrite H in Hr.
  - by eapply Hf.
  - injection Hr as <-. by eapply Hm'.
Qed.

Lemma reachable_all_tidy w : reachable w → all_tidy w.
Proof.
  induction 1 as [w Hg Hf|c w _ IH|now w _ IH].
  - split.
    + intros cid g. by rewrite Hg, lookup_empty.
    + intros raw cid g. by rewrite Hf.
  - by apply run_tidy.
  - by apply restart_tidy.
Qed.

Lemma uno_hand_effect now cid uid w :
  (uno_hand now cid uid w).1 = w
  ∨ ∃ g, GAMES w !! cid = Some g
         ∧ (uno_hand now cid uid w).1
           = save_games (store cid (set_last_active now g) w).
Proof.
  unfold uno_hand. destruct (GAMES w !! cid) as [g|]; [|by left].
  destruct (started g); [|by left]. simpl. case_decide; [by left|].
  right. exists g. split; [done|]. by destruct (show_hand _).
Qed.

Lemma uno_hand_sound now cid uid w : sound w → sound (uno_hand now cid uid w).1.
Proof.
  intros Hw. destruct (uno_hand_effect now cid uid w) as [->|(g & Hg & ->)]; [done|].
  apply sound_save, sound_store; [done|].
  apply wf_set_last_active. exact (proj1 Hw _ _ Hg).
Qed.

Lemma uno_hand_tidy now cid uid w : all_tidy w → all_tidy (uno_hand now cid uid w).1.
Proof.
  intros [Hm Hf].
  destruct (uno_hand_effect now cid uid w) as [->|(g & Hg & ->)]; [done|].
  assert (Hm' : ∀ cid0 g0,
            GAMES (store cid (set_last_active now g) w) !! cid0 = Some g0 → tidy g0).
  { intros cid0 g0. simpl. destruct (decide (cid0 = cid)) as [->|Hne].
    - rewrite lookup_insert_eq. intros [= <-]. exact (Hm _ _ Hg).
    - rewrite lookup_insert_ne by done. apply Hm. }
  split.
  - intros cid0 g0. rewrite save_games_GAMES. apply Hm'.
  - intros raw cid0 g0 Hr Hg0.
    destruct (file_after_save w _ _ _ _ Hr Hg0 eq_refl) as [(raw0 & H0 & Hg1)|Hg1].
    + by eapply Hf.
    + by eapply Hm'.
Qed.

Lemma attainable_invariants w : attainable w → sound w ∧ all_tidy w.
Proof.
  induction 1 as [w Hg Hf|c w _ [IH1 IH2]|now cid uid w _ [IH1 IH2]|now w _ [IH1 IH2]].
  - split; split.
    + intros cid g. by rewrite Hg, lookup_empty.
    + intros raw cid g. by rewrite Hf.
    + intros cid g. by rewrite Hg, lookup_empty.
    + intros raw cid g. by rewrite Hf.
  - split; [by apply run_sound|by apply run_tidy].
  - split; [by apply uno_hand_sound|by apply uno_hand_tidy].
  - split; [by apply restart_sound|by apply restart_tidy].
Qed.

Lemma reachable_attainable w : reachable w → attainable w.
Proof.
  induction 1; [by apply attain_boot|by apply attain_run|by apply attain_restart].
Qed.

Lemma attainable_session w cid g :
  attainable w → GAMES w !! cid = Some g → well_formed g ∧ tidy g.
Proof.
  intros [Hs Ht]%attainable_invariants Hg. split.
  - exact (proj1 Hs cid g Hg).
  - exact (proj1 Ht cid g Hg).
Qed.

(** X6. In every state the bot can reach, each session has its players
    listed once ([uno_join] refuses a second join), its direction is 1 or
    -1, and, once started, at least two players. *)
Theorem attainable_sessions_are_tidy w cid g :
  attainable w →
  GAMES w !! cid = Some g →
  NoDup (players g)
  ∧ (direction g = 1 ∨ direction g = -1)
  ∧ (started g = true → (2 <= length (players g))%nat).
Proof. intros Hr Hg. exact (proj2 (attainable_session w cid g Hr Hg)). Qed.

Lemma attainable_sessions_are_tidy_witness :
  NoDup (players (session short_deck))
  ∧ (direction (session short_deck) = 1 ∨ direction (session short_deck) = -1)
  ∧ (started (session short_deck) = true →
     (2 <= length (players (session short_deck)))%nat).
Proof.
  apply (attainable_sessions_are_tidy short_deck 100 (session short_deck)).
  - apply reachable_attainable, reachable_short_deck.
  - vm_compute. reflexivity.
Defined.

Lemma run_other_chat c w cid :
  cid ≠ chat_of c → GAMES (run c w).1 !! cid = GAMES w !! cid.
Proof.
  intros Hne.
  destruct (run_effect c w) as [[_ [->|(g' & -> & _)]]|(-> & _)]; [done| |].
  - by rewrite lookup_insert_ne.
  - by rewrite lookup_delete_ne.
Qed.

(** X7. Sessions are isolated: a command sent in one chat leaves the
    session of every other chat exactly as it was. *)
Theorem other_chats_are_untouched c w cid :
  cid ≠ chat_of c →
  GAMES (run c w).1 !! cid = GAMES w !! cid.
Proof. apply run_other_chat. Qed.

Lemma other_chats_are_untouched_witness :
  GAMES (run (Play 5 100 1 ["wild"; "red"]) two_chats).1 !! 200
  = GAMES two_chats !! 200.
Proof.
  apply (other_chats_are_untouched (Play 5 100 1 ["wild"; "red"]) two_chats 200).
  vm_compute. discriminate.
Defined.

(** X8. A session ends only by [uno_reset] or by a win: when a command
    removes the session of a chat, it is the reset of that chat, or a play
    in that chat that returns, announces its player as the winner and adds
    one to that player's wins. *)
Theorem session_ends_by_reset_or_win c w cid g :
  GAMES w !! cid = Some g →
  GAMES (run c w).1 !! cid = None →
  c = Reset cid
  ∨ ∃ now uid args,
      c = Play now cid uid args
      ∧ raised (run c w).2 = None
      ∧ last (replies (run c w).2) = Some (R_Won uid)
      ∧ STATS_FILE (run c w).1 = record_win cid uid (STATS_FILE w).
Proof.
  intros Hg Hnone.
  destruct (decide (cid = chat_of c)) as [->|Hne];
    [|by rewrite run_other_chat, Hg in Hnone].
  destruct (run_effect c w) as [[_ [Heq|(g' & Heq & _)]]|(_ & _ & Hc)].
  - by rewrite Heq, Hg in Hnone.
  - by rewrite Heq, lookup_insert_eq in Hnone.
  - destruct Hc as [[Hc _]|(now & uid & args & Hc & Hlast & Hok & Hst)]; [by left|].
    right. exists now, uid, args. done.
Qed.

Lemma session_ends_by_reset_or_win_witness :
  Reset 100 = Reset 100
  ∨ ∃ now uid args,
      Reset 100 = Play now 100 uid args
      ∧ raised (run (Reset 100) begun2).2 = None
      ∧ last (replies (run (Reset 100) begun2).2) = Some (R_Won uid)
      ∧ STATS_FILE (run (Reset 100) begun2).1 = record_win 100 uid (STATS_FILE begun2).
Proof.
  apply (session_ends_by_reset_or_win (Reset 100) begun2 100 (session begun2));
    vm_compute; reflexivity.
Defined.

(** X9. The statistics change only by a win: a command leaves
    uno_stats.json as it was, unless it is a play that ends the session of
    its chat and announces its player as the winner; then exactly that
    player's count in that chat goes up by one. *)
Theorem stats_change_only_by_a_win c w :
  STATS_FILE (run c w).1 = STATS_FILE w
  ∨ ∃ now cid uid args,
      c = Play now cid uid args
      ∧ is_Some (GAMES w !! cid)
      ∧ GAMES (run c w).1 !! cid = None
      ∧ last (replies (run c w).2) = Some (R_Won uid)
      ∧ STATS_FILE (run c w).1 !! cid ≫= (.!! uid)
        = Some (default 0 (STATS_FILE w !! cid ≫= (.!! uid)) + 1)
      ∧ ∀ cid' uid', (cid', uid') ≠ (cid, uid) →
          STATS_FILE (run c w).1 !! cid' ≫= (.!! uid')
          = STATS_FILE w !! cid' ≫= (.!! uid').
Proof.
  destruct (run_effect c w) as [[? _]|(Hd & Hs & Hc)]; [by left|].
  destruct Hc as [[_ ?]|(now & uid & args & Hc & Hlast & Hok & Hst)]; [by left|].
  right. exists now, (chat_of c), uid, args. split_and!; try done.
  - by rewrite Hd, lookup_delete_eq.
  - rewrite Hst. apply record_win_count.
  - intros cid' uid' Hne. rewrite Hst. by apply record_win_other.
Qed.

(** X10. A started game keeps its seats: whatever command runs, the
    session of a started game is either replaced by the new game of an
    [uno_start] in its chat, or it still has the same players in the same
    order and is still started. *)
Theorem started_game_keeps_its_players c w cid g g' :
  GAMES w !! cid = Some g →
  started g = true →
  GAMES (run c w).1 !! cid = Some g' →
  (∃ rnd now, c = Start rnd now cid ∧ g' = new_game rnd now)
  ∨ (players g' = players g ∧ started g' = true).
Proof.
  intros Hg Hs Hg'.
  apply run_sessions in Hg' as [Hg'|[-> Hw]].
  - right. rewrite Hg in Hg'. by injection Hg' as <-.
  - destruct Hw as [(rnd & now & cid & Hc & ->)|[(g0 & now & cid & uid & Hc & Hg0 & Hs0 & _)
                                                |(g0 & Hg0 & (Hp & Hst & _) & _)]].
    + left. exists rnd, now. by subst c.
    + subst c. simpl in Hg. rewrite Hg in Hg0. injection Hg0 as <-. congruence.
    + rewrite Hg in Hg0. injection Hg0 as <-. right. auto.
Qed.

Lemma started_game_keeps_its_players_witness :
  (∃ rnd now, draw_by1 = Start rnd now 100
              ∧ session (run draw_by1 begun2).1 = new_game rnd now)
  ∨ (players (session (run draw_by1 begun2).1) = players (session begun2)
     ∧ started (session (run draw_by1 begun2).1) = true).
Proof.
  apply (started_game_keeps_its_players draw_by1 begun2 100);
    vm_compute; reflexivity.
Defined.

(** ** Joining and dealing *)

Lemma uno_join_run now cid uid w g :
  GAMES w !! cid = Some g → started g = false → uid ∉ players g →
  uno_join now cid uid w =
    (save_games (store cid (set_last_active now (set_players (players g ++ [uid]) g)) w),
     said [R_Joined uid (length (players g ++ [uid]))]).
Proof.
  intros Hg Hs Hnin. unfold uno_join. rewrite Hg, Hs.
  destruct (Py.contains uid (players g)) eqn:Hc; [|done].
  by apply contains_true in Hc.
Qed.

Lemma joins_run now cid uids : ∀ w g,
  GAMES w !! cid = Some g → started g = false → NoDup (players g ++ uids) →
  GAMES (run_all (map (Join now cid) uids) w) !! cid
  = Some (if decide (uids = []) then g
          else set_last_active now (set_players (players g ++ uids) g)).
Proof.
  induction uids as [|uid uids IH]; intros w g Hg Hs Hnd; [done|].
  cbn [map run_all run]. rewrite decide_False by done.
  apply NoDup_app in Hnd as (Hnd1 & Hnd2 & Hnd3).
  assert (Hnin : uid ∉ players g) by (intros Hin; apply (Hnd2 _ Hin); left).
  rewrite (uno_join_run _ _ _ _ _ Hg Hs Hnin). cbn [fst].
  rewrite (IH _ (set_last_active now (set_players (players g ++ [uid]) g))).
  - case_decide as Hu; [by subst uids|].
    unfold set_last_active, set_players. simpl. by rewrite <- app_assoc.
  - rewrite save_games_GAMES. simpl. apply lookup_insert_eq.
  - done.
  - simpl. rewrite <- app_assoc. simpl. apply NoDup_app. by split_and!.
Qed.

(** X11. Players are seated in the order they join: after [uno_join] by
    users who are not yet in the unstarted session, one after the other,
    the list of players is the old list followed by these users in that
    order, and nothing else of the session but the time of last activity
    has changed; a further [uno_join] by any of them is refused and changes
    nothing. *)
Theorem joins_seat_players_in_order now cid uids w g :
  GAMES w !! cid = Some g →
  started g = false →
  NoDup (players g ++ uids) →
  uids ≠ [] →
  GAMES (run_all (map (Join now cid) uids) w) !! cid
  = Some (set_last_active now (set_players (players g ++ uids) g))
  ∧ ∀ now' uid, uid ∈ players g ++ uids →
      run (Join now' cid uid) (run_all (map (Join now cid) uids) w)
      = (run_all (map (Join now cid) uids) w, said [R_AlreadyJoined]).
Proof.
  intros Hg Hs Hnd Hne.
  pose proof (joins_run now cid uids w g Hg Hs Hnd) as Hrun.
  rewrite decide_False in Hrun by done. split; [done|].
  intros now' uid Hin. simpl. unfold uno_join. rewrite Hrun. simpl. rewrite Hs.
  destruct (Py.contains uid (players g ++ uids)) eqn:Hc; [done|].
  apply contains_true in Hin. congruence.
Qed.

Lemma joins_seat_players_in_order_witness :
  GAMES (run_all (map (Join 1 100) [1; 2]) (uno_start keep_order 0 100 world0).1) !! 100
  = Some (set_last_active 1
            (set_players (players (new_game keep_order 0) ++ [1; 2])
               (new_game keep_order 0)))
  ∧ ∀ now' uid, uid ∈ players (new_game keep_order 0) ++ [1; 2] →
      run (Join now' 100 uid)
        (run_all (map (Join 1 100) [1; 2]) (uno_start keep_order 0 100 world0).1)
      = (run_all (map (Join 1 100) [1; 2]) (uno_start keep_order 0 100 world0).1,
         said [R_AlreadyJoined]).
Proof.
  apply (joins_seat_players_in_order 1 100 [1; 2]
           (uno_start keep_order 0 100 world0).1 (new_game keep_order 0)).
  - vm_compute. reflexivity.
  - reflexivity.
  - apply (bool_decide_unpack _). vm_compute. exact I.
  - discriminate.
Defined.

Lemma pop_deck_n_rev n g out :
  (n <= length (deck g))%nat →
  pop_deck_n n g out =
    (set_deck (take (length (deck g) - n) (deck g)) g, out,
     Ok (take n (reverse (deck g)))).
Proof.
  intros Hn.
  rewrite (pop_deck_n_enough n g out (take (length (deck g) - n) (deck g))
             (drop (length (deck g) - n) (deck g))).
  - rewrite reverse_drop. do 3 f_equal. lia.
  - by rewrite take_drop.
  - rewrite length_drop. lia.
Qed.

Lemma deal_run uids : ∀ g out,
  (7 * length uids <= length (deck g))%nat →
  NoDup uids →
  ∃ g', deal uids g out = (g', out, Ok tt)
    ∧ g' = set_hands (hands g') (set_deck (deck g') g)
    ∧ deck g' = take (length (deck g) - 7 * length uids) (deck g)
    ∧ (∀ i p, uids !! i = Some p →
         hands g' !! p = Some (take 7 (drop (7 * i) (reverse (deck g)))))
    ∧ (∀ p, p ∉ uids → hands g' !! p = hands g !! p).
Proof.
  induction uids as [|uid uids IH]; intros g out Hlen Hnd.
  - exists g. cbn [deal]. split_and!; try done.
    + by destruct g.
    + simpl. rewrite Nat.sub_0_r. by rewrite firstn_all.
  - apply NoDup_cons in Hnd as [Hnin Hnd]. cbn [length] in Hlen.
    cbn [deal]. unfold bind at 1.
    rewrite pop_deck_n_rev by lia. unfold bind at 1. unfold modify at 1.
    set (g1 := set_hands (<[uid := take 7 (reverse (deck g))]>
                            (hands (set_deck (take (length (deck g) - 7) (deck g)) g)))
                 (set_deck (take (length (deck g) - 7) (deck g)) g)).
    assert (Hd1 : deck g1 = take (length (deck g) - 7) (deck g)) by done.
    assert (Hl1 : length (deck g1) = (length (deck g) - 7)%nat).
    { rewrite Hd1, length_take. lia. }
    destruct (IH g1 out) as (g' & Hrun & Hg' & Hdeck & Hh & Hother); [lia|done|].
    exists g'. split; [done|]. split_and!.
    + rewrite Hg'. by destruct g.
    + rewrite Hdeck, Hl1, Hd1, take_take. f_equal. cbn [length]. lia.
    + intros [|i] p Hp.
      * injection Hp as ->. rewrite Hother by done. simpl.
        by rewrite lookup_insert_eq.
      * simpl in Hp. rewrite (Hh i p Hp). rewrite Hd1, reverse_take, drop_drop.
        do 3 f_equal. lia.
    + intros p Hp. apply not_elem_of_cons in Hp as [Hne Hp].
      rewrite Hother by done. simpl. by rewrite lookup_insert_ne.
Qed.

Lemma choice_COLORS rnd : ∃ color, Py.choice rnd COLORS = Some color ∧ color ∈ COLORS.
Proof.
  unfold Py.choice.
  destruct (lookup_lt_is_Some_2 COLORS (rnd 0%nat `mod` length COLORS)%nat) as [c Hc].
  { apply Nat.mod_upper_bound. simpl. lia. }
  exists c. split; [done|]. by eapply list_elem_of_lookup_2.
Qed.

Lemma uno_begin_deal_run rnd now g out :
  (7 * length (players g) + 1 <= length (deck g))%nat →
  NoDup (players g) →
  ∃ g' top color,
    uno_begin_deal rnd now g out = (g', out, Ok top)
    ∧ reverse (deck g) !! (7 * length (players g))%nat = Some top
    ∧ (if decide (top.1 = "wild") then Py.choice rnd COLORS = Some color
       else color = top.1)
    ∧ g' = {| players := players g;
              hands := hands g';
              deck := take (length (deck g) - 7 * length (players g) - 1) (deck g);
              pile := pile g ++ [top];
              current := current g;
              direction := direction g;
              current_color := Some color;
              started := true;
              last_active := now |}
    ∧ (∀ i p, players g !! i = Some p →
         hands g' !! p = Some (take 7 (drop (7 * i) (reverse (deck g)))))
    ∧ (∀ p, p ∉ players g → hands g' !! p = hands g !! p).
Proof.
  intros Hlen Hnd.
  destruct (deal_run (players g) g out) as (g1 & Hrun & Hg1 & Hdeck & Hh & Ho);
    [lia|done|].
  set (n := length (players g)) in *. set (L := length (deck g)) in *.
  destruct (lookup_lt_is_Some_2 (deck g) (L - 7 * n - 1)) as [top Htop]; [lia|].
  assert (Hd1 : deck g1 = take (L - 7 * n - 1) (deck g) ++ [top]).
  { rewrite Hdeck. rewrite <- (take_S_r _ _ _ Htop). f_equal. lia. }
  assert (Hrev : reverse (deck g) !! (7 * n)%nat = Some top).
  { rewrite reverse_lookup by lia. rewrite <- Htop. f_equal. lia. }
  destruct (choice_COLORS rnd) as (cc & Hcc & _).
  exists (Game (players g) (hands g1) (take (L - 7 * n - 1) (deck g)) (pile g ++ [top])
            (current g) (direction g)
            (Some (if decide (top.1 = "wild") then cc else top.1)) true now),
    top, (if decide (top.1 = "wild") then cc else top.1).
  split_and!; try done.
  - unfold uno_begin_deal, bind, get. rewrite Hrun.
    rewrite (pop_deck_run g1 out _ top Hd1). unfold modify, ret.
    rewrite Hg1. simpl.
    destruct (decide (top.1 = "wild")); [rewrite Hcc|]; simpl; done.
  - by case_decide.
Qed.

(** X12. [uno_begin] on an unstarted session with at least two players and
    enough cards deals from the top of the deck (its end): the player in
    seat [i] gets the seven cards from position [7 * i] on, the next card
    opens the pile, and what remains is the deck.  The game is started, the
    first player to join is to act, the current color is the color of the
    top card, or a color drawn at random when it is a wild, and the state
    is in the games file. *)
Theorem begin_deals_seven_cards_each rnd now cid w game :
  attainable w →
  GAMES w !! cid = Some game →
  started game = false →
  (2 <= length (players game))%nat →
  (7 * length (players game) + 1 <= length (deck game))%nat →
  ∃ g' top shown color first,
    (uno_begin rnd now cid w).2 = said [R_Begun top shown (Some color) first]
    ∧ GAMES (uno_begin rnd now cid w).1 = <[cid := g']> (GAMES w)
    ∧ durable (uno_begin rnd now cid w).1
    ∧ started g' = true
    ∧ players g' = players game
    ∧ players game !! 0%nat = Some first
    ∧ Py.index (players g') (current g') = Some first
    ∧ (∀ i p, players game !! i = Some p →
         hands g' !! p = Some (take 7 (drop (7 * i) (reverse (deck game)))))
    ∧ reverse (deck game) !! (7 * length (players game))%nat = Some top
    ∧ pile g' = pile game ++ [top]
    ∧ deck g' = take (length (deck game) - 7 * length (players game) - 1) (deck game)
    ∧ current_color g' = Some color
    ∧ (if decide (top.1 = "wild") then Py.choice rnd COLORS = Some color
       else color = top.1)
    ∧ direction g' = direction game.
Proof.
  intros Hr Hg Hs Hn Hlen.
  pose proof (proj1 (attainable_session w cid game Hr Hg)) as Hwf.
  destruct (proj2 (attainable_session w cid game Hr Hg)) as (Hnd & _ & _).
  destruct (uno_begin_deal_run rnd now game [] Hlen Hnd)
    as (g' & top & color & Hrun & Htop & Hcolor & Hg' & Hh & _).
  assert (Hcur : current g' = 0).
  { rewrite Hg'. simpl. by apply (wf_fresh _ Hwf). }
  destruct (lookup_lt_is_Some_2 (players game) 0) as [first Hfirst]; [lia|].
  assert (Hidx : Py.index (players g') (current g') = Some first).
  { rewrite Hcur. rewrite Hg'. simpl. by rewrite (index_in_range _ 0%nat). }
  assert (Hshow : is_Some (display_rank top.2)).
  { apply reverse_lookup_Some in Htop as [Htop _].
    apply list_elem_of_lookup_2 in Htop.
    exact (proj1 (Forall_forall _ _) (wf_deck _ Hwf) _ Htop). }
  destruct Hshow as [shown Hshown].
  exists g', top, shown, color, first.
  unfold uno_begin. rewrite Hg, Hs. rewrite decide_False by lia. rewrite Hrun.
  unfold uno_begin_announce, bind. rewrite (current_player_run _ _ _ Hidx), Hshown.
  simpl. unfold durable, store. simpl. rewrite save_games_GAMES. simpl.
  rewrite insert_insert_eq.
  assert (Hcc : current_color g' = Some color) by (by rewrite Hg').
  split_and!; try done; try (by rewrite Hg'); try (by rewrite Hcc).
  unfold save_games. simpl. rewrite decide_False; [done|]. apply insert_non_empty.
Qed.

Lemma begin_deals_seven_cards_each_witness :
  ∃ g' top shown color first,
    (uno_begin keep_order 3 100 joined2).2 = said [R_Begun top shown (Some color) first]
    ∧ GAMES (uno_begin keep_order 3 100 joined2).1 = <[100 := g']> (GAMES joined2)
    ∧ durable (uno_begin keep_order 3 100 joined2).1
    ∧ started g' = true
    ∧ players g' = players seated2
    ∧ players seated2 !! 0%nat = Some first
    ∧ Py.index (players g') (current g') = Some first
    ∧ (∀ i p, players seated2 !! i = Some p →
         hands g' !! p = Some (take 7 (drop (7 * i) (reverse (deck seated2)))))
    ∧ reverse (deck seated2) !! (7 * length (players seated2))%nat = Some top
    ∧ pile g' = pile seated2 ++ [top]
    ∧ deck g'
      = take (length (deck seated2) - 7 * length (players seated2) - 1) (deck seated2)
    ∧ current_color g' = Some color
    ∧ (if decide (top.1 = "wild") then Py.choice keep_order COLORS = Some color
       else color = top.1)
    ∧ direction g' = direction seated2.
Proof.
  apply (begin_deals_seven_cards_each keep_order 3 100 joined2 seated2).
  - apply reachable_attainable. unfold joined2. apply reachable_run_all.
    exact (reach_run (Start keep_order 0 100) world0 reachable_world0).
  - vm_compute. reflexivity.
  - reflexivity.
  - vm_compute. lia.
  - vm_compute. lia.
Defined.

Lemma deal_short uids : ∀ g out,
  (length (deck g) < 7 * length uids)%nat →
  ∃ g', deal uids g out = (g', out, Raise Py.IndexError)
    ∧ g' = set_hands (hands g') (set_deck [] g).
Proof.
  induction uids as [|uid uids IH]; intros g out Hlen; [simpl in Hlen; lia|].
  cbn [length] in Hlen. cbn [deal]. unfold bind at 1.
  destruct (decide (length (deck g) < 7)%nat) as [Hlt|Hge].
  - rewrite pop_deck_n_short by done. exists (set_deck [] g). split; [done|].
    by destruct g.
  - rewrite pop_deck_n_rev by lia. unfold bind at 1. unfold modify at 1.
    set (g1 := set_hands _ _).
    assert (Hl1 : length (deck g1) = (length (deck g) - 7)%nat).
    { subst g1. simpl. rewrite length_take. lia. }
    destruct (IH g1 out) as (g' & Hrun & Hg'); [lia|].
    exists g'. split; [done|]. rewrite Hg'. by destruct g.
Qed.

(** X13. [uno_begin] with fewer cards in the deck than seven for each
    player and one for the pile raises IndexError from [list.pop]: nothing
    is announced, the session stays unstarted with the same players and an
    empty deck, and the games file is not written. *)
Theorem begin_with_too_few_cards_raises rnd now cid w game :
  attainable w →
  GAMES w !! cid = Some game →
  started game = false →
  (2 <= length (players game))%nat →
  (length (deck game) < 7 * length (players game) + 1)%nat →
  ∃ g', uno_begin rnd now cid w = (store cid g' w, threw Py.IndexError [])
    ∧ started g' = false
    ∧ deck g' = []
    ∧ players g' = players game
    ∧ pile g' = pile game.
Proof.
  intros Hr Hg Hs Hn Hlen.
  destruct (proj2 (attainable_session w cid game Hr Hg)) as (Hnd & _ & _).
  unfold uno_begin. rewrite Hg, Hs. rewrite decide_False by lia.
  destruct (decide (length (deck game) < 7 * length (players game))%nat) as [Hlt|Hge].
  - destruct (deal_short (players game) game [] Hlt) as (g' & Hrun & Hg').
    exists g'. unfold uno_begin_deal, bind, get. rewrite Hrun.
    split; [done|]. rewrite Hg'. simpl. by rewrite Hs.
  - destruct (deal_run (players game) game []) as (g' & Hrun & Hg' & Hdeck & _);
      [lia|done|].
    assert (Hd : deck g' = []).
    { rewrite Hdeck. replace (length (deck game) - 7 * length (players game))%nat
        with 0%nat by lia. done. }
    exists g'. unfold uno_begin_deal, bind, get. rewrite Hrun.
    rewrite (pop_deck_empty g' [] Hd).
    split; [done|]. rewrite Hg'. simpl. by rewrite Hs.
Qed.

Lemma begin_with_too_few_cards_raises_witness :
  ∃ g', uno_begin keep_order 3 100 crowded = (store 100 g' crowded, threw Py.IndexError [])
    ∧ started g' = false
    ∧ deck g' = []
    ∧ players g' = players (session crowded)
    ∧ pile g' = pile (session crowded).
Proof.
  apply (begin_with_too_few_cards_raises keep_order 3 100 crowded (session crowded)).
  - apply reachable_attainable. unfold crowded. apply reachable_run_all.
    exact (reach_run (Start keep_order 0 100) world0 reachable_world0).
  - vm_compute. reflexivity.
  - vm_compute. reflexivity.
  - vm_compute. lia.
  - vm_compute. lia.
Defined.

(** ** Reading the game: status and hand *)

(** X14. In every state the bot can reach, [uno_status] on a started
    game returns without an exception and reports the number of players,
    the player to act, the current color and the top card of the pile; it
    changes nothing. *)
Theorem status_reports_the_turn cid w g :
  attainable w →
  GAMES w !! cid = Some g →
  started g = true →
  ∃ uid top_card shown,
    Py.index (players g) (current g) = Some uid
    ∧ Py.top (pile g) = Some top_card
    ∧ display_rank top_card.2 = Some shown
    ∧ uno_status cid w =
        (w, said [R_Status (length (players g)) true
                    (Some (uid, current_color g, Some (top_card, shown)))]).
Proof.
  intros Hr Hg Hs.
  destruct (attainable_session w cid g Hr Hg) as [Hwf _].
  destruct (index_lt (players g) (current g) (wf_turn _ Hwf Hs)) as [uid Huid].
  destruct (Py.top (pile g)) as [top_card|] eqn:Htop.
  2:{ apply top_nil_iff in Htop. by destruct (wf_top _ Hwf Hs). }
  assert (Hshow : is_Some (display_rank top_card.2)).
  { apply (proj1 (Forall_forall _ _) (wf_pile _ Hwf)). by eapply index_elem_of. }
  destruct Hshow as [shown Hshown].
  exists uid, top_card, shown. split_and!; try done.
  unfold uno_status. by rewrite Hg, Hs, Huid, Htop, Hshown.
Qed.

Lemma status_reports_the_turn_witness :
  ∃ uid top_card shown,
    Py.index (players (session short_deck)) (current (session short_deck)) = Some uid
    ∧ Py.top (pile (session short_deck)) = Some top_card
    ∧ display_rank top_card.2 = Some shown
    ∧ uno_status 100 short_deck =
        (short_deck,
         said [R_Status (length (players (session short_deck))) true
                 (Some (uid, current_color (session short_deck),
                        Some (top_card, shown)))]).
Proof.
  apply (status_reports_the_turn 100 short_deck (session short_deck)).
  - apply reachable_attainable, reachable_short_deck.
  - vm_compute. reflexivity.
  - vm_compute. reflexivity.
Defined.

Lemma show_hand_Some hand shown :
  show_hand hand = Some shown ↔
  Forall2 (λ (c : card) (s : string * string),
             s.1 = c.1 ∧ display_rank c.2 = Some s.2) hand shown.
Proof.
  unfold show_hand. rewrite mapM_Some.
  split; intros H; (eapply Forall2_impl; [exact H|]); intros c s; simpl;
    destruct (display_rank c.2) as [d|]; simpl.
  - by intros [= <-].
  - done.
  - intros [H1 [= H2]]. destruct s as [s1 s2]. simpl in *. by subst.
  - by intros [_ ?].
Qed.

(** X15. [uno_hand] shows a player their own cards and nothing else: a
    text with cards is sent only to the caller's private chat, only in a
    started game, and lists, card by card, the hand the caller holds in
    that game.  The handler never touches players, hands, deck, pile, turn
    or statistics: the only change is the time of last activity of the
    caller's session, which [save_games] then writes. *)
Theorem hand_shows_only_the_callers_cards now cid uid w :
  STATS_FILE (uno_hand now cid uid w).1 = STATS_FILE w
  ∧ ((uno_hand now cid uid w).1 = w
     ∨ ∃ g, GAMES w !! cid = Some g
            ∧ (uno_hand now cid uid w).1
              = save_games (store cid (set_last_active now g) w))
  ∧ ∀ chat shown, (uno_hand now cid uid w).2 = Ok (H_YourCards chat shown) →
      chat = uid
      ∧ ∃ g hand, GAMES w !! cid = Some g
          ∧ started g = true
          ∧ hands g !! uid = Some hand
          ∧ Forall2 (λ (c : card) (s : string * string),
                       s.1 = c.1 ∧ display_rank c.2 = Some s.2) hand shown.
Proof.
  unfold uno_hand.
  destruct (GAMES w !! cid) as [g|] eqn:Hg; [|by split_and!; [|left|]].
  destruct (started g) eqn:Hs; [|by split_and!; [|left|]]. simpl.
  case_decide as Hh; [by split_and!; [|left|]|].
  destruct (hands g !! uid) as [hand|] eqn:Hhand; [|done]. simpl in *.
  destruct (show_hand hand) as [shown|] eqn:Hshow; simpl.
  - split_and!; [by rewrite save_games_STATS|right; by exists g|].
    intros chat shown' [= <- <-]. split; [done|]. exists g, hand.
    split_and!; try done. by apply show_hand_Some.
  - split_and!; [by rewrite save_games_STATS|right; by exists g|done].
Qed.

(** X16. In every state the bot can reach, [uno_hand] by a player who
    holds cards in a started game returns without an exception, sends the
    whole hand to that player, and leaves the state in the games file. *)
Theorem hand_is_sent_to_its_owner now cid uid w g (hand : list card) :
  attainable w →
  GAMES w !! cid = Some g →
  started g = true →
  hands g !! uid = Some hand →
  hand ≠ [] →
  ∃ shown,
    uno_hand now cid uid w
    = (save_games (store cid (set_last_active now g) w), Ok (H_YourCards uid shown))
    ∧ map fst shown = map fst hand
    ∧ length shown = length hand
    ∧ durable (uno_hand now cid uid w).1.
Proof.
  intros Hr Hg Hs Hhand Hne.
  pose proof (proj1 (attainable_session w cid g Hr Hg)) as Hwf.
  destruct (mapM_is_Some_2 (λ c : card, shown ← display_rank c.2; Some (c.1, shown)) hand)
    as [shown Hshown].
  { eapply Forall_impl; [exact (wf_hands _ Hwf _ _ Hhand)|].
    intros c [d Hd]. simpl. rewrite Hd. by eexists. }
  exists shown. unfold uno_hand. rewrite Hg, Hs, Hhand. simpl.
  rewrite decide_False by done. unfold show_hand. rewrite Hshown.
  apply show_hand_Some in Hshown. split_and!; try done.
  - clear -Hshown. induction Hshown as [|c s hand shown [Hc _] _ IH]; [done|].
    simpl. by rewrite Hc, IH.
  - symmetry. by eapply Forall2_length.
  - simpl. apply save_games_nonempty. simpl. apply insert_non_empty.
Qed.

Lemma hand_is_sent_to_its_owner_witness :
  ∃ shown,
    uno_hand 7 100 2 begun2
    = (save_games (store 100 (set_last_active 7 (session begun2)) begun2),
       Ok (H_YourCards 2 shown))
    ∧ map fst shown = map fst (default [] (hands (session begun2) !! 2))
    ∧ length shown = length (default [] (hands (session begun2) !! 2))
    ∧ durable (uno_hand 7 100 2 begun2).1.
Proof.
  apply (hand_is_sent_to_its_owner 7 100 2 begun2 (session begun2)
           (default [] (hands (session begun2) !! 2))).
  - apply reachable_attainable, reachable_begun2.
  - vm_compute. reflexivity.
  - vm_compute. reflexivity.
  - vm_compute. reflexivity.
  - vm_compute. discriminate.
Defined.

(** ** Drawing *)

Lemma next_seat_differs (cur d n : Z) :
  0 <= cur < n → 2 <= n → d = 1 ∨ d = -1 → (cur + d) `mod` n ≠ cur.
Proof.
  intros Hc Hn [-> | ->].
  - destruct (decide (cur + 1 < n)).
    + rewrite Z.mod_small by lia. lia.
    + replace (cur + 1) with n by lia. rewrite Z.mod_same by lia. lia.
  - destruct (decide (1 <= cur)).
    + rewrite Z.mod_small by lia. lia.
    + replace (cur + -1) with (-1 + 1 * n - n + 0) by lia.
      replace (-1 + 1 * n - n + 0) with ((n - 1) + (-1) * n) by lia.
      rewrite Z.mod_add by lia. rewrite Z.mod_small by lia. lia.
Qed.

Lemma uno_draw_take_frame rnd now uid g out :
  current (uno_draw_take rnd now uid g out).1.1 = current g
  ∧ direction (uno_draw_take rnd now uid g out).1.1 = direction g
  ∧ players (uno_draw_take rnd now uid g out).1.1 = players g.
Proof.
  unfold uno_draw_take, pop_deck, extend_hand, bind, get, try_, modify, raise, ret.
  case_decide.
  - destruct (Py.pop (pile g)) as [[rest t]|]; [|done]. simpl.
    destruct (Py.pop (Py.shuffle rnd rest)) as [[d x]|]; [|done]. simpl.
    by destruct (hands g !! uid).
  - destruct (Py.pop (deck g)) as [[d x]|]; [|done]. simpl.
    by destruct (hands g !! uid).
Qed.

Lemma uno_draw_pass_Ok c g out g2 out2 :
  uno_draw_pass c g out = (g2, out2, Ok tt) →
  g2 = set_current ((current g + direction g) `mod` Z.of_nat (length (players g))) g.
Proof.
  unfold uno_draw_pass, advance_turn, current_player, bind, get, try_, modify, say,
    raise, ret.
  destruct (display_rank c.2); [|done].
  case_decide; [done|]. simpl.
  destruct (Py.index _ _); [|done]. by intros [= <- _].
Qed.

(** X17. [uno_draw] by the player to act, from a deck that is not empty,
    moves the last card of the deck to the end of that player's hand and
    passes the turn to the next seat in the direction of play; pile, color
    and direction stay as they were. *)
Theorem draw_takes_the_top_of_the_deck rnd now cid uid w game d c :
  attainable w →
  on_turn w cid uid game →
  deck game = d ++ [c] →
  ∃ hand shown nxt,
    hands game !! uid = Some hand
    ∧ display_rank c.2 = Some shown
    ∧ Py.index (players game)
        ((current game + direction game) `mod` Z.of_nat (length (players game)))
      = Some nxt
    ∧ (uno_draw rnd now cid uid w).2 = said [R_Drew c shown; R_NextTurn nxt]
    ∧ GAMES (uno_draw rnd now cid uid w).1
      = <[cid := {| players := players game;
                    hands := <[uid := hand ++ [c]]> (hands game);
                    deck := d;
                    pile := pile game;
                    current := (current game + direction game)
                                 `mod` Z.of_nat (length (players game));
                    direction := direction game;
                    current_color := current_color game;
                    started := true;
                    last_active := now |}]> (GAMES w).
Proof.
  intros Hr Hturn Hdeck.
  pose proof (on_turn_players _ _ _ _ Hturn) as Hn.
  destruct Hturn as (Hg & Hs & Hp).
  destruct (attainable_session w cid game Hr Hg) as [Hwf _].
  destruct (wf_dealt _ Hwf Hs uid) as [hand Hhand]; [by eapply index_elem_of|].
  assert (Hshow : is_Some (display_rank c.2)).
  { apply (proj1 (Forall_forall _ _) (wf_deck _ Hwf)). rewrite Hdeck. set_solver. }
  destruct Hshow as [shown Hshown].
  destruct (mod_index_is_Some (players game) (current game + direction game) Hn)
    as [nxt Hnxt].
  exists hand, shown, nxt. split_and!; try done.
  - unfold uno_draw. rewrite Hg, Hs, Hp. simpl.
    rewrite decide_False by naive_solver.
    rewrite (uno_draw_take_pop _ _ _ _ _ _ _ _ Hdeck Hhand).
    by erewrite uno_draw_pass_run.
  - unfold uno_draw. rewrite Hg, Hs, Hp. simpl.
    rewrite decide_False by naive_solver.
    rewrite (uno_draw_take_pop _ _ _ _ _ _ _ _ Hdeck Hhand).
    erewrite uno_draw_pass_run; [|done..]. simpl.
    rewrite save_games_GAMES. simpl. rewrite insert_insert_eq. by rewrite Hs.
Qed.

Lemma draw_takes_the_top_of_the_deck_witness :
  ∃ hand shown nxt,
    hands (session begun2) !! 1 = Some hand
    ∧ display_rank ("yellow", "9").2 = Some shown
    ∧ Py.index (players (session begun2))
        ((current (session begun2) + direction (session begun2))
           `mod` Z.of_nat (length (players (session begun2))))
      = Some nxt
    ∧ (uno_draw keep_order 6 100 1 begun2).2
      = said [R_Drew ("yellow", "9") shown; R_NextTurn nxt]
    ∧ GAMES (uno_draw keep_order 6 100 1 begun2).1
      = <[100 := {| players := players (session begun2);
                    hands := <[1 := hand ++ [("yellow", "9")]]>
                               (hands (session begun2));
                    deck := removelast (deck (session begun2));
                    pile := pile (session begun2);
                    current := (current (session begun2) + direction (session begun2))
                                 `mod` Z.of_nat (length (players (session begun2)));
                    direction := direction (session begun2);
                    current_color := current_color (session begun2);
                    started := true;
                    last_active := 6 |}]> (GAMES begun2).
Proof.
  apply (draw_takes_the_top_of_the_deck keep_order 6 100 1 begun2 (session begun2)
           (removelast (deck (session begun2))) ("yellow", "9")).
  - apply reachable_attainable, reachable_begun2.
  - split; [|split]; vm_compute; reflexivity.
  - vm_compute. reflexivity.
Defined.

(** X18. [uno_draw] calls [save_games] before [advance_turn]: after a
    draw that returns, the session in memory has the turn at the next
    seat, which is another seat, while the session in the games file is
    the same session with the turn still at the player who drew. *)
Theorem draw_saves_before_the_turn_moves rnd now cid uid w game :
  attainable w →
  on_turn w cid uid game →
  raised (uno_draw rnd now cid uid w).2 = None →
  ∃ g', GAMES (uno_draw rnd now cid uid w).1 !! cid = Some g'
    ∧ current g'
      = (current game + direction game) `mod` Z.of_nat (length (players game))
    ∧ current g' ≠ current game
    ∧ GAMES_FILE (uno_draw rnd now cid uid w).1
      = Some (<[cid := set_current (current game) g']> (GAMES w)).
Proof.
  intros Hr (Hg & Hs & Hp).
  destruct (attainable_session w cid game Hr Hg) as [Hwf (_ & Hdir & Hn)].
  unfold uno_draw. rewrite Hg, Hs, Hp. simpl.
  rewrite decide_False by naive_solver.
  destruct (uno_draw_take_frame rnd now uid game []) as (Hc1 & Hd1 & Hp1).
  destruct (uno_draw_take rnd now uid game []) as [[g1 out1] [c|e]]; [|done].
  simpl in Hc1, Hd1, Hp1.
  destruct (uno_draw_pass c g1 out1) as [[g2 out2] [[]|e]] eqn:Hpass; [|done].
  apply uno_draw_pass_Ok in Hpass. rewrite Hc1, Hd1, Hp1 in Hpass.
  intros _. exists g2. simpl. rewrite lookup_insert_eq.
  split_and!; [done|by rewrite Hpass| |].
  - rewrite Hpass. simpl. apply next_seat_differs; [by apply wf_turn| |done].
    specialize (Hn Hs). lia.
  - unfold save_games. simpl. rewrite decide_False by apply insert_non_empty.
    simpl. do 2 f_equal. rewrite Hpass. destruct g1. simpl in *. by subst.
Qed.

Lemma draw_saves_before_the_turn_moves_witness :
  ∃ g', GAMES (uno_draw keep_order 6 100 1 begun2).1 !! 100 = Some g'
    ∧ current g'
      = (current (session begun2) + direction (session begun2))
          `mod` Z.of_nat (length (players (session begun2)))
    ∧ current g' ≠ current (session begun2)
    ∧ GAMES_FILE (uno_draw keep_order 6 100 1 begun2).1
      = Some (<[100 := set_current (current (session begun2)) g']> (GAMES begun2)).
Proof.
  apply (draw_saves_before_the_turn_moves keep_order 6 100 1 begun2 (session begun2)).
  - apply reachable_attainable, reachable_begun2.
  - split; [|split]; vm_compute; reflexivity.
  - vm_compute. reflexivity.
Defined.

(** X19. [uno_draw] with an empty deck and a pile of one card has nothing
    to reshuffle: [list.pop] raises IndexError on the empty deck, nothing
    is said, and the state is left exactly as it was, the turn included. *)
Theorem draw_with_nothing_left_raises rnd now cid uid w game top_card :
  on_turn w cid uid game →
  deck game = [] →
  pile game = [top_card] →
  uno_draw rnd now cid uid w = (w, threw Py.IndexError []).
Proof.
  intros (Hg & Hs & Hp) Hdeck Hpile.
  unfold uno_draw. rewrite Hg, Hs, Hp. simpl.
  rewrite decide_False by naive_solver.
  unfold uno_draw_take, pop_deck, bind, get, try_, modify, raise, ret.
  rewrite decide_True by done. rewrite Hpile. simpl.
  f_equal. unfold store.
  replace (set_deck (Py.shuffle rnd []) (set_pile [top_card] (set_deck [] game)))
    with game by (destruct game; simpl in *; by subst).
  rewrite insert_id by done. by destruct w.
Qed.

Lemma draw_with_nothing_left_raises_witness :
  uno_draw keep_order 7 100 2 (uno_draw keep_order 6 100 1 deck_spent).1
  = ((uno_draw keep_order 6 100 1 deck_spent).1, threw Py.IndexError []).
Proof.
  apply (draw_with_nothing_left_raises keep_order 7 100 2
           (uno_draw keep_order 6 100 1 deck_spent).1
           (session (uno_draw keep_order 6 100 1 deck_spent).1) ("wild", "wild")).
  - split; [|split]; vm_compute; reflexivity.
  - vm_compute. reflexivity.
  - vm_compute. reflexivity.
Defined.

(** X20. Only the player to act moves: a play or a draw that changes
    anything at all, in memory or in the files, was sent by the player
    whose turn it is in a started game of that chat. *)
Theorem only_the_player_to_act_moves c w cid uid :
  (∃ now args, c = Play now cid uid args) ∨ (∃ rnd now, c = Draw rnd now cid uid) →
  (run c w).1 ≠ w →
  ∃ game, on_turn w cid uid game.
Proof.
  intros [(now & args & ->)|(rnd & now & ->)] Hne; simpl in Hne.
  - destruct (uno_play_checks now cid uid args w)
      as [(game & _ & _ & _ & Hturn & _)|Heq]; [by exists game|done].
  - unfold uno_draw in Hne.
    destruct (GAMES w !! cid) as [game|] eqn:Hg; [|done].
    destruct (started game) eqn:Hs; [|done]. simpl in Hne.
    destruct (Py.index (players game) (current game)) as [p|] eqn:Hp; [|done].
    case_decide as Hpu; [done|].
    exists game. split_and!; try done. rewrite Hp. f_equal.
    by destruct (decide (p = uid)).
Qed.

Lemma only_the_player_to_act_moves_witness : ∃ game, on_turn begun2 100 1 game.
Proof.
  apply (only_the_player_to_act_moves draw_by1 begun2 100 1).
  - right. by exists keep_order, 4.
  - intros Heq.
    assert (H : (current <$> GAMES (run draw_by1 begun2).1 !! 100)
                ≠ (current <$> GAMES begun2 !! 100)) by (vm_compute; discriminate).
    apply H. exact (f_equal (λ w, current <$> GAMES w !! 100) Heq).
Defined.

(** ** Playing a card *)

Lemma special_effect_advance c g out :
  length (players g) ≠ 0%nat →
  c.2 ∉ ["reverse"; "draw2"; "wild4"] →
  special_effect c g out =
    (set_current
       (if decide (c.2 = "skip")
        then ((current g + direction g) `mod` Z.of_nat (length (players g))
              + direction g) `mod` Z.of_nat (length (players g))
        else (current g + direction g) `mod` Z.of_nat (length (players g))) g,
     out, Ok tt).
Proof.
  intros Hn Hc. unfold special_effect.
  assert (c.2 ≠ "reverse" ∧ c.2 ≠ "draw2" ∧ c.2 ≠ "wild4") as (H1 & H2 & H3)
    by set_solver.
  case_decide.
  - unfold bind. rewrite advance_turn_run by done. by rewrite advance_turn_run.
  - rewrite !decide_False by done. by rewrite advance_turn_run.
Qed.

Lemma uno_play_advances now cid uid args w game c chosen top_card (hand : list card) :
  attainable w →
  on_turn w cid uid game →
  determine_card (map Py.lower args) = Determined c chosen →
  hands game !! uid = Some hand →
  c ∈ hand →
  (2 <= length hand)%nat →
  Py.top (pile game) = Some top_card →
  legal (current_color game) top_card.2 c →
  c.2 ∉ ["reverse"; "draw2"; "wild4"] →
  ∃ hand' color shown nxt,
    Py.remove c hand = Some hand'
    ∧ played_color c chosen = Some color
    ∧ display_rank c.2 = Some shown
    ∧ uno_play now cid uid args w
      = (save_games
           (store cid
              {| players := players game;
                 hands := <[uid := hand']> (hands game);
                 deck := deck game;
                 pile := pile game ++ [c];
                 current :=
                   (if decide (c.2 = "skip")
                    then ((current game + direction game)
                            `mod` Z.of_nat (length (players game))
                          + direction game) `mod` Z.of_nat (length (players game))
                    else (current game + direction game)
                           `mod` Z.of_nat (length (players game)));
                 direction := direction game;
                 current_color := Some color;
                 started := true;
                 last_active := now |} w),
         said [R_Played uid c shown (Some color); R_NextTurn nxt])
    ∧ Py.index (players game)
        (if decide (c.2 = "skip")
         then ((current game + direction game) `mod` Z.of_nat (length (players game))
               + direction game) `mod` Z.of_nat (length (players game))
         else (current game + direction game) `mod` Z.of_nat (length (players game)))
      = Some nxt.
Proof.
  intros Hr Hturn Hargs Hhand Hheld Hlen Htop Hlegal Hrank.
  pose proof (on_turn_players _ _ _ _ Hturn) as Hn.
  rewrite (uno_play_accepts now cid uid args w game c chosen top_card)
    by (by rewrite ?Hhand).
  destruct Hturn as (Hg & Hs & Hp).
  destruct (attainable_session w cid game Hr Hg) as [Hwf _].
  destruct (determined_played_color _ _ _ Hargs) as [color Hcolor].
  destruct (remove_Some c hand Hheld) as (hand' & Hrem & _).
  assert (Hshow : is_Some (display_rank c.2)).
  { exact (proj1 (Forall_forall _ _) (wf_hands _ Hwf _ _ Hhand) _ Hheld). }
  destruct Hshow as [shown Hshown].
  set (k := if decide (c.2 = "skip")
            then ((current game + direction game) `mod` Z.of_nat (length (players game))
                  + direction game) `mod` Z.of_nat (length (players game))
            else (current game + direction game) `mod` Z.of_nat (length (players game))).
  assert (Hk : is_Some (Py.index (players game) k)).
  { subst k. case_decide; by apply mod_index_is_Some. }
  destruct Hk as [nxt Hnxt].
  exists hand', color, shown, nxt. split_and!; try done.
  unfold uno_play_commit, play_card, bind.
  rewrite (place_card_run _ _ _ _ _ _ _ _ _ _ Hhand Hrem Hcolor Hshown).
  rewrite special_effect_advance by done. simpl. fold k.
  rewrite lookup_insert_eq. simpl.
  rewrite decide_False.
  2:{ intros ->. apply remove_length in Hrem. simpl in Hrem. lia. }
  by rewrite Hnxt, Hs.
Qed.

(** X21. A legal play of a number card or of a wild, by the player to act
    who holds more than one card: the first copy of the card leaves the
    hand and goes on top of the pile, the current color becomes the card's
    color, or the color declared with the wild, the turn passes to the
    next seat in the direction of play, and deck, direction and the other
    hands stay as they were.  The new state is in the games file. *)
Theorem plain_card_passes_the_turn
    now cid uid args w game c chosen top_card (hand : list card) :
  attainable w →
  on_turn w cid uid game →
  determine_card (map Py.lower args) = Determined c chosen →
  hands game !! uid = Some hand →
  c ∈ hand →
  (2 <= length hand)%nat →
  Py.top (pile game) = Some top_card →
  legal (current_color game) top_card.2 c →
  c.2 ∉ ["skip"; "reverse"; "draw2"; "wild4"] →
  ∃ hand' color shown nxt,
    Py.remove c hand = Some hand'
    ∧ played_color c chosen = Some color
    ∧ display_rank c.2 = Some shown
    ∧ Py.index (players game)
        ((current game + direction game) `mod` Z.of_nat (length (players game)))
      = Some nxt
    ∧ (uno_play now cid uid args w).2
      = said [R_Played uid c shown (Some color); R_NextTurn nxt]
    ∧ GAMES (uno_play now cid uid args w).1
      = <[cid := {| players := players game;
                    hands := <[uid := hand']> (hands game);
                    deck := deck game;
                    pile := pile game ++ [c];
                    current := (current game + direction game)
                                 `mod` Z.of_nat (length (players game));
                    direction := direction game;
                    current_color := Some color;
                    started := true;
                    last_active := now |}]> (GAMES w)
    ∧ durable (uno_play now cid uid args w).1.
Proof.
  intros Hr Hturn Hargs Hhand Hheld Hlen Htop Hlegal Hrank.
  assert (Hskip : c.2 ≠ "skip") by set_solver.
  destruct (uno_play_advances now cid uid args w game c chosen top_card hand)
    as (hand' & color & shown & nxt & Hrem & Hcolor & Hshown & Heq & Hnxt);
    [done..|set_solver|].
  rewrite decide_False in Heq, Hnxt by done.
  exists hand', color, shown, nxt. rewrite Heq. simpl.
  rewrite save_games_GAMES. split_and!; try done.
  apply save_games_nonempty. simpl. apply insert_non_empty.
Qed.

(** X22. A legal play of a skip, by the player to act who holds more than
    one card, moves the turn two seats on in the direction of play: with
    two players the same player acts again, with more the next player is
    passed over.  Nobody draws. *)
Theorem skip_passes_over_the_next_player
    now cid uid args w game c chosen top_card (hand : list card) :
  attainable w →
  on_turn w cid uid game →
  determine_card (map Py.lower args) = Determined c chosen →
  hands game !! uid = Some hand →
  c ∈ hand →
  (2 <= length hand)%nat →
  Py.top (pile game) = Some top_card →
  legal (current_color game) top_card.2 c →
  c.2 = "skip" →
  ∃ hand' nxt g1,
    Py.remove c hand = Some hand'
    ∧ (uno_play now cid uid args w).2
      = said [R_Played uid c "skip" (Some c.1); R_NextTurn nxt]
    ∧ GAMES (uno_play now cid uid args w).1 = <[cid := g1]> (GAMES w)
    ∧ current g1
      = ((current game + direction game) `mod` Z.of_nat (length (players game))
         + direction game) `mod` Z.of_nat (length (players game))
    ∧ Py.index (players game) (current g1) = Some nxt
    ∧ (length (players game) = 2%nat → nxt = uid)
    ∧ hands g1 = <[uid := hand']> (hands game)
    ∧ deck g1 = deck game
    ∧ direction g1 = direction game
    ∧ players g1 = players game.
Proof.
  intros Hr Hturn Hargs Hhand Hheld Hlen Htop Hlegal Hrank.
  destruct (uno_play_advances now cid uid args w game c chosen top_card hand)
    as (hand' & color & shown & nxt & Hrem & Hcolor & Hshown & Heq & Hnxt);
    [done..|rewrite Hrank; set_solver|].
  rewrite decide_True in Heq, Hnxt by done.
  assert (chosen = None) as ->.
  { apply (determined_rank_not_wild _ _ _ Hargs). rewrite Hrank. set_solver. }
  destruct (determined_colored _ _ Hargs) as [_ Hc1].
  rewrite Hc1 in Hcolor. injection Hcolor as <-.
  assert (shown = "skip") as -> by (rewrite Hrank in Hshown; by injection Hshown).
  eexists hand', nxt, _. rewrite Heq. simpl. rewrite save_games_GAMES. simpl.
  split_and!; try done.
  intros H2. destruct Hturn as (Hg & Hs & Hp).
  destruct (attainable_session w cid game Hr Hg) as [Hwf _].
  pose proof (wf_turn _ Hwf Hs) as Hcur. rewrite H2 in *.
  rewrite advance_twice_of_two in Hnxt by lia. congruence.
Qed.

Lemma plain_card_passes_the_turn_witness :
  ∃ hand' color shown nxt,
    Py.remove ("wild", "wild") (default [] (hands (session begun2) !! 1)) = Some hand'
    ∧ played_color ("wild", "wild") (Some "red") = Some color
    ∧ display_rank ("wild", "wild").2 = Some shown
    ∧ Py.index (players (session begun2))
        ((current (session begun2) + direction (session begun2))
           `mod` Z.of_nat (length (players (session begun2))))
      = Some nxt
    ∧ (uno_play 5 100 1 ["WILD"; "Red"] begun2).2
      = said [R_Played 1 ("wild", "wild") shown (Some color); R_NextTurn nxt]
    ∧ GAMES (uno_play 5 100 1 ["WILD"; "Red"] begun2).1
      = <[100 := {| players := players (session begun2);
                    hands := <[1 := hand']> (hands (session begun2));
                    deck := deck (session begun2);
                    pile := pile (session begun2) ++ [("wild", "wild")];
                    current := (current (session begun2) + direction (session begun2))
                                 `mod` Z.of_nat (length (players (session begun2)));
                    direction := direction (session begun2);
                    current_color := Some color;
                    started := true;
                    last_active := 5 |}]> (GAMES begun2)
    ∧ durable (uno_play 5 100 1 ["WILD"; "Red"] begun2).1.
Proof.
  apply (plain_card_passes_the_turn 5 100 1 ["WILD"; "Red"] begun2 (session begun2)
           ("wild", "wild") (Some "red") ("yellow", "9")
           (default [] (hands (session begun2) !! 1))).
  - apply reachable_attainable, reachable_begun2.
  - split; [|split]; vm_compute; reflexivity.
  - vm_compute. reflexivity.
  - vm_compute. reflexivity.
  - apply (bool_decide_unpack _). vm_compute. exact I.
  - vm_compute. lia.
  - vm_compute. reflexivity.
  - left. reflexivity.
  - apply (bool_decide_unpack _). vm_compute. exact I.
Defined.

Lemma skip_passes_over_the_next_player_witness :
  ∃ hand' nxt g1,
    Py.remove ("yellow", "skip") (default [] (hands (session wild_played) !! 2))
    = Some hand'
    ∧ (uno_play 6 100 2 ["yellow"; "skip"] wild_played).2
      = said [R_Played 2 ("yellow", "skip") "skip" (Some ("yellow", "skip").1);
              R_NextTurn nxt]
    ∧ GAMES (uno_play 6 100 2 ["yellow"; "skip"] wild_played).1
      = <[100 := g1]> (GAMES wild_played)
    ∧ current g1
      = ((current (session wild_played) + direction (session wild_played))
           `mod` Z.of_nat (length (players (session wild_played)))
         + direction (session wild_played))
          `mod` Z.of_nat (length (players (session wild_played)))
    ∧ Py.index (players (session wild_played)) (current g1) = Some nxt
    ∧ (length (players (session wild_played)) = 2%nat → nxt = 2)
    ∧ hands g1 = <[2 := hand']> (hands (session wild_played))
    ∧ deck g1 = deck (session wild_played)
    ∧ direction g1 = direction (session wild_played)
    ∧ players g1 = players (session wild_played).
Proof.
  apply (skip_passes_over_the_next_player 6 100 2 ["yellow"; "skip"] wild_played
           (session wild_played) ("yellow", "skip") None ("wild", "wild")
           (default [] (hands (session wild_played) !! 2))).
  - apply reachable_attainable. unfold wild_played.
    exact (reach_run _ _ reachable_begun2).
  - split; [|split]; vm_compute; reflexivity.
  - vm_compute. reflexivity.
  - vm_compute. reflexivity.
  - apply (bool_decide_unpack _). vm_compute. exact I.
  - vm_compute. lia.
  - vm_compute. reflexivity.
  - right; left. vm_compute. reflexivity.
  - reflexivity.
Defined.

(** X23. A legal play of a draw2 or wild draw four, by the player to act
    who holds more than one card, while the deck holds the two or four
    cards: the next player in the direction of play, who is another
    player, gets the last two or four cards of the deck at the end of their
    hand, in the order they are popped, and is passed over: the turn moves
    two seats on. *)
Theorem penalty_card_makes_the_next_player_draw
    now cid uid args w game c chosen top_card (hand : list card) n d cs :
  attainable w →
  on_turn w cid uid game →
  determine_card (map Py.lower args) = Determined c chosen →
  hands game !! uid = Some hand →
  c ∈ hand →
  (2 <= length hand)%nat →
  Py.top (pile game) = Some top_card →
  legal (current_color game) top_card.2 c →
  (c.2 = "draw2" ∧ n = 2%nat) ∨ (c.2 = "wild4" ∧ n = 4%nat) →
  deck game = d ++ cs →
  length cs = n →
  ∃ hand' color shown victim hv nxt,
    Py.remove c hand = Some hand'
    ∧ played_color c chosen = Some color
    ∧ Py.index (players game)
        ((current game + direction game) `mod` Z.of_nat (length (players game)))
      = Some victim
    ∧ victim ≠ uid
    ∧ hands game !! victim = Some hv
    ∧ (uno_play now cid uid args w).2
      = said [R_Played uid c shown (Some color); R_DrawsAndSkips n victim;
              R_NextTurn nxt]
    ∧ GAMES (uno_play now cid uid args w).1
      = <[cid := {| players := players game;
                    hands := <[victim := hv ++ reverse cs]>
                               (<[uid := hand']> (hands game));
                    deck := d;
                    pile := pile game ++ [c];
                    current :=
                      ((current game + direction game)
                         `mod` Z.of_nat (length (players game))
                       + direction game) `mod` Z.of_nat (length (players game));
                    direction := direction game;
                    current_color := Some color;
                    started := true;
                    last_active := now |}]> (GAMES w)
    ∧ Py.index (players game)
        (((current game + direction game) `mod` Z.of_nat (length (players game))
          + direction game) `mod` Z.of_nat (length (players game)))
      = Some nxt
    ∧ durable (uno_play now cid uid args w).1.
Proof.
  intros Hr Hturn Hargs Hhand Hheld Hlen Htop Hlegal Hk Hd Hcs.
  pose proof (on_turn_players _ _ _ _ Hturn) as Hn.
  rewrite (uno_play_accepts now cid uid args w game c chosen top_card)
    by (by rewrite ?Hhand).
  destruct Hturn as (Hg & Hs & Hp).
  destruct (attainable_session w cid game Hr Hg) as [Hwf (Hnd & Hdir & Hn2)].
  pose proof (wf_turn _ Hwf Hs) as Hcur. specialize (Hn2 Hs).
  destruct (determined_played_color _ _ _ Hargs) as [color Hcolor].
  destruct (remove_Some c hand Hheld) as (hand' & Hrem & _).
  assert (Hshow : is_Some (display_rank c.2)).
  { exact (proj1 (Forall_forall _ _) (wf_hands _ Hwf _ _ Hhand) _ Hheld). }
  destruct Hshow as [shown Hshown].
  set (n1 := (current game + direction game) `mod` Z.of_nat (length (players game))).
  destruct (mod_index_is_Some (players game) (current game + direction game) Hn)
    as [victim Hvictim]. fold n1 in Hvictim.
  destruct (mod_index_is_Some (players game) (n1 + direction game) Hn) as [nxt Hnxt].
  assert (Hvne : victim ≠ uid).
  { intros ->.
    assert (Hn1 : 0 <= n1 < Z.of_nat (length (players game))).
    { apply Z.mod_pos_bound. lia. }
    apply index_nonneg in Hvictim as [Hv _]; [|lia].
    apply index_nonneg in Hp as [Hu _]; [|lia].
    pose proof (NoDup_lookup _ _ _ _ Hnd Hv Hu) as Heq.
    apply (next_seat_differs (current game) (direction game)
             (Z.of_nat (length (players game)))); [done|lia|done|].
    fold n1. lia. }
  destruct (wf_dealt _ Hwf Hs victim) as [hv Hhv]; [by eapply index_elem_of|].
  exists hand', color, shown, victim, hv, nxt.
  unfold uno_play_commit, play_card, bind.
  rewrite (place_card_run _ _ _ _ _ _ _ _ _ _ Hhand Hrem Hcolor Hshown).
  rewrite (special_effect_victim _ _ _ n Hk).
  erewrite victim_draws_run; [|simpl; try done..].
  2:{ simpl. by rewrite lookup_insert_ne. }
  simpl. fold n1. rewrite lookup_insert_ne, lookup_insert_eq by done. simpl.
  rewrite decide_False.
  2:{ intros ->. apply remove_length in Hrem. simpl in Hrem. lia. }
  rewrite Hnxt. simpl. rewrite save_games_GAMES. simpl. rewrite Hs.
  split_and!; try done.
  apply save_games_nonempty. simpl. apply insert_non_empty.
Qed.

Lemma penalty_card_makes_the_next_player_draw_witness :
  ∃ hand' color shown victim hv nxt,
    Py.remove ("yellow", "draw2") (default [] (hands (session before_draw2) !! 2))
    = Some hand'
    ∧ played_color ("yellow", "draw2") None = Some color
    ∧ Py.index (players (session before_draw2))
        ((current (session before_draw2) + direction (session before_draw2))
           `mod` Z.of_nat (length (players (session before_draw2))))
      = Some victim
    ∧ victim ≠ 2
    ∧ hands (session before_draw2) !! victim = Some hv
    ∧ (uno_play 6 100 2 ["yellow"; "draw2"] before_draw2).2
      = said [R_Played 2 ("yellow", "draw2") shown (Some color);
              R_DrawsAndSkips 2 victim; R_NextTurn nxt]
    ∧ GAMES (uno_play 6 100 2 ["yellow"; "draw2"] before_draw2).1
      = <[100 := {| players := players (session before_draw2);
                    hands := <[victim := hv ++ reverse [("yellow", "8"); ("yellow", "9")]]>
                               (<[2 := hand']> (hands (session before_draw2)));
                    deck := take 91 (deck (session before_draw2));
                    pile := pile (session before_draw2) ++ [("yellow", "draw2")];
                    current :=
                      ((current (session before_draw2) + direction (session before_draw2))
                         `mod` Z.of_nat (length (players (session before_draw2)))
                       + direction (session before_draw2))
                        `mod` Z.of_nat (length (players (session before_draw2)));
                    direction := direction (session before_draw2);
                    current_color := Some color;
                    started := true;
                    last_active := 6 |}]> (GAMES before_draw2)
    ∧ Py.index (players (session before_draw2))
        (((current (session before_draw2) + direction (session before_draw2))
            `mod` Z.of_nat (length (players (session before_draw2)))
          + direction (session before_draw2))
           `mod` Z.of_nat (length (players (session before_draw2))))
      = Some nxt
    ∧ durable (uno_play 6 100 2 ["yellow"; "draw2"] before_draw2).1.
Proof.
  apply (penalty_card_makes_the_next_player_draw 6 100 2 ["yellow"; "draw2"]
           before_draw2 (session before_draw2) ("yellow", "draw2") None
           ("yellow", "reverse") (default [] (hands (session before_draw2) !! 2))
           2%nat (take 91 (deck (session before_draw2)))
           [("yellow", "8"); ("yellow", "9")]).
  - apply reachable_attainable. unfold before_draw2, wild_played.
    apply reachable_run_all.
    exact (reach_run _ _ reachable_begun2).
  - split; [|split]; vm_compute; reflexivity.
  - vm_compute. reflexivity.
  - vm_compute. reflexivity.
  - apply (bool_decide_unpack _). vm_compute. exact I.
  - vm_compute. lia.
  - vm_compute. reflexivity.
  - right; left. vm_compute. reflexivity.
  - left. split; reflexivity.
  - vm_compute. reflexivity.
  - reflexivity.
Defined.

(** X24. A legal play of the last card of the player to act, when the
    card is not a draw2 or wild draw four, wins: the handler returns, the
    winner is announced, that player's wins in the chat go up by one, the
    session is deleted, and [uno_status] then finds no game in the chat. *)
Theorem last_card_wins_the_game now cid uid args w game c chosen top_card :
  attainable w →
  on_turn w cid uid game →
  determine_card (map Py.lower args) = Determined c chosen →
  hands game !! uid = Some [c] →
  Py.top (pile game) = Some top_card →
  legal (current_color game) top_card.2 c →
  c.2 ∉ ["draw2"; "wild4"] →
  raised (uno_play now cid uid args w).2 = None
  ∧ last (replies (uno_play now cid uid args w).2) = Some (R_Won uid)
  ∧ GAMES (uno_play now cid uid args w).1 = delete cid (GAMES w)
  ∧ STATS_FILE (uno_play now cid uid args w).1 !! cid ≫= (.!! uid)
    = Some (default 0 (STATS_FILE w !! cid ≫= (.!! uid)) + 1)
  ∧ uno_status cid (uno_play now cid uid args w).1
    = ((uno_play now cid uid args w).1, said [R_NoActiveGame]).
Proof.
  intros Hr Hturn Hargs Hhand Htop Hlegal Hrank.
  destruct (attainable_session w cid game Hr (proj1 Hturn)) as [Hwf _].
  assert (Hshow : is_Some (display_rank c.2)).
  { apply (proj1 (Forall_forall _ _) (wf_hands _ Hwf _ _ Hhand)). set_solver. }
  destruct (last_plain_card_wins now cid uid args w game c chosen top_card)
    as (Hnone & Hstats & Hok & Hlast & Hstatus); [done..|].
  split_and!; try done.
  destruct (run_effect (Play now cid uid args) w)
    as [[_ [Heq|(g' & Heq & _)]]|(Heq & _)]; simpl in *.
  - rewrite Heq in Hnone. destruct Hturn as (Hg & _). congruence.
  - by rewrite Heq, lookup_insert_eq in Hnone.
  - done.
Qed.

Lemma last_card_wins_the_game_witness :
  raised (uno_play 7 100 2 ["wild"; "blue"] one_card_left).2 = None
  ∧ last (replies (uno_play 7 100 2 ["wild"; "blue"] one_card_left).2) = Some (R_Won 2)
  ∧ GAMES (uno_play 7 100 2 ["wild"; "blue"] one_card_left).1
    = delete 100 (GAMES one_card_left)
  ∧ STATS_FILE (uno_play 7 100 2 ["wild"; "blue"] one_card_left).1 !! 100 ≫= (.!! 2)
    = Some (default 0 (STATS_FILE one_card_left !! 100 ≫= (.!! 2)) + 1)
  ∧ uno_status 100 (uno_play 7 100 2 ["wild"; "blue"] one_card_left).1
    = ((uno_play 7 100 2 ["wild"; "blue"] one_card_left).1, said [R_NoActiveGame]).
Proof.
  apply (last_card_wins_the_game 7 100 2 ["wild"; "blue"] one_card_left
           (session one_card_left) ("wild", "wild") (Some "blue") ("yellow", "draw2")).
  - apply reachable_attainable. unfold one_card_left, before_draw2, wild_played.
    do 2 apply reachable_run_all.
    exact (reach_run _ _ reachable_begun2).
  - split; [|split]; vm_compute; reflexivity.
  - vm_compute. reflexivity.
  - vm_compute. reflexivity.
  - vm_compute. reflexivity.
  - left. reflexivity.
  - apply (bool_decide_unpack _). vm_compute. exact I.
Defined.

(** ** The 108 cards *)

Lemma hand_cards_insert_fresh (h : gmap Z (list card)) uid new :
  h !! uid = None →
  hand_cards (<[uid := new]> h) = (length new + hand_cards h)%nat.
Proof.
  intros Hnone. unfold hand_cards.
  rewrite map_fold_insert_L; [done|intros; lia|done].
Qed.

Lemma deal_count uids : ∀ g out g' out',
  deal uids g out = (g', out', Ok tt) →
  NoDup uids →
  (∀ p, p ∈ uids → hands g !! p = None) →
  card_count g' = card_count g ∧ started g' = started g.
Proof.
  induction uids as [|uid uids IH]; intros g out g' out' Hrun Hnd Hfresh.
  - cbn [deal] in Hrun. by injection Hrun as <- _.
  - apply NoDup_cons in Hnd as [Hnin Hnd].
    cbn [deal] in Hrun. unfold bind at 1 in Hrun.
    destruct (pop_deck_n 7 g out) as [[g1 out1] [cs|e]] eqn:Hpop; [|done].
    apply pop_deck_n_Ok in Hpop as (Hg1 & Hdeck & Hcs).
    unfold bind at 1, modify at 1 in Hrun.
    apply IH in Hrun as [Hcount Hst]; [|done|].
    + rewrite Hcount, Hst. rewrite Hg1. unfold card_count. simpl.
      rewrite hand_cards_insert_fresh by (apply Hfresh; left).
      rewrite Hdeck, length_app, length_reverse. split; [lia|done].
    + intros p Hp. simpl. rewrite lookup_insert_ne by (intros ->; done).
      rewrite Hg1. simpl. apply Hfresh. by right.
Qed.

Lemma uno_begin_deal_count rnd now g out g' out' top :
  uno_begin_deal rnd now g out = (g', out', Ok top) →
  NoDup (players g) →
  hands g = ∅ →
  card_count g' = card_count g ∧ started g' = true.
Proof.
  intros Hrun Hnd Hempty.
  unfold uno_begin_deal, bind at 1, get, bind at 1 in Hrun.
  destruct (deal (players g) g out) as [[g1 out1] [[]|e]] eqn:Hdeal; [|done].
  apply deal_count in Hdeal as [Hcount _]; [|done|].
  2:{ intros p _. by rewrite Hempty. }
  unfold pop_deck, bind, get, try_, modify, ret, raise in Hrun.
  destruct (Py.pop (deck g1)) as [[d x]|] eqn:Hpop; [|done]. simpl in Hrun.
  apply pop_Some in Hpop.
  assert (Hc : card_count (set_pile (pile g1 ++ [x]) (set_deck d g1)) = card_count g).
  { rewrite <- Hcount. unfold card_count. simpl.
    rewrite Hpop, !length_app. simpl. lia. }
  case_decide.
  - destruct (Py.choice rnd COLORS); [|done]. simpl in Hrun.
    by injection Hrun as <- _ _.
  - simpl in Hrun. by injection Hrun as <- _ _.
Qed.

Lemma new_game_full rnd now : full_deck (new_game rnd now).
Proof.
  split; [|done]. unfold card_count, hand_cards, new_game. cbn [deck pile hands].
  rewrite create_deck_length. by rewrite map_fold_empty.
Qed.

Lemma written_by_full c w g' :
  attainable w →
  (∀ cid g, GAMES w !! cid = Some g → full_deck g) →
  raised (run c w).2 = None →
  GAMES (run c w).1 !! chat_of c = Some g' →
  full_deck g'.
Proof.
  intros Hr Hfull Hok Hg'.
  destruct c as [rnd now cid|now cid uid|rnd now cid|now cid uid args|
                 rnd now cid uid|cid|cid]; simpl in *.
  - unfold uno_start in Hg'. rewrite save_games_GAMES in Hg'. simpl in Hg'.
    rewrite lookup_insert_eq in Hg'. injection Hg' as <-. apply new_game_full.
  - unfold uno_join in Hg'.
    destruct (GAMES w !! cid) as [game|] eqn:Hg; [|simpl in Hg'; congruence].
    pose proof (Hfull _ _ Hg) as Hfg.
    destruct (started game) eqn:Hs; [simpl in Hg'; rewrite Hg in Hg'; injection Hg' as <-; exact Hfg|].
    destruct (Py.contains uid (players game));
      [simpl in Hg'; rewrite Hg in Hg'; injection Hg' as <-; exact Hfg|].
    simpl in Hg'. rewrite save_games_GAMES in Hg'. simpl in Hg'.
    rewrite lookup_insert_eq in Hg'. injection Hg' as <-.
    destruct Hfg as [Hc He]. by split.
  - unfold uno_begin in *.
    destruct (GAMES w !! cid) as [game|] eqn:Hg; [|simpl in Hg'; congruence].
    pose proof (Hfull _ _ Hg) as Hfg.
    destruct (attainable_session w cid game Hr Hg) as [_ (Hnd & _)].
    destruct (started game) eqn:Hs; [simpl in Hg'; rewrite Hg in Hg'; injection Hg' as <-; exact Hfg|].
    case_decide; [simpl in Hg'; rewrite Hg in Hg'; injection Hg' as <-; exact Hfg|].
    destruct (uno_begin_deal rnd now game []) as [[g1 out1] [top|e]] eqn:Hdeal;
      [|done].
    destruct Hfg as [Hc He].
    apply uno_begin_deal_count in Hdeal as [Hcount Hst]; [|done|by apply He].
    pose proof (uno_begin_announce_game top g1 out1) as Hg2.
    destruct (uno_begin_announce top g1 out1) as [[g2 out2] [[]|e]]; [|done].
    simpl in *. subst g2. rewrite lookup_insert_eq in Hg'. injection Hg' as <-.
    split; [congruence|]. by rewrite Hst.
  - destruct (uno_play_conserves now cid uid args w cid g' Hok Hg')
      as (g & Hg & Hcount).
    pose proof (Hfull _ _ Hg) as Hfg.
    apply (run_sessions (Play now cid uid args)) in Hg' as [Hg'|[_ Hw]].
    + by apply (Hfull cid).
    + destruct Hw as [(? & ? & ? & [=] & _)|[(? & ? & ? & ? & [=] & _)
                                           |(g0 & Hg0 & (_ & Hst & _) & Hs0)]].
      simpl in Hg0. rewrite Hg in Hg0. injection Hg0 as <-.
      destruct Hfg as [Hc He].
      split; [congruence|]. intros Hs'.
      destruct Hs0 as [Hs0|(? & ? & ? & [=] & _)]. by rewrite Hst in Hs'.
  - destruct (uno_draw_conserves rnd now cid uid w cid g' Hok Hg')
      as (g & Hg & Hcount).
    pose proof (Hfull _ _ Hg) as Hfg.
    apply (run_sessions (Draw rnd now cid uid)) in Hg' as [Hg'|[_ Hw]].
    + by apply (Hfull cid).
    + destruct Hw as [(? & ? & ? & [=] & _)|[(? & ? & ? & ? & [=] & _)
                                           |(g0 & Hg0 & (_ & Hst & _) & Hs0)]].
      simpl in Hg0. rewrite Hg in Hg0. injection Hg0 as <-.
      destruct Hfg as [Hc He].
      split; [congruence|]. intros Hs'.
      destruct Hs0 as [Hs0|(? & ? & ? & [=] & _)]. by rewrite Hst in Hs'.
  - unfold uno_reset in Hg'. destruct (GAMES w !! cid) eqn:Hg.
    + simpl in Hg'. rewrite save_games_GAMES in Hg'. simpl in Hg'.
      by rewrite lookup_delete_eq in Hg'.
    + simpl in Hg'. congruence.
  - rewrite uno_status_unchanged in Hg'. by apply (Hfull cid).
Qed.

Lemma run_all_full cs : ∀ w,
  attainable w →
  (∀ cid g, GAMES w !! cid = Some g → full_deck g) →
  all_complete cs w →
  ∀ cid g, GAMES (run_all cs w) !! cid = Some g → full_deck g.
Proof.
  induction cs as [|c cs IH]; intros w Hr Hfull Hall; [done|].
  destruct Hall as [Hok Hall]. cbn [run_all].
  apply IH; [by apply attain_run| |done].
  intros cid g Hg. destruct (decide (cid = chat_of c)) as [->|Hne].
  - by eapply written_by_full.
  - rewrite run_other_chat in Hg by done. by apply (Hfull cid).
Qed.

(** X25. No card is lost or made while every handler returns: from a
    start of the bot without sessions, after any sequence of commands none
    of which raised an exception, every session holds exactly 108 cards in
    its deck, its pile and its hands together. *)
Theorem sessions_hold_108_cards_while_commands_complete cs w cid g :
  GAMES w = ∅ →
  GAMES_FILE w = None →
  all_complete cs w →
  GAMES (run_all cs w) !! cid = Some g →
  card_count g = 108%nat.
Proof.
  intros Hempty Hfile Hall Hg.
  apply (run_all_full cs w) with (cid := cid) (g := g); try done.
  - by apply attain_boot.
  - intros cid0 g0. by rewrite Hempty, lookup_empty.
Qed.

Lemma sessions_hold_108_cards_while_commands_complete_witness :
  card_count (session last_card) = 108%nat.
Proof.
  apply (sessions_hold_108_cards_while_commands_complete whole_line world0 100
           (session last_card)).
  - reflexivity.
  - reflexivity.
  - vm_compute. repeat split.
  - vm_compute. reflexivity.
Defined.

(** ** The exceptions of the handlers *)

Lemma pop_deck_n_raise n : ∀ g out g' out' e,
  pop_deck_n n g out = (g', out', Raise e) → e = Py.IndexError.
Proof.
  induction n as [|n IH]; intros g out g' out' e; simpl; [done|].
  unfold bind at 1, pop_deck, bind, get, try_, modify, ret, raise.
  destruct (Py.pop (deck g)) as [[d x]|]; simpl; [|by intros [= _ _ <-]].
  destruct (pop_deck_n n (set_deck d g) out) as [[g1 out1] [cs|e1]] eqn:Hn;
    [done|].
  intros [= _ _ <-]. by eapply IH.
Qed.

Lemma victim_draws_raise n g out g' out' e :
  length (players g) ≠ 0%nat →
  (∀ p, p ∈ players g → is_Some (hands g !! p)) →
  victim_draws n g out = (g', out', Raise e) → e = Py.IndexError.
Proof.
  intros Hn Hdealt. unfold victim_draws, bind at 1.
  rewrite advance_turn_run by done. unfold bind at 1.
  destruct (mod_index_is_Some (players g) (current g + direction g) Hn)
    as [victim Hvictim].
  rewrite (current_player_run _ _ victim) by done. unfold bind at 1.
  destruct (pop_deck_n n _ out) as [[g1 out1] [cs|e1]] eqn:Hpop.
  - apply pop_deck_n_Ok in Hpop as (Hg1 & _ & _).
    destruct (Hdealt victim) as [hv Hhv]; [by eapply index_elem_of|].
    unfold bind at 1. rewrite (extend_hand_run _ _ _ _ hv) by (by rewrite Hg1).
    unfold bind at 1, say. rewrite advance_turn_run; [done|]. by rewrite Hg1.
  - intros [= _ _ <-]. by eapply pop_deck_n_raise.
Qed.

Lemma special_effect_raise c g out g' out' e :
  length (players g) ≠ 0%nat →
  (∀ p, p ∈ players g → is_Some (hands g !! p)) →
  special_effect c g out = (g', out', Raise e) → e = Py.IndexError.
Proof.
  intros Hn Hdealt.
  destruct (decide (c.2 = "reverse")) as [Hr|Hr].
  { by rewrite special_effect_reverse. }
  destruct (decide (c.2 = "draw2")) as [H2|H2].
  { rewrite (special_effect_victim _ _ _ 2) by (by left).
    by apply victim_draws_raise. }
  destruct (decide (c.2 = "wild4")) as [H4|H4].
  { rewrite (special_effect_victim _ _ _ 4) by (by right).
    by apply victim_draws_raise. }
  rewrite special_effect_advance; [done|done|set_solver].
Qed.

Lemma deal_raise uids : ∀ g out g' out' e,
  deal uids g out = (g', out', Raise e) → e = Py.IndexError.
Proof.
  induction uids as [|uid uids IH]; intros g out g' out' e; cbn [deal]; [done|].
  unfold bind at 1.
  destruct (pop_deck_n 7 g out) as [[g1 out1] [cs|e1]] eqn:Hpop.
  - unfold bind at 1, modify at 1. apply IH.
  - intros [= _ _ <-]. by eapply pop_deck_n_raise.
Qed.

Lemma uno_begin_deal_raise rnd now g out g' out' e :
  uno_begin_deal rnd now g out = (g', out', Raise e) → e = Py.IndexError.
Proof.
  unfold uno_begin_deal, bind at 1, get, bind at 1.
  destruct (deal (players g) g out) as [[g1 out1] [[]|e1]] eqn:Hdeal.
  2:{ intros [= _ _ <-]. by eapply deal_raise. }
  unfold pop_deck, bind, get, try_, modify, ret, raise.
  destruct (Py.pop (deck g1)) as [[d x]|]; simpl; [|by intros [= _ _ <-]].
  case_decide; [|done].
  destruct (Py.choice rnd COLORS); simpl; [done|by intros [= _ _ <-]].
Qed.

Lemma uno_begin_announce_raise top g out g' out' e :
  displayable top →
  uno_begin_announce top g out = (g', out', Raise e) → e = Py.IndexError.
Proof.
  intros [shown Hshown].
  unfold uno_begin_announce, current_player, bind, get, try_, say, ret, raise.
  destruct (Py.index (players g) (current g)); simpl; [|by intros [= _ _ <-]].
  by rewrite Hshown.
Qed.

Lemma uno_draw_take_raise rnd now uid g out g' out' e :
  is_Some (hands g !! uid) →
  uno_draw_take rnd now uid g out = (g', out', Raise e) → e = Py.IndexError.
Proof.
  intros [h Hh].
  unfold uno_draw_take, pop_deck, extend_hand, bind, get, try_, modify, raise, ret.
  case_decide.
  - destruct (Py.pop (pile g)) as [[rest t]|]; [|by intros [= _ _ <-]]. simpl.
    destruct (Py.pop (Py.shuffle rnd rest)) as [[d x]|]; [|by intros [= _ _ <-]].
    simpl. by rewrite Hh.
  - destruct (Py.pop (deck g)) as [[d x]|]; [|by intros [= _ _ <-]]. simpl.
    by rewrite Hh.
Qed.

Lemma uno_draw_pass_raise c g out g' out' e :
  displayable c →
  length (players g) ≠ 0%nat →
  uno_draw_pass c g out = (g', out', Raise e) → e = Py.IndexError.
Proof.
  intros [shown Hshown] Hn.
  unfold uno_draw_pass, bind at 1. rewrite Hshown. simpl.
  unfold bind at 1, say, bind at 1. rewrite advance_turn_run by done.
  unfold current_player, bind, get, try_, say, ret, raise.
  destruct (Py.index _ _); simpl; [done|by intros [= _ _ <-]].
Qed.

Lemma uno_play_commit_raise now cid uid c chosen game w e :
  well_formed game →
  started game = true →
  c ∈ default [] (hands game !! uid) →
  is_Some (played_color c chosen) →
  raised (uno_play_commit now cid uid c chosen game w).2 = Some e →
  e = Py.IndexError.
Proof.
  intros Hwf Hs Hheld [color Hcolor].
  destruct (hands game !! uid) as [hand|] eqn:Hhand; simpl in Hheld;
    [|by apply elem_of_nil in Hheld].
  destruct (remove_Some c hand Hheld) as (hand' & Hrem & _).
  assert (Hshow : is_Some (display_rank c.2)).
  { exact (proj1 (Forall_forall _ _) (wf_hands _ Hwf _ _ Hhand) _ Hheld). }
  destruct Hshow as [shown Hshown].
  pose proof (wf_turn _ Hwf Hs) as Hcur.
  unfold uno_play_commit, play_card, bind.
  rewrite (place_card_run _ _ _ _ _ _ _ _ _ _ Hhand Hrem Hcolor Hshown).
  destruct (special_effect c _ _) as [[g1 out1] [[]|e1]] eqn:Heff.
  - cbv zeta. case_decide; [done|].
    destruct (Py.index (players g1) (current g1)); [done|by intros [= <-]].
  - simpl. intros [= <-].
    apply special_effect_raise in Heff; [done|simpl; lia|]. simpl.
    intros p Hp. destruct (decide (p = uid)) as [->|Hne].
    + rewrite lookup_insert_eq. by eexists.
    + rewrite lookup_insert_ne by done. by apply (wf_dealt _ Hwf Hs).
Qed.

Lemma run_raise c w e :
  attainable w →
  raised (run c w).2 = Some e →
  e = Py.IndexError.
Proof.
  intros Hr.
  destruct c as [rnd now cid|now cid uid|rnd now cid|now cid uid args|
                 rnd now cid uid|cid|cid]; simpl.
  - done.
  - unfold uno_join. destruct (GAMES w !! cid) as [game|]; [|done].
    destruct (started game); [done|]. by destruct (Py.contains uid (players game)).
  - unfold uno_begin.
    destruct (GAMES w !! cid) as [game|] eqn:Hg; [|done].
    destruct (attainable_session w cid game Hr Hg) as [Hwf _].
    destruct (started game) eqn:Hs; [done|].
    case_decide as Hn; [done|].
    pose proof (uno_begin_deal_triple (players game) rnd now) as Ht.
    specialize (Ht ltac:(lia) game []).
    destruct (uno_begin_deal rnd now game []) as [[g1 out1] [top|e1]] eqn:Hdeal.
    + destruct Ht as [Htop _]; [by split_and!; [..|set_solver]|].
      destruct (uno_begin_announce top g1 out1) as [[g2 out2] [[]|e2]] eqn:Hann;
        [done|].
      simpl. intros [= <-]. by eapply uno_begin_announce_raise.
    + simpl. intros [= <-]. by eapply uno_begin_deal_raise.
  - unfold uno_play.
    destruct (GAMES w !! cid) as [game|] eqn:Hg; [|done].
    destruct (attainable_session w cid game Hr Hg) as [Hwf _].
    destruct (started game) eqn:Hs; [|done]. simpl.
    destruct (Py.index (players game) (current game)); [|by intros [= <-]].
    case_decide; [done|].
    destruct (determine_card (map Py.lower args)) as [| | |c chosen] eqn:Hargs;
      [done|done|by intros [= <-]|].
    destruct (Py.contains c (default [] (hands game !! uid))) eqn:Hheld; [|done].
    simpl. apply contains_true in Hheld.
    destruct (Py.top (pile game)) as [top_card|]; [|by intros [= <-]].
    destruct (negb (playable (current_color game) top_card.2 c)); [done|].
    apply uno_play_commit_raise; try done.
    by eapply determined_played_color.
  - unfold uno_draw.
    destruct (GAMES w !! cid) as [game|] eqn:Hg; [|done].
    destruct (attainable_session w cid game Hr Hg) as [Hwf _].
    destruct (started game) eqn:Hs; [|done]. simpl.
    destruct (Py.index (players game) (current game)) as [p|] eqn:Hp;
      [|by intros [= <-]].
    case_decide as Hpu; [done|].
    assert (p = uid) as -> by (by destruct (decide (p = uid))).
    pose proof (uno_draw_take_triple (players game) rnd now uid game []) as Ht.
    destruct (uno_draw_take rnd now uid game []) as [[g1 out1] [c|e1]] eqn:Htake.
    + destruct Ht as [Hc (Hwf1 & Hs1 & Hp1)]; [done|].
      destruct (uno_draw_pass c g1 out1) as [[g2 out2] [[]|e2]] eqn:Hpass; [done|].
      simpl. intros [= <-].
      apply uno_draw_pass_raise in Hpass; [done..|].
      pose proof (wf_turn _ Hwf1 Hs1). lia.
    + simpl. intros [= <-].
      apply uno_draw_take_raise in Htake; [done|].
      apply (wf_dealt _ Hwf Hs). by eapply index_elem_of.
  - unfold uno_reset. by destruct (GAMES w !! cid).
  - unfold uno_status. destruct (GAMES w !! cid) as [game|]; [|done].
    destruct (started game); [|done].
    destruct (Py.index (players game) (current game)); [|by intros [= <-]].
    by destruct (Py.top (pile game)).
Qed.

(** X26. In every state the bot can reach, the only exception a handler
    raises is IndexError, from a [list.pop] on an empty list or a missing
    argument: there is never a KeyError from a hand or a card name, a
    ValueError from [hand.remove], a ZeroDivisionError from [advance_turn]
    or an unbound [chosen_color]. *)
Theorem handlers_raise_only_IndexError c w :
  attainable w →
  raised (run c w).2 = None ∨ raised (run c w).2 = Some Py.IndexError.
Proof.
  intros Hr. destruct (raised (run c w).2) as [e|] eqn:He; [|by left].
  right. f_equal. by eapply run_raise.
Qed.

Lemma handlers_raise_only_IndexError_witness :
  raised (run (Play 5 100 1 ["red"]) begun2).2 = None
  ∨ raised (run (Play 5 100 1 ["red"]) begun2).2 = Some Py.IndexError.
Proof.
  apply (handlers_raise_only_IndexError (Play 5 100 1 ["red"]) begun2).
  apply reachable_attainable, reachable_begun2.
Defined.

(** ** The leaderboard *)

Lemma insert_by_wins_Permutation x l : insert_by_wins x l ≡ₚ x :: l.
Proof.
  induction l as [|y l IH]; simpl; [done|].
  case_decide; [done|]. rewrite IH. apply Permutation_swap.
Qed.

Lemma insert_by_wins_sorted x l :
  StronglySorted (λ a b : Z * Z, b.2 <= a.2) l →
  StronglySorted (λ a b : Z * Z, b.2 <= a.2) (insert_by_wins x l).
Proof.
  induction 1 as [|y l Hl IH Hy]; simpl.
  - constructor; [constructor|done].
  - case_decide as Hlt.
    + constructor; [by constructor|].
      constructor; [lia|]. eapply Forall_impl; [exact Hy|]. simpl. intros; lia.
    + constructor; [done|].
      rewrite insert_by_wins_Permutation. constructor; [lia|done].
Qed.

Lemma filter_none {A} (P : A → Prop) `{∀ x, Decision (P x)} (l : list A) :
  Forall (λ x, ¬ P x) l → filter P l = [].
Proof.
  induction 1 as [|x l Hx _ IH]; [done|].
  rewrite filter_cons. by rewrite decide_False.
Qed.

Lemma insert_by_wins_stable k x l :
  StronglySorted (λ a b : Z * Z, b.2 <= a.2) l →
  filter (λ e : Z * Z, e.2 = k) (insert_by_wins x l)
  = filter (λ e : Z * Z, e.2 = k) l ++ filter (λ e : Z * Z, e.2 = k) [x].
Proof.
  induction 1 as [|y l Hl IH Hy]; [done|]. cbn [insert_by_wins].
  case_decide as Hlt.
  - rewrite (filter_cons _ x (y :: l)), (filter_cons _ x []), filter_nil.
    case_decide as Hx; [|by rewrite app_nil_r].
    rewrite filter_none; [done|].
    constructor; [lia|]. eapply Forall_impl; [exact Hy|]. simpl. intros; lia.
  - rewrite !(filter_cons _ y). case_decide; rewrite IH; done.
Qed.

Lemma sorted_from_Permutation items : ∀ acc,
  foldl (λ acc x, insert_by_wins x acc) acc items ≡ₚ acc ++ items.
Proof.
  induction items as [|x items IH]; intros acc; simpl; [by rewrite app_nil_r|].
  rewrite IH, insert_by_wins_Permutation. simpl. apply Permutation_middle.
Qed.

Lemma sorted_from_sorted items : ∀ acc,
  StronglySorted (λ a b : Z * Z, b.2 <= a.2) acc →
  StronglySorted (λ a b : Z * Z, b.2 <= a.2)
    (foldl (λ acc x, insert_by_wins x acc) acc items).
Proof.
  induction items as [|x items IH]; intros acc Hacc; simpl; [done|].
  by apply IH, insert_by_wins_sorted.
Qed.

Lemma sorted_from_stable k items : ∀ acc,
  StronglySorted (λ a b : Z * Z, b.2 <= a.2) acc →
  filter (λ e : Z * Z, e.2 = k) (foldl (λ acc x, insert_by_wins x acc) acc items)
  = filter (λ e : Z * Z, e.2 = k) acc ++ filter (λ e : Z * Z, e.2 = k) items.
Proof.
  induction items as [|x items IH]; intros acc Hacc; simpl; [by rewrite app_nil_r|].
  rewrite IH by (by apply insert_by_wins_sorted).
  rewrite insert_by_wins_stable by done.
  rewrite <- app_assoc. f_equal. by rewrite <- filter_app.
Qed.

(** X27. [uno_top10] answers "No wins yet." for a chat without wins.
    Otherwise it ranks the entries of the chat by decreasing number of
    wins, entries with equal wins in the order of the file, and lists the
    first ten of the ranking, numbered from 1. *)
Theorem top10_ranks_by_wins (items : list (Z * Z)) :
  items ≠ [] →
  ∃ ranked,
    ranked ≡ₚ items
    ∧ StronglySorted (λ a b : Z * Z, b.2 <= a.2) ranked
    ∧ (∀ k, filter (λ e : Z * Z, e.2 = k) ranked = filter (λ e : Z * Z, e.2 = k) items)
    ∧ uno_top10 items = T_Top (imap (λ i e, (S i, e.1, e.2)) (take 10 ranked))
    ∧ uno_top10 [] = T_NoWins.
Proof.
  intros Hne. exists (sorted_by_wins items). unfold sorted_by_wins. split_and!.
  - by rewrite sorted_from_Permutation.
  - apply sorted_from_sorted. constructor.
  - intros k. rewrite sorted_from_stable by constructor. done.
  - unfold uno_top10. by rewrite decide_False.
  - done.
Qed.

Lemma top10_ranks_by_wins_witness :
  ∃ ranked,
    ranked ≡ₚ [(7, 2); (8, 5); (9, 2)]
    ∧ StronglySorted (λ a b : Z * Z, b.2 <= a.2) ranked
    ∧ (∀ k, filter (λ e : Z * Z, e.2 = k) ranked
            = filter (λ e : Z * Z, e.2 = k) [(7, 2); (8, 5); (9, 2)])
    ∧ uno_top10 [(7, 2); (8, 5); (9, 2)]
      = T_Top (imap (λ i e, (S i, e.1, e.2)) (take 10 ranked))
    ∧ uno_top10 [] = T_NoWins.
Proof. apply (top10_ranks_by_wins [(7, 2); (8, 5); (9, 2)]). discriminate. Defined.

(** The ranking of a sample chat: the entry with five wins first, the two
    entries with two wins in the order of the file. *)
Example top10_of_three :
  uno_top10 [(7, 2); (8, 5); (9, 2)] = T_Top [(1%nat, 8, 5); (2%nat, 7, 2); (3%nat, 9, 2)].
Proof. reflexivity. Qed.

(** ** Turns go round *)

Lemma set_current_same g : set_current (current g) g = g.
Proof. by destruct g. Qed.

Lemma advance_turns_run k : ∀ g out,
  0 <= current g < Z.of_nat (length (players g)) →
  advance_turns k g out =
    (set_current
       ((current g + Z.of_nat k * direction g) `mod` Z.of_nat (length (players g))) g,
     out, Ok tt).
Proof.
  induction k as [|k IH]; intros g out Hcur.
  - simpl. rewrite Z.add_0_r, Z.mod_small by done. by rewrite set_current_same.
  - cbn [advance_turns]. unfold bind. rewrite advance_turn_run by lia.
    rewrite IH by (simpl; apply Z.mod_pos_bound; lia). simpl.
    rewrite Zplus_mod_idemp_l.
    replace (current g + direction g + Z.of_nat k * direction g)
      with (current g + Z.of_nat (S k) * direction g) by lia.
    done.
Qed.

(** X28. [advance_turn] walks round the table: from a turn index within
    the list of players, [k] calls move the turn [k] seats on in the
    direction of play, modulo the number of players, and as many calls as
    there are players bring the turn back to the same player, whatever the
    direction. *)
Theorem advance_turn_goes_round k g out :
  0 <= current g < Z.of_nat (length (players g)) →
  advance_turns k g out =
    (set_current
       ((current g + Z.of_nat k * direction g) `mod` Z.of_nat (length (players g))) g,
     out, Ok tt)
  ∧ advance_turns (length (players g)) g out = (g, out, Ok tt).
Proof.
  intros Hcur. split; [by apply advance_turns_run|].
  rewrite advance_turns_run by done.
  rewrite Z.mul_comm, Z_mod_plus_full, Z.mod_small by done.
  by rewrite set_current_same.
Qed.

Lemma advance_turn_goes_round_witness :
  advance_turns 3 (session begun3) [] =
    (set_current
       ((current (session begun3) + Z.of_nat 3 * direction (session begun3))
          `mod` Z.of_nat (length (players (session begun3)))) (session begun3),
     [], Ok tt)
  ∧ advance_turns (length (players (session begun3))) (session begun3) []
    = (session begun3, [], Ok tt).
Proof.
  apply (advance_turn_goes_round 3 (session begun3) []). vm_compute. split; [discriminate|reflexivity].
Defined.

(** ** The last session and the games file *)

Lemma run_file_when_empty c w :
  GAMES (run c w).1 = ∅ → GAMES_FILE (run c w).1 = GAMES_FILE w.
Proof.
  assert (Hsave : ∀ w', GAMES_FILE w' = GAMES_FILE w → GAMES (save_games w') = ∅ →
            GAMES_FILE (save_games w') = GAMES_FILE w).
  { intros w' Hf. rewrite save_games_GAMES. intros He. unfold save_games.
    by rewrite decide_True. }
  destruct c as [rnd now cid|now cid uid|rnd now cid|now cid uid args|
                 rnd now cid uid|cid|cid]; simpl.
  - by apply Hsave.
  - unfold uno_join. destruct (GAMES w !! cid) as [game|]; [|done].
    destruct (started game); [done|].
    destruct (Py.contains uid (players game)); [done|]. by apply Hsave.
  - unfold uno_begin. destruct (GAMES w !! cid) as [game|]; [|done].
    destruct (started game); [done|]. case_decide; [done|].
    destruct (uno_begin_deal rnd now game []) as [[g1 out1] [top|e]]; [|done].
    destruct (uno_begin_announce top g1 out1) as [[g2 out2] [[]|e]]; simpl;
      intros He; by apply insert_non_empty in He.
  - destruct (uno_play_checks now cid uid args w)
      as [(game & c & chosen & top_card & _ & _ & _ & _ & _ & Heq)|Heq];
      [|by rewrite Heq].
    rewrite Heq. unfold uno_play_commit.
    destruct (play_card now uid c chosen game []) as [[g1 out1] [[]|e]]; [|done].
    cbv zeta. case_decide; [by apply Hsave|].
    destruct (Py.index (players g1) (current g1)); by apply Hsave.
  - unfold uno_draw. destruct (GAMES w !! cid) as [game|]; [|done].
    destruct (started game); [|done]. simpl.
    destruct (Py.index (players game) (current game)); [|done].
    case_decide; [done|].
    destruct (uno_draw_take rnd now uid game []) as [[g1 out1] [c|e]]; [|done].
    destruct (uno_draw_pass c g1 out1) as [[g2 out2] [[]|e]]; simpl;
      intros He; by apply insert_non_empty in He.
  - unfold uno_reset. destruct (GAMES w !! cid); [|done]. by apply Hsave.
  - by rewrite uno_status_unchanged.
Qed.

(** X29. [save_games] writes nothing when no session is left.  So when a
    command ends the last session, by a reset or a win, the games file
    still holds what was saved before, and a restart before the sessions
    of the file expire brings them back as they were before that
    command. *)
Theorem ended_last_session_is_back_after_restart c w now :
  durable w →
  GAMES (run c w).1 = ∅ →
  (∀ cid g, GAMES w !! cid = Some g → now - last_active g <= 86400) →
  GAMES_FILE (run c w).1 = Some (GAMES w)
  ∧ GAMES (restart now (run c w).1) = GAMES w.
Proof.
  intros Hd He Hall.
  pose proof (run_file_when_empty c w He) as Hf. rewrite Hd in Hf.
  split; [done|]. apply map_eq. intros cid.
  rewrite restart_lookup, Hf. simpl.
  destruct (GAMES w !! cid) as [g|] eqn:Hg; simpl; [|done].
  unfold expired. rewrite bool_decide_eq_false_2; [done|].
  specialize (Hall cid g Hg). lia.
Qed.

Lemma ended_last_session_is_back_after_restart_witness :
  GAMES_FILE (run (Play 7 100 2 ["wild"; "blue"]) one_card_left).1
  = Some (GAMES one_card_left)
  ∧ GAMES (restart 10 (run (Play 7 100 2 ["wild"; "blue"]) one_card_left).1)
    = GAMES one_card_left.
Proof.
  apply (ended_last_session_is_back_after_restart
           (Play 7 100 2 ["wild"; "blue"]) one_card_left 10).
  - vm_compute. reflexivity.
  - vm_compute. reflexivity.
  - change (map_Forall (λ (_ : Z) g, 10 - last_active g <= 86400) (GAMES one_card_left)).
    apply (bool_decide_unpack _). vm_compute. exact I.
Defined.

